(** * nlk-term: the git panel, the terminal pane and the application shell

    A shallow embedding of the three Vue components of the front end
    ([src/components/GitPanel.vue], [src/components/TerminalPane.vue] and the
    application root) as event-driven state machines, with the properties of
    the refresh coordinator, the diff-request token, the commit and checkout
    guards, the timers and the tab bookkeeping proved about them.

    How the JavaScript is read:
    - a component is a record of its [ref]s, its [let] variables and its
      props; every handler is a function from state to state;
    - the event loop is single threaded: a handler, or the continuation of an
      [await], runs without interruption until the next [await] on a call to
      the backend ([invoke]); such a call is appended to the component's [log]
      and its continuation is parked in [pending] under a fresh id until the
      environment settles it (resolves or rejects the promise);
    - an [await] on a promise that is already settled continues at once;
    - strings are sequences of code units below 256. *)

From stdpp Require Import base gmap strings list pretty.
From Stdlib Require Import ZArith Lia.

Open Scope string_scope.

(** ** JavaScript values *)

Module Js.

(** What a [catch (e)] clause receives: an [Error] instance with its message,
    or any other thrown value. *)
Inductive Thrown :=
| ErrorInstance (message : string)
| OtherValue.

(** [e instanceof Error ? e.message : fallback] *)
Definition messageOr (fallback : string) (e : Thrown) : string :=
  match e with
  | ErrorInstance message => message
  | OtherValue => fallback
  end.

(** White space and line terminators below 256, as [String.prototype.trim]
    strips them: TAB, LF, VT, FF, CR, SPACE and NBSP. *)
Definition isWhiteSpace (c : Ascii.ascii) : bool :=
  let n := Ascii.nat_of_ascii c in
  (Nat.leb 9 n && Nat.leb n 13) || Nat.eqb n 32 || Nat.eqb n 160.

Fixpoint trimStart (s : string) : string :=
  match s with
  | EmptyString => EmptyString
  | String c rest => if isWhiteSpace c then trimStart rest else s
  end.

Fixpoint trimEnd (s : string) : string :=
  match s with
  | EmptyString => EmptyString
  | String c rest =>
      match trimEnd rest with
      | EmptyString => if isWhiteSpace c then EmptyString else String c EmptyString
      | kept => String c kept
      end
  end.

Definition trim (s : string) : string := trimEnd (trimStart s).

(** Truthiness of [string | null | undefined]: null and the empty string are
    falsy. *)
Definition truthy (o : option string) : bool :=
  match o with
  | Some s => negb (String.eqb s "")
  | None => false
  end.

(** [a ?? b] *)
Definition orElse {A : Type} (a b : option A) : option A :=
  match a with
  | Some _ => a
  | None => b
  end.

(** [x === y] on [string | null] *)
Definition sameString (a b : option string) : bool :=
  match a, b with
  | Some x, Some y => String.eqb x y
  | None, None => true
  | _, _ => false
  end.

(** [++n] on a number holding a non-negative integer. A double represents
    every integer up to 2^53; 2^53 + 1 rounds back to 2^53. *)
Definition maxExactInteger : Z := 2 ^ 53.

Definition increment (n : Z) : Z :=
  if (n <? maxExactInteger)%Z then (n + 1)%Z else n.

(** A promise returned by [invoke], once settled. *)
Inductive Settled (A : Type) :=
| Resolved (value : A)
| Rejected (reason : Thrown).
Arguments Resolved {A} value.
Arguments Rejected {A} reason.

End Js.

(** ** GitPanel.vue: data and state *)

Module GitPanel.

Record GitChange := mkGitChange {
  change_path : string;
  change_status : string;
  change_staged : bool;
  change_unstaged : bool;
  change_untracked : bool
}.

Record GitStatusResponse := mkGitStatusResponse {
  status_repoPath : string;
  status_branch : string;
  status_ahead : Z;
  status_behind : Z;
  status_changes : list GitChange
}.

Record GitBranchesResponse := mkGitBranchesResponse {
  response_current : string;
  response_branches : list string
}.

Inductive RemoteAction := fetch | pull | push.

Definition actionName (action : RemoteAction) : string :=
  match action with
  | fetch => "fetch"
  | pull => "pull"
  | push => "push"
  end.

(** The backend commands the panel invokes, with their arguments. *)
Inductive Command :=
| git_status (repoPath : option string)
| git_diff (repoPath path : string) (staged untracked : bool)
| git_branches (repoPath : string)
| git_stage (repoPath path : string)
| git_unstage (repoPath path : string)
| git_stage_all (repoPath : string)
| git_commit (repoPath message : string) (amend : bool)
| git_remote (action : RemoteAction) (repoPath : string)
| git_checkout (repoPath branch : string).

(** What a resolved [invoke] carries. *)
Inductive Response :=
| StatusValue (response : GitStatusResponse)
| BranchesValue (response : GitBranchesResponse)
| PatchValue (patch : string)
| NoValue.

(** The diff library ([@pierre/diffs]) is external: [parsePatchFiles] may
    throw, or yield the first file of the first patch if there is one, and
    rendering a file may throw. *)
Definition FileDiffMetadata := string.

Inductive ParseResult :=
| ParseThrows
| Parsed (firstFile : option FileDiffMetadata).

Record DiffLibrary := mkDiffLibrary {
  parsePatchFiles : string -> ParseResult;
  renderThrows : FileDiffMetadata -> bool
}.

(** What the diff container shows. *)
Inductive DiffView :=
| TextContent (message : string)
| FileDiffView (fileDiff : FileDiffMetadata).

(** Who awaits a [refresh()]: nobody (the refresh button, the watchers,
    [onMounted], the follow-up started by [finally]), or one of the handlers
    that refresh after their own backend call. *)
Inductive RefreshCaller :=
| Detached
| ActionCaller
| CommitCaller
| RemoteCaller
| CheckoutCaller.

(** Who awaits a [loadDiff()]: nobody ([pickFile], the [open] watcher) or a
    refresh. *)
Inductive DiffCaller :=
| DiffDetached
| DiffInRefresh (caller : RefreshCaller).

(** The continuation parked at each [await invoke(...)]. *)
Inductive Continuation :=
| RefreshAwaitsStatus (caller : RefreshCaller)
| RefreshAwaitsBranches (nextStatus : GitStatusResponse) (caller : RefreshCaller)
| LoadDiffAwaitsDiff (currentDiffToken : Z) (caller : DiffCaller)
| ActionAwaitsInvoke (fallback : string)
| CommitAwaitsInvoke
| RemoteAwaitsInvoke (action : RemoteAction)
| CheckoutAwaitsInvoke.

Record State := mkState {
  (* props *)
  propOpen : bool;
  propRepoPath : option string;
  (* refs *)
  loading : bool;
  loadingDiff : bool;
  error : option string;
  status : option GitStatusResponse;
  selectedPath : option string;
  diffContainer : option DiffView;
  lastRepoPath : option string;
  actionPath : option string;
  actionLoading : bool;
  commitLoading : bool;
  commitMessage : string;
  remoteLoading : bool;
  remoteAction : option RemoteAction;
  branchLoading : bool;
  checkoutLoading : bool;
  branches : list string;
  currentBranch : string;
  branchModalOpen : bool;
  branchQuery : string;
  (* let variables *)
  diffInstance : bool;
  refreshInFlight : bool;
  refreshQueued : bool;
  diffToken : Z;
  (* calls to the backend: parked continuations, next promise id, history *)
  pending : gmap nat Continuation;
  nextId : nat;
  log : list Command
}.

(** The component before it is mounted. *)
Definition initial (open : bool) (repoPath : option string) : State :=
  mkState open repoPath false false None None None None None None false
    false "" false None false false [] "" false "" false false false 0 ∅ 0 [].

Definition set_propOpen v s : State :=
  mkState v (propRepoPath s) (loading s) (loadingDiff s) (error s) (status s)
    (selectedPath s) (diffContainer s) (lastRepoPath s) (actionPath s)
    (actionLoading s) (commitLoading s) (commitMessage s) (remoteLoading s)
    (remoteAction s) (branchLoading s) (checkoutLoading s) (branches s)
    (currentBranch s) (branchModalOpen s) (branchQuery s) (diffInstance s)
    (refreshInFlight s) (refreshQueued s) (diffToken s) (pending s) (nextId s)
    (log s).
Definition set_propRepoPath v s : State :=
  mkState (propOpen s) v (loading s) (loadingDiff s) (error s) (status s)
    (selectedPath s) (diffContainer s) (lastRepoPath s) (actionPath s)
    (actionLoading s) (commitLoading s) (commitMessage s) (remoteLoading s)
    (remoteAction s) (branchLoading s) (checkoutLoading s) (branches s)
    (currentBranch s) (branchModalOpen s) (branchQuery s) (diffInstance s)
    (refreshInFlight s) (refreshQueued s) (diffToken s) (pending s) (nextId s)
    (log s).
Definition set_loading v s : State :=
  mkState (propOpen s) (propRepoPath s) v (loadingDiff s) (error s) (status s)
    (selectedPath s) (diffContainer s) (lastRepoPath s) (actionPath s)
    (actionLoading s) (commitLoading s) (commitMessage s) (remoteLoading s)
    (remoteAction s) (branchLoading s) (checkoutLoading s) (branches s)
    (currentBranch s) (branchModalOpen s) (branchQuery s) (diffInstance s)
    (refreshInFlight s) (refreshQueued s) (diffToken s) (pending s) (nextId s)
    (log s).
Definition set_loadingDiff v s : State :=
  mkState (propOpen s) (propRepoPath s) (loading s) v (error s) (status s)
    (selectedPath s) (diffContainer s) (lastRepoPath s) (actionPath s)
    (actionLoading s) (commitLoading s) (commitMessage s) (remoteLoading s)
    (remoteAction s) (branchLoading s) (checkoutLoading s) (branches s)
    (currentBranch s) (branchModalOpen s) (branchQuery s) (diffInstance s)
    (refreshInFlight s) (refreshQueued s) (diffToken s) (pending s) (nextId s)
    (log s).
Definition set_error v s : State :=
  mkState (propOpen s) (propRepoPath s) (loading s) (loadingDiff s) v
    (status s) (selectedPath s) (diffContainer s) (lastRepoPath s)
    (actionPath s) (actionLoading s) (commitLoading s) (commitMessage s)
    (remoteLoading s) (remoteAction s) (branchLoading s) (checkoutLoading s)
    (branches s) (currentBranch s) (branchModalOpen s) (branchQuery s)
    (diffInstance s) (refreshInFlight s) (refreshQueued s) (diffToken s)
    (pending s) (nextId s) (log s).
Definition set_status v s : State :=
  mkState (propOpen s) (propRepoPath s) (loading s) (loadingDiff s) (error s)
    v (selectedPath s) (diffContainer s) (lastRepoPath s) (actionPath s)
    (actionLoading s) (commitLoading s) (commitMessage s) (remoteLoading s)
    (remoteAction s) (branchLoading s) (checkoutLoading s) (branches s)
    (currentBranch s) (branchModalOpen s) (branchQuery s) (diffInstance s)
    (refreshInFlight s) (refreshQueued s) (diffToken s) (pending s) (nextId s)
    (log s).
Definition set_selectedPath v s : State :=
  mkState (propOpen s) (propRepoPath s) (loading s) (loadingDiff s) (error s)
    (status s) v (diffContainer s) (lastRepoPath s) (actionPath s)
    (actionLoading s) (commitLoading s) (commitMessage s) (remoteLoading s)
    (remoteAction s) (branchLoading s) (checkoutLoading s) (branches s)
    (currentBranch s) (branchModalOpen s) (branchQuery s) (diffInstance s)
    (refreshInFlight s) (refreshQueued s) (diffToken s) (pending s) (nextId s)
    (log s).
Definition set_diffContainer v s : State :=
  mkState (propOpen s) (propRepoPath s) (loading s) (loadingDiff s) (error s)
    (status s) (selectedPath s) v (lastRepoPath s) (actionPath s)
    (actionLoading s) (commitLoading s) (commitMessage s) (remoteLoading s)
    (remoteAction s) (branchLoading s) (checkoutLoading s) (branches s)
    (currentBranch s) (branchModalOpen s) (branchQuery s) (diffInstance s)
    (refreshInFlight s) (refreshQueued s) (diffToken s) (pending s) (nextId s)
    (log s).
Definition set_lastRepoPath v s : State :=
  mkState (propOpen s) (propRepoPath s) (loading s) (loadingDiff s) (error s)
    (status s) (selectedPath s) (diffContainer s) v (actionPath s)
    (actionLoading s) (commitLoading s) (commitMessage s) (remoteLoading s)
    (remoteAction s) (branchLoading s) (checkoutLoading s) (branches s)
    (currentBranch s) (branchModalOpen s) (branchQuery s) (diffInstance s)
    (refreshInFlight s) (refreshQueued s) (diffToken s) (pending s) (nextId s)
    (log s).
Definition set_actionPath v s : State :=
  mkState (propOpen s) (propRepoPath s) (loading s) (loadingDiff s) (error s)
    (status s) (selectedPath s) (diffContainer s) (lastRepoPath s) v
    (actionLoading s) (commitLoading s) (commitMessage s) (remoteLoading s)
    (remoteAction s) (branchLoading s) (checkoutLoading s) (branches s)
    (currentBranch s) (branchModalOpen s) (branchQuery s) (diffInstance s)
    (refreshInFlight s) (refreshQueued s) (diffToken s) (pending s) (nextId s)
    (log s).
Definition set_actionLoading v s : State :=
  mkState (propOpen s) (propRepoPath s) (loading s) (loadingDiff s) (error s)
    (status s) (selectedPath s) (diffContainer s) (lastRepoPath s)
    (actionPath s) v (commitLoading s) (commitMessage s) (remoteLoading s)
    (remoteAction s) (branchLoading s) (checkoutLoading s) (branches s)
    (currentBranch s) (branchModalOpen s) (branchQuery s) (diffInstance s)
    (refreshInFlight s) (refreshQueued s) (diffToken s) (pending s) (nextId s)
    (log s).
Definition set_commitLoading v s : State :=
  mkState (propOpen s) (propRepoPath s) (loading s) (loadingDiff s) (error s)
    (status s) (selectedPath s) (diffContainer s) (lastRepoPath s)
    (actionPath s) (actionLoading s) v (commitMessage s) (remoteLoading s)
    (remoteAction s) (branchLoading s) (checkoutLoading s) (branches s)
    (currentBranch s) (branchModalOpen s) (branchQuery s) (diffInstance s)
    (refreshInFlight s) (refreshQueued s) (diffToken s) (pending s) (nextId s)
    (log s).
Definition set_commitMessage v s : State :=
  mkState (propOpen s) (propRepoPath s) (loading s) (loadingDiff s) (error s)
    (status s) (selectedPath s) (diffContainer s) (lastRepoPath s)
    (actionPath s) (actionLoading s) (commitLoading s) v (remoteLoading s)
    (remoteAction s) (branchLoading s) (checkoutLoading s) (branches s)
    (currentBranch s) (branchModalOpen s) (branchQuery s) (diffInstance s)
    (refreshInFlight s) (refreshQueued s) (diffToken s) (pending s) (nextId s)
    (log s).
Definition set_remoteLoading v s : State :=
  mkState (propOpen s) (propRepoPath s) (loading s) (loadingDiff s) (error s)
    (status s) (selectedPath s) (diffContainer s) (lastRepoPath s)
    (actionPath s) (actionLoading s) (commitLoading s) (commitMessage s) v
    (remoteAction s) (branchLoading s) (checkoutLoading s) (branches s)
    (currentBranch s) (branchModalOpen s) (branchQuery s) (diffInstance s)
    (refreshInFlight s) (refreshQueued s) (diffToken s) (pending s) (nextId s)
    (log s).
Definition set_remoteAction v s : State :=
  mkState (propOpen s) (propRepoPath s) (loading s) (loadingDiff s) (error s)
    (status s) (selectedPath s) (diffContainer s) (lastRepoPath s)
    (actionPath s) (actionLoading s) (commitLoading s) (commitMessage s)
    (remoteLoading s) v (branchLoading s) (checkoutLoading s) (branches s)
    (currentBranch s) (branchModalOpen s) (branchQuery s) (diffInstance s)
    (refreshInFlight s) (refreshQueued s) (diffToken s) (pending s) (nextId s)
    (log s).
Definition set_branchLoading v s : State :=
  mkState (propOpen s) (propRepoPath s) (loading s) (loadingDiff s) (error s)
    (status s) (selectedPath s) (diffContainer s) (lastRepoPath s)
    (actionPath s) (actionLoading s) (commitLoading s) (commitMessage s)
    (remoteLoading s) (remoteAction s) v (checkoutLoading s) (branches s)
    (currentBranch s) (branchModalOpen s) (branchQuery s) (diffInstance s)
    (refreshInFlight s) (refreshQueued s) (diffToken s) (pending s) (nextId s)
    (log s).
Definition set_checkoutLoading v s : State :=
  mkState (propOpen s) (propRepoPath s) (loading s) (loadingDiff s) (error s)
    (status s) (selectedPath s) (diffContainer s) (lastRepoPath s)
    (actionPath s) (actionLoading s) (commitLoading s) (commitMessage s)
    (remoteLoading s) (remoteAction s) (branchLoading s) v (branches s)
    (currentBranch s) (branchModalOpen s) (branchQuery s) (diffInstance s)
    (refreshInFlight s) (refreshQueued s) (diffToken s) (pending s) (nextId s)
    (log s).
Definition set_branches v s : State :=
  mkState (propOpen s) (propRepoPath s) (loading s) (loadingDiff s) (error s)
    (status s) (selectedPath s) (diffContainer s) (lastRepoPath s)
    (actionPath s) (actionLoading s) (commitLoading s) (commitMessage s)
    (remoteLoading s) (remoteAction s) (branchLoading s) (checkoutLoading s) v
    (currentBranch s) (branchModalOpen s) (branchQuery s) (diffInstance s)
    (refreshInFlight s) (refreshQueued s) (diffToken s) (pending s) (nextId s)
    (log s).
Definition set_currentBranch v s : State :=
  mkState (propOpen s) (propRepoPath s) (loading s) (loadingDiff s) (error s)
    (status s) (selectedPath s) (diffContainer s) (lastRepoPath s)
    (actionPath s) (actionLoading s) (commitLoading s) (commitMessage s)
    (remoteLoading s) (remoteAction s) (branchLoading s) (checkoutLoading s)
    (branches s) v (branchModalOpen s) (branchQuery s) (diffInstance s)
    (refreshInFlight s) (refreshQueued s) (diffToken s) (pending s) (nextId s)
    (log s).
Definition set_branchModalOpen v s : State :=
  mkState (propOpen s) (propRepoPath s) (loading s) (loadingDiff s) (error s)
    (status s) (selectedPath s) (diffContainer s) (lastRepoPath s)
    (actionPath s) (actionLoading s) (commitLoading s) (commitMessage s)
    (remoteLoading s) (remoteAction s) (branchLoading s) (checkoutLoading s)
    (branches s) (currentBranch s) v (branchQuery s) (diffInstance s)
    (refreshInFlight s) (refreshQueued s) (diffToken s) (pending s) (nextId s)
    (log s).
Definition set_branchQuery v s : State :=
  mkState (propOpen s) (propRepoPath s) (loading s) (loadingDiff s) (error s)
    (status s) (selectedPath s) (diffContainer s) (lastRepoPath s)
    (actionPath s) (actionLoading s) (commitLoading s) (commitMessage s)
    (remoteLoading s) (remoteAction s) (branchLoading s) (checkoutLoading s)
    (branches s) (currentBranch s) (branchModalOpen s) v (diffInstance s)
    (refreshInFlight s) (refreshQueued s) (diffToken s) (pending s) (nextId s)
    (log s).
Definition set_diffInstance v s : State :=
  mkState (propOpen s) (propRepoPath s) (loading s) (loadingDiff s) (error s)
    (status s) (selectedPath s) (diffContainer s) (lastRepoPath s)
    (actionPath s) (actionLoading s) (commitLoading s) (commitMessage s)
    (remoteLoading s) (remoteAction s) (branchLoading s) (checkoutLoading s)
    (branches s) (currentBranch s) (branchModalOpen s) (branchQuery s) v
    (refreshInFlight s) (refreshQueued s) (diffToken s) (pending s) (nextId s)
    (log s).
Definition set_refreshInFlight v s : State :=
  mkState (propOpen s) (propRepoPath s) (loading s) (loadingDiff s) (error s)
    (status s) (selectedPath s) (diffContainer s) (lastRepoPath s)
    (actionPath s) (actionLoading s) (commitLoading s) (commitMessage s)
    (remoteLoading s) (remoteAction s) (branchLoading s) (checkoutLoading s)
    (branches s) (currentBranch s) (branchModalOpen s) (branchQuery s)
    (diffInstance s) v (refreshQueued s) (diffToken s) (pending s) (nextId s)
    (log s).
Definition set_refreshQueued v s : State :=
  mkState (propOpen s) (propRepoPath s) (loading s) (loadingDiff s) (error s)
    (status s) (selectedPath s) (diffContainer s) (lastRepoPath s)
    (actionPath s) (actionLoading s) (commitLoading s) (commitMessage s)
    (remoteLoading s) (remoteAction s) (branchLoading s) (checkoutLoading s)
    (branches s) (currentBranch s) (branchModalOpen s) (branchQuery s)
    (diffInstance s) (refreshInFlight s) v (diffToken s) (pending s)
    (nextId s) (log s).
Definition set_diffToken v s : State :=
  mkState (propOpen s) (propRepoPath s) (loading s) (loadingDiff s) (error s)
    (status s) (selectedPath s) (diffContainer s) (lastRepoPath s)
    (actionPath s) (actionLoading s) (commitLoading s) (commitMessage s)
    (remoteLoading s) (remoteAction s) (branchLoading s) (checkoutLoading s)
    (branches s) (currentBranch s) (branchModalOpen s) (branchQuery s)
    (diffInstance s) (refreshInFlight s) (refreshQueued s) v (pending s)
    (nextId s) (log s).
Definition set_pending v s : State :=
  mkState (propOpen s) (propRepoPath s) (loading s) (loadingDiff s) (error s)
    (status s) (selectedPath s) (diffContainer s) (lastRepoPath s)
    (actionPath s) (actionLoading s) (commitLoading s) (commitMessage s)
    (remoteLoading s) (remoteAction s) (branchLoading s) (checkoutLoading s)
    (branches s) (currentBranch s) (branchModalOpen s) (branchQuery s)
    (diffInstance s) (refreshInFlight s) (refreshQueued s) (diffToken s) v
    (nextId s) (log s).
Definition set_nextId v s : State :=
  mkState (propOpen s) (propRepoPath s) (loading s) (loadingDiff s) (error s)
    (status s) (selectedPath s) (diffContainer s) (lastRepoPath s)
    (actionPath s) (actionLoading s) (commitLoading s) (commitMessage s)
    (remoteLoading s) (remoteAction s) (branchLoading s) (checkoutLoading s)
    (branches s) (currentBranch s) (branchModalOpen s) (branchQuery s)
    (diffInstance s) (refreshInFlight s) (refreshQueued s) (diffToken s)
    (pending s) v (log s).
Definition set_log v s : State :=
  mkState (propOpen s) (propRepoPath s) (loading s) (loadingDiff s) (error s)
    (status s) (selectedPath s) (diffContainer s) (lastRepoPath s)
    (actionPath s) (actionLoading s) (commitLoading s) (commitMessage s)
    (remoteLoading s) (remoteAction s) (branchLoading s) (checkoutLoading s)
    (branches s) (currentBranch s) (branchModalOpen s) (branchQuery s)
    (diffInstance s) (refreshInFlight s) (refreshQueued s) (diffToken s)
    (pending s) (nextId s) v.
(** ** GitPanel.vue: computed values, rendering and handlers *)

(** [invoke(command, args)]: the call is recorded and its continuation parked
    under a fresh promise id. *)
Definition invoke (command : Command) (k : Continuation) (s : State) : State :=
  set_log (log s ++ [command])
    (set_nextId (S (nextId s))
       (set_pending (<[nextId s := k]> (pending s)) s)).

Definition changesOf (s : State) : list GitChange :=
  match status s with
  | Some current => status_changes current
  | None => []
  end.

Definition stagedCount (s : State) : nat :=
  length (List.filter change_staged (changesOf s)).

Definition unstagedChanges (s : State) : list GitChange :=
  List.filter (fun change => change_unstaged change || change_untracked change)
    (changesOf s).

Definition commitDisabledReason (s : State) : option string :=
  if commitLoading s then Some "Committing changes"
  else if Nat.eqb (stagedCount s) 0 then Some "Stage files before commit"
  else if Nat.eqb (String.length (Js.trim (commitMessage s))) 0
       then Some "Enter a commit message"
  else None.

Definition canCommit (s : State) : bool :=
  match commitDisabledReason s with
  | None => true
  | Some _ => false
  end.

Definition renderEmpty (message : string) (s : State) : State :=
  match diffContainer s with
  | None => s
  | Some _ => set_diffContainer (Some (TextContent message)) s
  end.

Definition renderDiffFromPatch (lib : DiffLibrary) (patch : string) (s : State)
  : State :=
  match diffContainer s with
  | None => s
  | Some _ =>
      if negb (diffInstance s) then s
      else if String.eqb (Js.trim patch) "" then renderEmpty "No diff" s
      else
        match parsePatchFiles lib patch with
        | ParseThrows => renderEmpty "Cannot render diff" s
        | Parsed None => renderEmpty "Cannot parse diff" s
        | Parsed (Some fileDiff) =>
            if renderThrows lib fileDiff
            then renderEmpty "Cannot render diff" s
            else set_diffContainer (Some (FileDiffView fileDiff)) s
        end
  end.

(** What the caller of [await refresh()] does once the promise resolves
    ([refresh] never rejects): the rest of its [try] block and its [finally]. *)
Definition resumeCaller (caller : RefreshCaller) (s : State) : State :=
  match caller with
  | Detached => s
  | ActionCaller => set_actionPath None (set_actionLoading false s)
  | CommitCaller => set_commitLoading false s
  | RemoteCaller => set_remoteAction None (set_remoteLoading false s)
  | CheckoutCaller =>
      set_checkoutLoading false
        (set_branchQuery "" (set_branchModalOpen false s))
  end.

(** [refresh()], up to its first [await]. *)
Definition refresh (caller : RefreshCaller) (s : State) : State :=
  if refreshInFlight s then resumeCaller caller (set_refreshQueued true s)
  else
    let s1 := set_error None (set_loading true (set_refreshInFlight true s)) in
    let effectiveRepoPath := Js.orElse (propRepoPath s1) (lastRepoPath s1) in
    invoke (git_status effectiveRepoPath) (RefreshAwaitsStatus caller) s1.

(** The [finally] block of [refresh], then its caller. *)
Definition refreshFinally (caller : RefreshCaller) (s : State) : State :=
  let s1 := set_refreshInFlight false (set_loading false s) in
  let s2 :=
    if refreshQueued s1 then refresh Detached (set_refreshQueued false s1)
    else s1 in
  resumeCaller caller s2.

(** Where control goes when a [loadDiff()] promise resolves. *)
Definition afterLoadDiff (caller : DiffCaller) (s : State) : State :=
  match caller with
  | DiffDetached => s
  | DiffInRefresh refreshCaller => refreshFinally refreshCaller s
  end.

(** [loadDiff(path)], up to its [await]. *)
Definition loadDiff (caller : DiffCaller) (path : string) (s : State) : State :=
  match status s with
  | None => afterLoadDiff caller s
  | Some current =>
      match
        List.find (fun change => String.eqb (change_path change) path)
          (status_changes current)
      with
      | None => afterLoadDiff caller s
      | Some target =>
          if negb (Js.truthy (Some (status_repoPath current)))
          then afterLoadDiff caller s
          else
            let currentDiffToken := Js.increment (diffToken s) in
            let s1 := set_loadingDiff true (set_diffToken currentDiffToken s) in
            invoke
              (git_diff (status_repoPath current) (change_path target) false
                 (change_untracked target))
              (LoadDiffAwaitsDiff currentDiffToken caller) s1
      end
  end.

(** [loadDiff] after its [await]: the token check, the rendering and the
    [finally] block. *)
Definition loadDiffSettled (lib : DiffLibrary) (currentDiffToken : Z)
    (caller : DiffCaller) (result : Js.Settled string) (s : State) : State :=
  if negb (Z.eqb currentDiffToken (diffToken s)) then afterLoadDiff caller s
  else
    let s1 :=
      match result with
      | Js.Resolved patch => renderDiffFromPatch lib patch s
      | Js.Rejected _ => renderEmpty "Failed to load diff" s
      end in
    afterLoadDiff caller (set_loadingDiff false s1).

(** [loadBranches(repoPath)], up to its [await]. *)
Definition loadBranches (repoPath : string) (k : Continuation) (s : State)
  : State :=
  invoke (git_branches repoPath) k (set_branchLoading true s).

(** [loadBranches] after its [await]. *)
Definition loadBranchesSettled (result : Js.Settled GitBranchesResponse)
    (s : State) : State :=
  let s1 :=
    match result with
    | Js.Resolved response =>
        set_currentBranch (response_current response)
          (set_branches (response_branches response) s)
    | Js.Rejected _ => set_currentBranch "" (set_branches [] s)
    end in
  set_branchLoading false s1.

(** [refresh] after [await invoke("git_status")] resolved. *)
Definition refreshStatusResolved (nextStatus : GitStatusResponse)
    (caller : RefreshCaller) (s : State) : State :=
  let s1 :=
    set_lastRepoPath (Some (status_repoPath nextStatus))
      (set_status (Some nextStatus) s) in
  loadBranches (status_repoPath nextStatus)
    (RefreshAwaitsBranches nextStatus caller) s1.

(** [refresh] when [await invoke("git_status")] rejected: the [catch]. *)
Definition refreshStatusRejected (e : Js.Thrown) (caller : RefreshCaller)
    (s : State) : State :=
  let message := Js.messageOr "Failed to load git status" e in
  refreshFinally caller (renderEmpty message (set_error (Some message) s)).

(** [refresh] after [await loadBranches(...)]: the selection, the diff. *)
Definition refreshAfterBranches (nextStatus : GitStatusResponse)
    (caller : RefreshCaller) (s : State) : State :=
  if Nat.eqb (length (status_changes nextStatus)) 0 then
    refreshFinally caller
      (renderEmpty "Working tree clean" (set_selectedPath None s))
  else
    let stillSelected :=
      existsb
        (fun change => Js.sameString (Some (change_path change)) (selectedPath s))
        (status_changes nextStatus) in
    let s1 :=
      set_selectedPath
        (if stillSelected then selectedPath s
         else option_map change_path (head (status_changes nextStatus)))
        s in
    match selectedPath s1 with
    | Some path =>
        if Js.truthy (Some path) then loadDiff (DiffInRefresh caller) path s1
        else refreshFinally caller s1
    | None => refreshFinally caller s1
    end.

Definition pickFile (path : string) (s : State) : State :=
  loadDiff DiffDetached path (set_selectedPath (Some path) s).

Definition activeRepoPath (s : State) : option string :=
  Js.orElse (option_map status_repoPath (status s)) (lastRepoPath s).

(** [stageFile] and [unstageFile] differ in the command and the message. *)
Definition fileAction (command : string -> string -> Command)
    (fallback : string) (path : string) (s : State) : State :=
  match activeRepoPath s with
  | Some repoPath =>
      if negb (Js.truthy (Some repoPath)) then s
      else
        invoke (command repoPath path) (ActionAwaitsInvoke fallback)
          (set_error None (set_actionLoading true (set_actionPath (Some path) s)))
  | None => s
  end.

Definition stageFile : string -> State -> State :=
  fileAction git_stage "Failed to stage file".

Definition unstageFile : string -> State -> State :=
  fileAction git_unstage "Failed to unstage file".

Definition stageAllUnstaged (s : State) : State :=
  match activeRepoPath s with
  | Some repoPath =>
      if negb (Js.truthy (Some repoPath)) || actionLoading s
         || Nat.eqb (length (unstagedChanges s)) 0
      then s
      else
        invoke (git_stage_all repoPath)
          (ActionAwaitsInvoke "Failed to stage all changes")
          (set_error None
             (set_actionLoading true (set_actionPath (Some "__all__") s)))
  | None => s
  end.

Definition commitChanges (amend : bool) (s : State) : State :=
  if negb (canCommit s) then s
  else
    match activeRepoPath s with
    | Some repoPath =>
        if negb (Js.truthy (Some repoPath)) then s
        else
          invoke (git_commit repoPath (Js.trim (commitMessage s)) amend)
            CommitAwaitsInvoke
            (set_error None (set_commitLoading true s))
    | None => s
    end.

Definition runRemoteAction (action : RemoteAction) (s : State) : State :=
  match activeRepoPath s with
  | Some repoPath =>
      if negb (Js.truthy (Some repoPath)) || remoteLoading s then s
      else
        invoke (git_remote action repoPath) (RemoteAwaitsInvoke action)
          (set_error None
             (set_remoteAction (Some action) (set_remoteLoading true s)))
  | None => s
  end.

Definition switchBranch (branch : string) (s : State) : State :=
  let target := Js.trim branch in
  if negb (Js.truthy (activeRepoPath s)) || negb (Js.truthy (Some target))
     || checkoutLoading s
  then s
  else if String.eqb target (currentBranch s) then s
  else
    match activeRepoPath s with
    | Some repoPath =>
        invoke (git_checkout repoPath target) CheckoutAwaitsInvoke
          (set_error None (set_checkoutLoading true s))
    | None => s
    end.

(** [onMounted]: the template ref is bound, the diff instance created, the
    container emptied and the first refresh started. *)
Definition onMounted (s : State) : State :=
  refresh Detached
    (renderEmpty ""
       (set_diffInstance true (set_diffContainer (Some (TextContent "")) s))).

(** Unmounting: [diffInstance.cleanUp()], and the template ref is unbound. *)
Definition onUnmounted (s : State) : State := set_diffContainer None s.

(** [watch(() => props.open, ...)]; a watcher runs only when the value
    changed. *)
Definition openChanged (isOpen : bool) (s : State) : State :=
  if Bool.eqb isOpen (propOpen s) then s
  else
    let s1 := set_propOpen isOpen s in
    if negb isOpen then s1
    else
      match status s1 with
      | None => refresh Detached s1
      | Some _ =>
          match selectedPath s1 with
          | Some path =>
              if Js.truthy (Some path) then loadDiff DiffDetached path s1 else s1
          | None => s1
          end
      end.

(** [watch(() => props.repoPath, ...)] *)
Definition repoPathChanged (nextPath : option string) (s : State) : State :=
  if Js.sameString nextPath (propRepoPath s) then s
  else
    let s1 := set_propRepoPath nextPath s in
    let s2 := if Js.truthy nextPath then set_lastRepoPath nextPath s1 else s1 in
    if negb (propOpen s2) then s2
    else if negb (Js.truthy nextPath) && negb (Js.truthy (lastRepoPath s2))
    then s2
    else refresh Detached s2.

(** The continuation [k] resumed with the settled promise. [None]: the value
    is not one the awaited command produces. *)
Definition resume (lib : DiffLibrary) (k : Continuation)
    (result : Js.Settled Response) (s : State) : option State :=
  match k, result with
  | RefreshAwaitsStatus caller, Js.Resolved (StatusValue nextStatus) =>
      Some (refreshStatusResolved nextStatus caller s)
  | RefreshAwaitsStatus caller, Js.Rejected e =>
      Some (refreshStatusRejected e caller s)
  | RefreshAwaitsBranches nextStatus caller, Js.Resolved (BranchesValue response) =>
      Some (refreshAfterBranches nextStatus caller
              (loadBranchesSettled (Js.Resolved response) s))
  | RefreshAwaitsBranches nextStatus caller, Js.Rejected e =>
      Some (refreshAfterBranches nextStatus caller
              (loadBranchesSettled (Js.Rejected e) s))
  | LoadDiffAwaitsDiff token caller, Js.Resolved (PatchValue patch) =>
      Some (loadDiffSettled lib token caller (Js.Resolved patch) s)
  | LoadDiffAwaitsDiff token caller, Js.Rejected e =>
      Some (loadDiffSettled lib token caller (Js.Rejected e) s)
  | ActionAwaitsInvoke fallback, Js.Resolved NoValue =>
      Some (refresh ActionCaller s)
  | ActionAwaitsInvoke fallback, Js.Rejected e =>
      Some (set_actionPath None
              (set_actionLoading false
                 (set_error (Some (Js.messageOr fallback e)) s)))
  | CommitAwaitsInvoke, Js.Resolved NoValue =>
      Some (refresh CommitCaller (set_commitMessage "" s))
  | CommitAwaitsInvoke, Js.Rejected e =>
      Some (set_commitLoading false
              (set_error (Some (Js.messageOr "Failed to commit" e)) s))
  | RemoteAwaitsInvoke action, Js.Resolved NoValue =>
      Some (refresh RemoteCaller s)
  | RemoteAwaitsInvoke action, Js.Rejected e =>
      Some (set_remoteAction None
              (set_remoteLoading false
                 (set_error
                    (Some (Js.messageOr ("Failed to " +:+ actionName action) e))
                    s)))
  | CheckoutAwaitsInvoke, Js.Resolved NoValue =>
      Some (refresh CheckoutCaller s)
  | CheckoutAwaitsInvoke, Js.Rejected e =>
      Some (set_checkoutLoading false
              (set_error (Some (Js.messageOr "Failed to switch branch" e)) s))
  | _, _ => None
  end.

(** The promise [id] settles. *)
Definition settle (lib : DiffLibrary) (id : nat) (result : Js.Settled Response)
    (s : State) : State :=
  match pending s !! id with
  | None => s
  | Some k =>
      match resume lib k result (set_pending (delete id (pending s)) s) with
      | Some s' => s'
      | None => s
      end
  end.

(** What can happen to the panel. *)
Inductive Event :=
| Mounted
| Unmounted
| OpenChanged (isOpen : bool)
| RepoPathChanged (nextPath : option string)
| Refresh
| PickFile (path : string)
| StageFile (path : string)
| UnstageFile (path : string)
| StageAllUnstaged
| CommitMessageInput (text : string)
| CommitChanges (amend : bool)
| RunRemoteAction (action : RemoteAction)
| BranchModalOpenChanged (isOpen : bool)
| BranchQueryInput (text : string)
| SwitchBranch (branch : string)
| Settle (id : nat) (result : Js.Settled Response).

Definition step (lib : DiffLibrary) (s : State) (e : Event) : State :=
  match e with
  | Mounted => onMounted s
  | Unmounted => onUnmounted s
  | OpenChanged isOpen => openChanged isOpen s
  | RepoPathChanged nextPath => repoPathChanged nextPath s
  | Refresh => refresh Detached s
  | PickFile path => pickFile path s
  | StageFile path => stageFile path s
  | UnstageFile path => unstageFile path s
  | StageAllUnstaged => stageAllUnstaged s
  | CommitMessageInput text => set_commitMessage text s
  | CommitChanges amend => commitChanges amend s
  | RunRemoteAction action => runRemoteAction action s
  | BranchModalOpenChanged isOpen => set_branchModalOpen isOpen s
  | BranchQueryInput text => set_branchQuery text s
  | SwitchBranch branch => switchBranch branch s
  | Settle id result => settle lib id result s
  end.

Definition run (lib : DiffLibrary) (s : State) (events : list Event) : State :=
  fold_left (step lib) events s.

(** How many times [git_status] was invoked. *)
Definition isStatusCall (command : Command) : bool :=
  match command with
  | git_status _ => true
  | _ => false
  end.

Definition isBranchesCall (command : Command) : bool :=
  match command with
  | git_branches _ => true
  | _ => false
  end.

Definition isCommitCall (command : Command) : bool :=
  match command with
  | git_commit _ _ _ => true
  | _ => false
  end.

Definition isCheckoutCall (command : Command) : bool :=
  match command with
  | git_checkout _ _ => true
  | _ => false
  end.

Definition calls (which : Command -> bool) (s : State) : nat :=
  length (List.filter which (log s)).

(** ** GitPanel.vue: vocabulary of the properties *)

(** What a promise of [invoke("git_branches")], of [invoke("git_diff")]
    settles with. *)
Definition branchesResult (result : Js.Settled GitBranchesResponse)
  : Js.Settled Response :=
  match result with
  | Js.Resolved response => Js.Resolved (BranchesValue response)
  | Js.Rejected e => Js.Rejected e
  end.

Definition diffResult (result : Js.Settled string) : Js.Settled Response :=
  match result with
  | Js.Resolved patch => Js.Resolved (PatchValue patch)
  | Js.Rejected e => Js.Rejected e
  end.

(** The change a [loadDiff(path)] would ask the backend about, if any. *)
Definition diffTarget (path : string) (s : State) : option GitChange :=
  match status s with
  | Some current =>
      if Js.truthy (Some (status_repoPath current)) then
        List.find (fun change => String.eqb (change_path change) path)
          (status_changes current)
      else None
  | None => None
  end.

(** What the container shows for a diff result, once rendered. *)
Definition shown (lib : DiffLibrary) (result : Js.Settled string) : DiffView :=
  match result with
  | Js.Resolved patch =>
      if String.eqb (Js.trim patch) "" then TextContent "No diff"
      else
        match parsePatchFiles lib patch with
        | ParseThrows => TextContent "Cannot render diff"
        | Parsed None => TextContent "Cannot parse diff"
        | Parsed (Some fileDiff) =>
            if renderThrows lib fileDiff then TextContent "Cannot render diff"
            else FileDiffView fileDiff
        end
  | Js.Rejected _ => TextContent "Failed to load diff"
  end.

(** The path [refresh] selects once the branches are loaded, given the
    selection it finds. *)
Definition chosen (nextStatus : GitStatusResponse) (previous : option string)
  : option string :=
  match status_changes nextStatus with
  | [] => None
  | first :: _ =>
      if existsb
           (fun change => Js.sameString (Some (change_path change)) previous)
           (status_changes nextStatus)
      then previous
      else Some (change_path first)
  end.

Definition isRefresh (e : Event) : bool :=
  match e with
  | Refresh => true
  | _ => false
  end.

(** The cycle that made status call number [S before] is in flight. *)
Definition firstInFlight (before : nat) (s : State) : bool :=
  refreshInFlight s && Nat.eqb (calls isStatusCall s) (S before).

(** What may follow the first [refresh()] of a burst: further [refresh()]
    calls, each arriving while the first cycle is in flight, and promises
    settling. *)
Definition allowed (before : nat) (s : State) (e : Event) : bool :=
  match e with
  | Refresh => firstInFlight before s
  | Settle _ _ => true
  | _ => false
  end.

Fixpoint burst (lib : DiffLibrary) (before : nat) (s : State)
    (events : list Event) : bool :=
  match events with
  | [] => true
  | e :: rest => allowed before s e && burst lib before (step lib s e) rest
  end.

(** The continuations of a refresh nobody awaits. *)
Definition isCycle (k : Continuation) : bool :=
  match k with
  | RefreshAwaitsStatus Detached
  | RefreshAwaitsBranches _ Detached
  | LoadDiffAwaitsDiff _ (DiffInRefresh Detached) => true
  | _ => false
  end.

(** How the coordinator moves when a promise settles during such a refresh:
    not at all, on to the next [await], to the end, or to the end and into
    the queued follow-up. *)
Inductive Move (s s' : State) : Prop :=
| Stays : s' = s -> Move s s'
| GoesOn (k' : Continuation) :
    isCycle k' = true ->
    k' <> RefreshAwaitsStatus Detached ->
    pending s' = {[nextId s := k']} ->
    refreshInFlight s' = true ->
    refreshQueued s' = refreshQueued s ->
    calls isStatusCall s' = calls isStatusCall s ->
    Move s s'
| Ends :
    refreshQueued s = false ->
    pending s' = ∅ ->
    refreshInFlight s' = false ->
    refreshQueued s' = false ->
    calls isStatusCall s' = calls isStatusCall s ->
    Move s s'
| Restarts :
    refreshQueued s = true ->
    pending s' = {[nextId s := RefreshAwaitsStatus Detached]} ->
    refreshInFlight s' = true ->
    refreshQueued s' = false ->
    calls isStatusCall s' = S (calls isStatusCall s) ->
    Move s s'.

(** One cycle is in flight, parked on a single promise. *)
Definition Cycling (s : State) : Prop :=
  refreshInFlight s = true
  /\ exists id k, pending s = {[id := k]} /\ isCycle k = true.

Definition Quiet (s : State) : Prop :=
  refreshInFlight s = false /\ refreshQueued s = false /\ pending s = ∅.

(** Where a burst stands: the first cycle in flight (queued behind or not),
    the follow-up in flight, all over after the follow-up, or all over
    without one. [seen] tells whether a further [refresh()] has arrived. *)
Definition Tracked (before : nat) (seen : bool) (s : State) : Prop :=
  (Cycling s /\ calls isStatusCall s = S before /\ refreshQueued s = seen)
  \/ (seen = true /\ Cycling s /\ calls isStatusCall s = S (S before)
      /\ refreshQueued s = false)
  \/ (seen = true /\ Quiet s /\ calls isStatusCall s = S (S before))
  \/ (seen = false /\ Quiet s /\ calls isStatusCall s = S before).

(** The follow-up's status has arrived: [fetched] is what the panel shows
    and nothing queued can replace it. *)
Definition Delivered (before : nat) (fetched : GitStatusResponse) (s : State)
  : Prop :=
  status s = Some fetched
  /\ calls isStatusCall s = S (S before)
  /\ refreshQueued s = false
  /\ (pending s = ∅
      \/ exists id k,
           pending s = {[id := k]} /\ isCycle k = true
           /\ k <> RefreshAwaitsStatus Detached /\ refreshInFlight s = true).

(** A library that parses every patch into one file and renders it. *)
Definition plainLibrary : DiffLibrary :=
  mkDiffLibrary (fun patch => Parsed (Some patch)) (fun _ => false).

(** A repository with one modified file, nothing staged, and the same with
    the file staged. *)
Definition oneModified : GitStatusResponse :=
  mkGitStatusResponse "/repo" "main" 0 0
    [mkGitChange "a.txt" "M" false true false].

Definition oneStaged : GitStatusResponse :=
  mkGitStatusResponse "/repo" "main" 0 0
    [mkGitChange "a.txt" "M" true false false].

Definition twoModified : GitStatusResponse :=
  mkGitStatusResponse "/repo" "main" 0 0
    [mkGitChange "a.txt" "M" false true false;
     mkGitChange "b.txt" "??" false false true].

Definition branchesMain : GitBranchesResponse :=
  mkGitBranchesResponse "main" ["main"; "dev"].

(** A mounted, idle panel showing [current] on branch [main], with
    [message] typed into the commit box. *)
Definition showing (current : GitStatusResponse) (message : string) : State :=
  mkState true (Some "/repo") false false None (Some current) (Some "a.txt")
    (Some (TextContent "")) (Some "/repo") None false false message false None
    false false ["main"; "dev"] "main" false "" true false false 0 ∅ 0 [].

(** A burst: three further [refresh()] calls while the first cycle runs its
    status, branches and diff calls (promises 0, 1, 2), then the follow-up
    (promises 3, 4, 5), whose status call returns [twoModified]. *)
Definition burstEvents : list Event :=
  [Refresh;
   Settle 0 (Js.Resolved (StatusValue oneStaged));
   Refresh;
   Settle 1 (Js.Resolved (BranchesValue branchesMain));
   Refresh;
   Settle 2 (Js.Resolved (PatchValue "patch of a.txt"));
   Settle 3 (Js.Resolved (StatusValue twoModified));
   Settle 4 (Js.Resolved (BranchesValue branchesMain));
   Settle 5 (Js.Resolved (PatchValue "patch of a.txt"))].

(** The same burst with all further calls at once and a follow-up whose
    status call fails. *)
Definition failingBurstEvents : list Event :=
  [Refresh; Refresh; Refresh;
   Settle 0 (Js.Resolved (StatusValue oneStaged));
   Settle 1 (Js.Resolved (BranchesValue branchesMain));
   Settle 2 (Js.Resolved (PatchValue "patch of a.txt"));
   Settle 3 (Js.Rejected Js.OtherValue)].

(** ** GitPanel.vue: further vocabulary *)

(** The continuations of a refresh cycle, whoever awaits it. *)
Definition inRefresh (k : Continuation) : bool :=
  match k with
  | RefreshAwaitsStatus _
  | RefreshAwaitsBranches _ _
  | LoadDiffAwaitsDiff _ (DiffInRefresh _) => true
  | _ => false
  end.

(** No refresh cycle is parked in [m]; exactly one is. *)
Definition NoRefresh (m : gmap nat Continuation) : Prop :=
  forall id k, m !! id = Some k -> inRefresh k = false.

Definition OneRefresh (m : gmap nat Continuation) : Prop :=
  exists id k,
    m !! id = Some k /\ inRefresh k = true
    /\ forall id' k', m !! id' = Some k' -> inRefresh k' = true -> id' = id.

(** Promise ids in use are below [n]. *)
Definition FreshFrom (n : nat) (m : gmap nat Continuation) : Prop :=
  forall id k, m !! id = Some k -> id < n.

(** The busy indicators of the panel. *)
Inductive Indicator :=
| ActionBusy
| CommitBusy
| RemoteBusy
| CheckoutBusy
| DiffBusy
| BranchesBusy.

Definition isOn (i : Indicator) (s : State) : bool :=
  match i with
  | ActionBusy => actionLoading s
  | CommitBusy => commitLoading s
  | RemoteBusy => remoteLoading s
  | CheckoutBusy => checkoutLoading s
  | DiffBusy => loadingDiff s
  | BranchesBusy => branchLoading s
  end.

(** The handler whose [finally] block runs when the continuation is done:
    the one that made the call, or the one awaiting the refresh. *)
Definition awaitedBy (k : Continuation) : RefreshCaller :=
  match k with
  | RefreshAwaitsStatus caller => caller
  | RefreshAwaitsBranches _ caller => caller
  | LoadDiffAwaitsDiff _ (DiffInRefresh caller) => caller
  | LoadDiffAwaitsDiff _ DiffDetached => Detached
  | ActionAwaitsInvoke _ => ActionCaller
  | CommitAwaitsInvoke => CommitCaller
  | RemoteAwaitsInvoke _ => RemoteCaller
  | CheckoutAwaitsInvoke => CheckoutCaller
  end.

(** The outstanding call [k] is one that turns indicator [i] off when it is
    done; for the diff indicator, the call of the latest request, whose
    token is [token]. *)
Definition backs (i : Indicator) (token : Z) (k : Continuation) : bool :=
  match i with
  | ActionBusy =>
      match awaitedBy k with
      | ActionCaller => true
      | _ => false
      end
  | CommitBusy =>
      match awaitedBy k with
      | CommitCaller => true
      | _ => false
      end
  | RemoteBusy =>
      match awaitedBy k with
      | RemoteCaller => true
      | _ => false
      end
  | CheckoutBusy =>
      match awaitedBy k with
      | CheckoutCaller => true
      | _ => false
      end
  | DiffBusy =>
      match k with
      | LoadDiffAwaitsDiff t _ => Z.eqb t token
      | _ => false
      end
  | BranchesBusy =>
      match k with
      | RefreshAwaitsBranches _ _ => true
      | _ => false
      end
  end.

Definition Backed (s : State) : Prop :=
  forall i, isOn i s = true ->
            exists id k, pending s !! id = Some k
                         /\ backs i (diffToken s) k = true.

Definition FlightInv (s : State) : Prop :=
  loading s = refreshInFlight s
  /\ (refreshQueued s = true -> refreshInFlight s = true)
  /\ FreshFrom (nextId s) (pending s)
  /\ (if refreshInFlight s then OneRefresh (pending s)
      else NoRefresh (pending s))
  /\ Backed s.

(** What the handlers check before they call the backend: a command that
    changes the repository, or asks for a diff, names a repository; a commit
    has a message and a checkout a branch; diffs are of the working tree. *)
Definition sound (command : Command) : bool :=
  match command with
  | git_status _ | git_branches _ => true
  | git_diff repoPath _ staged _ => Js.truthy (Some repoPath) && negb staged
  | git_stage repoPath _ | git_unstage repoPath _ | git_stage_all repoPath
  | git_remote _ repoPath => Js.truthy (Some repoPath)
  | git_commit repoPath message _ =>
      Js.truthy (Some repoPath) && Js.truthy (Some message)
  | git_checkout repoPath branch =>
      Js.truthy (Some repoPath) && Js.truthy (Some branch)
  end.

(** The token of an outstanding diff request. *)
Definition tokenOf (k : Continuation) : option Z :=
  match k with
  | LoadDiffAwaitsDiff token _ => Some token
  | _ => None
  end.

(** Tokens are handed out in increasing order: every outstanding request
    has a token between 1 and the current one, and two requests share a
    token only where [++diffToken] is no longer exact. *)
Definition TokenInv (s : State) : Prop :=
  (0 <= diffToken s <= Js.maxExactInteger)%Z
  /\ (forall id k token,
        pending s !! id = Some k -> tokenOf k = Some token ->
        (1 <= token <= diffToken s)%Z)
  /\ (forall id id' k k' token,
        pending s !! id = Some k -> pending s !! id' = Some k' ->
        tokenOf k = Some token -> tokenOf k' = Some token ->
        id = id' \/ token = Js.maxExactInteger).

Definition isMounted (e : Event) : bool :=
  match e with
  | Mounted => true
  | _ => false
  end.

End GitPanel.

(** ** TerminalPane.vue *)

Module TerminalPane.

Definition DEFAULT_FONT_SIZE : Z := 16.
Definition MIN_FONT_SIZE : Z := 10.
Definition MAX_FONT_SIZE : Z := 32.

Definition CRLF : string := String (Ascii.ascii_of_nat 13) (String (Ascii.ascii_of_nat 10) EmptyString).

(** The terminal emulator ([ghostty-web]), as far as the pane drives it:
    its size, its font size, everything written to it in order, and whether
    it was opened, focused and disposed. *)
Record Terminal := mkTerminal {
  cols : Z;
  rows : Z;
  fontSize : Z;
  opened : bool;
  written : list string;
  focused : bool;
  disposed : bool
}.

Definition write (data : string) (t : Terminal) : Terminal :=
  mkTerminal (cols t) (rows t) (fontSize t) (opened t) (written t ++ [data])
    (focused t) (disposed t).

Definition writeln (data : string) (t : Terminal) : Terminal :=
  write (data +:+ CRLF) t.

Definition withSize (c r : Z) (t : Terminal) : Terminal :=
  mkTerminal c r (fontSize t) (opened t) (written t) (focused t) (disposed t).

Definition withFontSize (size : Z) (t : Terminal) : Terminal :=
  mkTerminal (cols t) (rows t) size (opened t) (written t) (focused t)
    (disposed t).

Definition focus (t : Terminal) : Terminal :=
  mkTerminal (cols t) (rows t) (fontSize t) (opened t) (written t) true
    (disposed t).

Definition dispose (t : Terminal) : Terminal :=
  mkTerminal (cols t) (rows t) (fontSize t) (opened t) (written t) (focused t)
    true.

Inductive Command :=
| open_terminal (tabId : string)
| write_terminal (tabId data : string)
| resize_terminal (tabId : string) (cols rows : Z)
| close_terminal (tabId : string).

Inductive Emitted :=
| session_meta (tabId shell : string)
| session_title (tabId title : string).

(** Payloads of the two push events. *)
Record DataPayload := mkDataPayload { data_tabId : string; data_data : string }.
Record ExitPayload := mkExitPayload { exit_tabId : string }.

(** Where the asynchronous [onMounted] hook stands. *)
Inductive MountStage :=
| NotMounted
| AwaitsGhostty
| AwaitsListenData
| AwaitsListenExit
| AwaitsOpen
| MountDone.

Record State := mkState {
  (* props *)
  propTabId : string;
  propActive : bool;
  (* ref and let variables *)
  root : bool;
  terminal : option Terminal;
  fitAddon : bool;
  observing : bool;
  unlistenData : bool;
  unlistenExit : bool;
  (* listeners registered with the event system *)
  listeningData : bool;
  listeningExit : bool;
  (* the debounce timer and the window's timeouts set by this pane, each
     with the size its callback captured *)
  resizeDebounce : option nat;
  timeouts : gmap nat (Z * Z);
  nextTimer : nat;
  (* life cycle *)
  stage : MountStage;
  unmounted : bool;
  (* calls to the backend and events emitted to the parent *)
  log : list Command;
  emitted : list Emitted
}.

Definition initial (tabId : string) (active : bool) : State :=
  mkState tabId active false None false false false false false false None ∅ 0
    NotMounted false [] [].

Definition set_propTabId v s : State :=
  mkState v (propActive s) (root s) (terminal s) (fitAddon s) (observing s)
    (unlistenData s) (unlistenExit s) (listeningData s) (listeningExit s)
    (resizeDebounce s) (timeouts s) (nextTimer s) (stage s) (unmounted s)
    (log s) (emitted s).
Definition set_propActive v s : State :=
  mkState (propTabId s) v (root s) (terminal s) (fitAddon s) (observing s)
    (unlistenData s) (unlistenExit s) (listeningData s) (listeningExit s)
    (resizeDebounce s) (timeouts s) (nextTimer s) (stage s) (unmounted s)
    (log s) (emitted s).
Definition set_root v s : State :=
  mkState (propTabId s) (propActive s) v (terminal s) (fitAddon s)
    (observing s) (unlistenData s) (unlistenExit s) (listeningData s)
    (listeningExit s) (resizeDebounce s) (timeouts s) (nextTimer s) (stage s)
    (unmounted s) (log s) (emitted s).
Definition set_terminal v s : State :=
  mkState (propTabId s) (propActive s) (root s) v (fitAddon s) (observing s)
    (unlistenData s) (unlistenExit s) (listeningData s) (listeningExit s)
    (resizeDebounce s) (timeouts s) (nextTimer s) (stage s) (unmounted s)
    (log s) (emitted s).
Definition set_fitAddon v s : State :=
  mkState (propTabId s) (propActive s) (root s) (terminal s) v (observing s)
    (unlistenData s) (unlistenExit s) (listeningData s) (listeningExit s)
    (resizeDebounce s) (timeouts s) (nextTimer s) (stage s) (unmounted s)
    (log s) (emitted s).
Definition set_observing v s : State :=
  mkState (propTabId s) (propActive s) (root s) (terminal s) (fitAddon s) v
    (unlistenData s) (unlistenExit s) (listeningData s) (listeningExit s)
    (resizeDebounce s) (timeouts s) (nextTimer s) (stage s) (unmounted s)
    (log s) (emitted s).
Definition set_unlistenData v s : State :=
  mkState (propTabId s) (propActive s) (root s) (terminal s) (fitAddon s)
    (observing s) v (unlistenExit s) (listeningData s) (listeningExit s)
    (resizeDebounce s) (timeouts s) (nextTimer s) (stage s) (unmounted s)
    (log s) (emitted s).
Definition set_unlistenExit v s : State :=
  mkState (propTabId s) (propActive s) (root s) (terminal s) (fitAddon s)
    (observing s) (unlistenData s) v (listeningData s) (listeningExit s)
    (resizeDebounce s) (timeouts s) (nextTimer s) (stage s) (unmounted s)
    (log s) (emitted s).
Definition set_listeningData v s : State :=
  mkState (propTabId s) (propActive s) (root s) (terminal s) (fitAddon s)
    (observing s) (unlistenData s) (unlistenExit s) v (listeningExit s)
    (resizeDebounce s) (timeouts s) (nextTimer s) (stage s) (unmounted s)
    (log s) (emitted s).
Definition set_listeningExit v s : State :=
  mkState (propTabId s) (propActive s) (root s) (terminal s) (fitAddon s)
    (observing s) (unlistenData s) (unlistenExit s) (listeningData s) v
    (resizeDebounce s) (timeouts s) (nextTimer s) (stage s) (unmounted s)
    (log s) (emitted s).
Definition set_resizeDebounce v s : State :=
  mkState (propTabId s) (propActive s) (root s) (terminal s) (fitAddon s)
    (observing s) (unlistenData s) (unlistenExit s) (listeningData s)
    (listeningExit s) v (timeouts s) (nextTimer s) (stage s) (unmounted s)
    (log s) (emitted s).
Definition set_timeouts v s : State :=
  mkState (propTabId s) (propActive s) (root s) (terminal s) (fitAddon s)
    (observing s) (unlistenData s) (unlistenExit s) (listeningData s)
    (listeningExit s) (resizeDebounce s) v (nextTimer s) (stage s)
    (unmounted s) (log s) (emitted s).
Definition set_nextTimer v s : State :=
  mkState (propTabId s) (propActive s) (root s) (terminal s) (fitAddon s)
    (observing s) (unlistenData s) (unlistenExit s) (listeningData s)
    (listeningExit s) (resizeDebounce s) (timeouts s) v (stage s)
    (unmounted s) (log s) (emitted s).
Definition set_stage v s : State :=
  mkState (propTabId s) (propActive s) (root s) (terminal s) (fitAddon s)
    (observing s) (unlistenData s) (unlistenExit s) (listeningData s)
    (listeningExit s) (resizeDebounce s) (timeouts s) (nextTimer s) v
    (unmounted s) (log s) (emitted s).
Definition set_unmounted v s : State :=
  mkState (propTabId s) (propActive s) (root s) (terminal s) (fitAddon s)
    (observing s) (unlistenData s) (unlistenExit s) (listeningData s)
    (listeningExit s) (resizeDebounce s) (timeouts s) (nextTimer s) (stage s)
    v (log s) (emitted s).
Definition set_log v s : State :=
  mkState (propTabId s) (propActive s) (root s) (terminal s) (fitAddon s)
    (observing s) (unlistenData s) (unlistenExit s) (listeningData s)
    (listeningExit s) (resizeDebounce s) (timeouts s) (nextTimer s) (stage s)
    (unmounted s) v (emitted s).
Definition set_emitted v s : State :=
  mkState (propTabId s) (propActive s) (root s) (terminal s) (fitAddon s)
    (observing s) (unlistenData s) (unlistenExit s) (listeningData s)
    (listeningExit s) (resizeDebounce s) (timeouts s) (nextTimer s) (stage s)
    (unmounted s) (log s) v.
(** [invoke(...).catch(() => undefined)]: the call is recorded, its outcome
    ignored. *)
Definition invoke (command : Command) (s : State) : State :=
  set_log (log s ++ [command]) s.

Definition syncPtySize (c r : Z) (s : State) : State :=
  invoke (resize_terminal (propTabId s) c r) s.

Definition clearTimeout (id : nat) (s : State) : State :=
  set_timeouts (delete id (timeouts s)) s.

(** [window.setTimeout(callback, 24)] for the callback that captured
    [cols] and [rows]; the new id is returned in [resizeDebounce]. *)
Definition setResizeTimeout (c r : Z) (s : State) : State :=
  set_resizeDebounce (Some (nextTimer s))
    (set_nextTimer (S (nextTimer s))
       (set_timeouts (<[nextTimer s := (c, r)]> (timeouts s)) s)).

(** The handler given to [terminal.onResize]. *)
Definition onResize (c r : Z) (s : State) : State :=
  let s1 :=
    match resizeDebounce s with
    | Some id => clearTimeout id s
    | None => s
    end in
  setResizeTimeout c r s1.

(** The callback of the debounce timeout. *)
Definition resizeTimeoutCallback (c r : Z) (s : State) : State :=
  set_resizeDebounce None (syncPtySize c r s).

(** A timeout of the window comes due: it runs once and is gone. *)
Definition timeoutFired (id : nat) (s : State) : State :=
  match timeouts s !! id with
  | Some (c, r) => resizeTimeoutCallback c r (clearTimeout id s)
  | None => s
  end.

(** The terminal takes a new size and tells its [onResize] listeners, unless
    the size is the one it has. *)
Definition resizeTerminal (c r : Z) (s : State) : State :=
  match terminal s with
  | Some t =>
      if disposed t then s
      else if Z.eqb c (cols t) && Z.eqb r (rows t) then s
      else onResize c r (set_terminal (Some (withSize c r t)) s)
  | None => s
  end.

(** [fitAddon.fit()]: the add-on measures the container ([measured], [None]
    when there is nothing to measure) and resizes the terminal to it. *)
Definition fit (measured : option (Z * Z)) (s : State) : State :=
  match measured with
  | Some (c, r) => resizeTerminal c r s
  | None => s
  end.

Definition fitTerminal (force : bool) (measured : option (Z * Z)) (s : State)
  : State :=
  match terminal s with
  | Some _ =>
      if negb (fitAddon s) then s
      else if negb (propActive s) && negb force then s
      else
        let s1 := fit measured s in
        match terminal s1 with
        | Some t => syncPtySize (cols t) (rows t) s1
        | None => s1
        end
  | None => s
  end.

Definition setTerminalFontSize (next : Z) (measured : option (Z * Z))
    (s : State) : State :=
  match terminal s with
  | Some t =>
      let clamped := Z.max MIN_FONT_SIZE (Z.min MAX_FONT_SIZE next) in
      if Z.eqb (fontSize t) clamped then s
      else fitTerminal true measured (set_terminal (Some (withFontSize clamped t)) s)
  | None => s
  end.

(** The keys the custom key handler acts on, pressed with Ctrl or Meta. *)
Inductive ZoomKey := ZoomIn | ZoomOut | ZoomReset.

Definition zoomKeyPressed (key : ZoomKey) (measured : option (Z * Z))
    (s : State) : State :=
  match terminal s with
  | Some t =>
      match key with
      | ZoomIn => setTerminalFontSize (fontSize t + 1) measured s
      | ZoomOut => setTerminalFontSize (fontSize t - 1) measured s
      | ZoomReset => setTerminalFontSize DEFAULT_FONT_SIZE measured s
      end
  | None => s
  end.

(** The handler given to [terminal.onData]. *)
Definition onData (input : string) (s : State) : State :=
  invoke (write_terminal (propTabId s) input) s.

Definition onTitleChange (title : string) (s : State) : State :=
  set_emitted (emitted s ++ [session_title (propTabId s) title]) s.

(** The listener of [terminal-data]. *)
Definition onTerminalData (payload : DataPayload) (s : State) : State :=
  if String.eqb (data_tabId payload) (propTabId s) then
    match terminal s with
    | Some t => set_terminal (Some (write (data_data payload) t)) s
    | None => s
    end
  else s.

(** The listener of [terminal-exit]. *)
Definition exitNotice : string := CRLF +:+ "[process exited]".

Definition onTerminalExit (payload : ExitPayload) (s : State) : State :=
  if String.eqb (exit_tabId payload) (propTabId s) then
    match terminal s with
    | Some t => set_terminal (Some (writeln exitNotice t)) s
    | None => s
    end
  else s.

(** [onMounted], up to [await ghosttyReady]. *)
Definition onMounted (s : State) : State :=
  set_stage AwaitsGhostty (set_root true s).

(** [onMounted] from the creation of the terminal (of the size the emulator
    gives a new terminal) to [await listen("terminal-data", ...)]. *)
Definition mountedGhosttyReady (c r : Z) (s : State) : State :=
  let t := mkTerminal c r DEFAULT_FONT_SIZE (root s) [] false false in
  set_stage AwaitsListenData
    (set_listeningData true (set_fitAddon true (set_terminal (Some t) s))).

(** ... to [await listen("terminal-exit", ...)] *)
Definition mountedListenData (s : State) : State :=
  set_stage AwaitsListenExit (set_listeningExit true (set_unlistenData true s)).

(** ... to [await invoke("open_terminal", ...)] *)
Definition mountedListenExit (s : State) : State :=
  set_stage AwaitsOpen
    (invoke (open_terminal (propTabId s)) (set_unlistenExit true s)).

(** ... to the end. *)
Definition mountedOpened (shell : string) (measured : option (Z * Z))
    (s : State) : State :=
  let s1 := set_emitted (emitted s ++ [session_meta (propTabId s) shell]) s in
  let s2 := set_observing true (fitTerminal true measured s1) in
  let s3 :=
    if propActive s2 then
      match terminal s2 with
      | Some t => set_terminal (Some (focus t)) s2
      | None => s2
      end
    else s2 in
  set_stage MountDone s3.

(** [onBeforeUnmount], up to [await invoke("close_terminal", ...)]. *)
Definition onBeforeUnmount (s : State) : State :=
  let s1 :=
    match resizeDebounce s with
    | Some id => clearTimeout id s
    | None => s
    end in
  let s2 := if unlistenData s1 then set_listeningData false s1 else s1 in
  let s3 := if unlistenExit s2 then set_listeningExit false s2 else s2 in
  set_unmounted true (invoke (close_terminal (propTabId s3)) s3).

(** [onBeforeUnmount] after the [await]: [terminal?.dispose()]. *)
Definition unmountClosed (s : State) : State :=
  match terminal s with
  | Some t => set_terminal (Some (dispose t)) s
  | None => s
  end.

(** [watch(() => props.active, ...)] *)
Definition activeChanged (isActive : bool) (measured : option (Z * Z))
    (s : State) : State :=
  if Bool.eqb isActive (propActive s) || unmounted s then s
  else
    let s1 := set_propActive isActive s in
    match terminal s1 with
    | None => s1
    | Some _ =>
        if isActive then
          let s2 := fitTerminal true measured s1 in
          match terminal s2 with
          | Some t => set_terminal (Some (focus t)) s2
          | None => s2
          end
        else s1
    end.

Definition terminalAlive (s : State) : bool :=
  match terminal s with
  | Some t => negb (disposed t)
  | None => false
  end.

(** What can happen to the pane. Unmounting runs [onBeforeUnmount] and
    unbinds the template ref. *)
Inductive Event :=
| Mount
| GhosttyReady (cols rows : Z)
| ListenSettled (ok : bool)
| OpenSettled (result : Js.Settled string) (measured : option (Z * Z))
| ActiveChanged (isActive : bool) (measured : option (Z * Z))
| TerminalInput (input : string)
| KeyPressed (key : ZoomKey) (measured : option (Z * Z))
| ContainerResized (measured : option (Z * Z))
| TitleChanged (title : string)
| TimeoutFired (id : nat)
| TerminalData (payload : DataPayload)
| TerminalExit (payload : ExitPayload)
| BeforeUnmount
| CloseSettled.

Definition step (s : State) (e : Event) : State :=
  match e with
  | Mount =>
      match stage s with
      | NotMounted => onMounted s
      | _ => s
      end
  | GhosttyReady c r =>
      match stage s with
      | AwaitsGhostty => mountedGhosttyReady c r s
      | _ => s
      end
  | ListenSettled ok =>
      match stage s with
      | AwaitsListenData =>
          if ok then mountedListenData s else set_stage MountDone s
      | AwaitsListenExit =>
          if ok then mountedListenExit s else set_stage MountDone s
      | _ => s
      end
  | OpenSettled result measured =>
      match stage s with
      | AwaitsOpen =>
          match result with
          | Js.Resolved shell => mountedOpened shell measured s
          | Js.Rejected _ => set_stage MountDone s
          end
      | _ => s
      end
  | ActiveChanged isActive measured => activeChanged isActive measured s
  | TerminalInput input => if terminalAlive s then onData input s else s
  | KeyPressed key measured =>
      if terminalAlive s then zoomKeyPressed key measured s else s
  | ContainerResized measured =>
      if terminalAlive s && observing s then fit measured s else s
  | TitleChanged title => if terminalAlive s then onTitleChange title s else s
  | TimeoutFired id => timeoutFired id s
  | TerminalData payload =>
      if listeningData s then onTerminalData payload s else s
  | TerminalExit payload =>
      if listeningExit s then onTerminalExit payload s else s
  | BeforeUnmount =>
      match stage s with
      | NotMounted => s
      | _ => if unmounted s then s else set_root false (onBeforeUnmount s)
      end
  | CloseSettled => if unmounted s then unmountClosed s else s
  end.

Definition run (s : State) (events : list Event) : State :=
  fold_left step events s.


Definition isResizeCall (command : Command) : bool :=
  match command with
  | resize_terminal _ _ _ => true
  | _ => false
  end.

(** ** TerminalPane.vue: vocabulary of the properties *)

(** Every timeout of the pane that is still to fire is the one
    [resizeDebounce] holds. *)
Definition TimerInv (s : State) : Prop :=
  forall id size, timeouts s !! id = Some size -> resizeDebounce s = Some id.

(** Listeners are registered only once the terminal exists, and the tab id
    is the one the pane was created with. *)
Definition PaneInv (tabId : string) (s : State) : Prop :=
  propTabId s = tabId
  /\ TimerInv s
  /\ (terminal s = None -> listeningData s = false /\ listeningExit s = false
                          /\ (stage s = NotMounted \/ stage s = AwaitsGhostty)).


(** A pane that was mounted, whose terminal was resized once (the debounce
    timeout 0 is pending), and the same pane with its listeners registered. *)
Definition resizedPane : State :=
  run (initial "tab-1" true)
    [Mount; GhosttyReady 80 24; ListenSettled true; ListenSettled true;
     OpenSettled (Js.Resolved "/bin/zsh") (Some (120, 40))%Z].





(** ** TerminalPane.vue: further vocabulary *)

(** The font size of the terminal, once there is one, is within the bounds
    [setTerminalFontSize] clamps to. *)
Definition FontInv (s : State) : Prop :=
  forall t, terminal s = Some t ->
            (MIN_FONT_SIZE <= fontSize t <= MAX_FONT_SIZE)%Z.

(** The [tabId] argument of a backend call. *)
Definition tabIdOf (command : Command) : string :=
  match command with
  | open_terminal tabId => tabId
  | write_terminal tabId _ => tabId
  | resize_terminal tabId _ _ => tabId
  | close_terminal tabId => tabId
  end.

Definition isOpenCall (command : Command) : bool :=
  match command with
  | open_terminal _ => true
  | _ => false
  end.

Definition isCloseCall (command : Command) : bool :=
  match command with
  | close_terminal _ => true
  | _ => false
  end.

Definition count (which : Command -> bool) (s : State) : nat :=
  length (List.filter which (log s)).

(** Stages of [onMounted] that come before [invoke("open_terminal", ...)]. *)
Definition beforeOpen (stage : MountStage) : bool :=
  match stage with
  | NotMounted | AwaitsGhostty | AwaitsListenData | AwaitsListenExit => true
  | _ => false
  end.

Definition CallsInv (tabId : string) (s : State) : Prop :=
  propTabId s = tabId
  /\ Forall (fun command => tabIdOf command = tabId) (log s)
  /\ count isOpenCall s <= 1
  /\ (beforeOpen (stage s) = true -> count isOpenCall s = 0)
  /\ count isCloseCall s = (if unmounted s then 1 else 0)
  /\ (stage s = NotMounted -> unmounted s = false).

(** From [s] to [s'] the pane made no backend call but [resize_terminal]
    for its own tab, emitted nothing, and stayed in the same stage of its
    life cycle. *)
Definition onlyResizes (s s' : State) : Prop :=
  propTabId s' = propTabId s /\ stage s' = stage s
  /\ unmounted s' = unmounted s /\ emitted s' = emitted s
  /\ exists extra,
       log s' = (log s ++ extra)%list
       /\ Forall (fun command => isResizeCall command = true
                                 /\ tabIdOf command = propTabId s) extra.

(** The tab id an emitted event carries. *)
Definition tabIdOfEmitted (e : Emitted) : string :=
  match e with
  | session_meta tabId _ => tabId
  | session_title tabId _ => tabId
  end.

Definition isSessionMeta (e : Emitted) : bool :=
  match e with
  | session_meta _ _ => true
  | _ => false
  end.

Definition EmitInv (tabId : string) (s : State) : Prop :=
  propTabId s = tabId
  /\ Forall (fun e => tabIdOfEmitted e = tabId) (emitted s)
  /\ length (List.filter isSessionMeta (emitted s)) <= 1
  /\ (stage s <> MountDone -> List.filter isSessionMeta (emitted s) = []).

(** The sizes the backend was told, in order. *)
Definition sizeOf (command : Command) : option (Z * Z) :=
  match command with
  | resize_terminal _ c r => Some (c, r)
  | _ => None
  end.

Definition sizesSent (s : State) : list (Z * Z) := omap sizeOf (log s).

(** What the backend knows of the size of a terminal [t], or will know when
    the pending debounce timeout fires. *)
Definition inSync (t : Terminal) (s : State) : Prop :=
  match resizeDebounce s with
  | Some id => timeouts s !! id = Some (cols t, rows t)
  | None => sizesSent s = [] \/ last (sizesSent s) = Some (cols t, rows t)
  end.

Definition sizeOfTerminal (t : Terminal) : Z * Z := (cols t, rows t).

Definition SizeInv (s : State) : Prop :=
  (terminal s = None -> sizesSent s = [] /\ resizeDebounce s = None)
  /\ (stage s = NotMounted \/ stage s = AwaitsGhostty -> terminal s = None)
  /\ (forall t, terminal s = Some t -> unmounted s = false -> inSync t s).

(** From [s] to [s'] the pane stayed in the same stage of its life cycle,
    and what the backend knows of the terminal's size stayed right. *)
Definition keepsSync (s s' : State) : Prop :=
  stage s' = stage s /\ unmounted s' = unmounted s
  /\ match terminal s with
     | None =>
         terminal s' = None /\ sizesSent s' = sizesSent s
         /\ resizeDebounce s' = resizeDebounce s
     | Some t =>
         exists t', terminal s' = Some t'
                    /\ (unmounted s = false -> inSync t s -> inSync t' s')
     end.

(** A burst of resize notifications of the terminal. *)
Definition resizeBurst (sizes : list (Z * Z)) (s : State) : State :=
  fold_left (fun st size => onResize (fst size) (snd size) st) sizes s.

(** What has been written to the terminal, if there is one. *)
Definition writtenTo (s : State) : option (list string) :=
  written <$> terminal s.

(** The part of the state that resizing, zooming and focusing leave alone. *)
Definition heard (s : State)
  : bool * bool * bool * bool * option (list string) * MountStage * bool
    * string :=
  (listeningData s, listeningExit s, unlistenData s, unlistenExit s,
   writtenTo s, stage s, unmounted s, propTabId s).

(** How far [onMounted] has come, for each [unlisten] function it holds. *)
Definition ListenInv (s : State) : Prop :=
  (unlistenData s = true ->
   stage s = AwaitsListenExit \/ stage s = AwaitsOpen \/ stage s = MountDone)
  /\ (unlistenExit s = true -> stage s = AwaitsOpen \/ stage s = MountDone)
  /\ (stage s = AwaitsListenData ->
      listeningData s = true /\ writtenTo s <> None).

(** An unmounted pane whose listeners were removed. *)
Definition Deaf (s : State) : Prop :=
  unmounted s = true /\ listeningData s = false /\ listeningExit s = false
  /\ (stage s = AwaitsOpen \/ stage s = MountDone).

(** An unmounted pane whose [terminal-data] listener is still registered,
    although [onMounted] holds the function that removes it. *)
Definition Leaked (tabId : string) (s : State) : Prop :=
  unmounted s = true /\ listeningData s = true /\ unlistenData s = true
  /\ writtenTo s <> None /\ propTabId s = tabId.

End TerminalPane.

(** ** The application root: projects, tabs and the working-directory poll *)

Module App.

Record Project := mkProject {
  project_id : string;
  project_name : string
}.

Record TerminalTab := mkTerminalTab {
  tab_id : string;
  tab_projectId : string;
  tab_title : string
}.

Record RuntimeSession := mkRuntimeSession {
  session_shell : option string;
  session_title : option string
}.

Inductive Phase := BeforeMount | Mounted | Unmounted.

(** [projects], [tabs], [activeProjectId] and [activeTabId] are the fields of
    the persisted [state] ref. *)
Record State := mkState {
  projects : list Project;
  tabs : list TerminalTab;
  activeProjectId : option string;
  activeTabId : option string;
  creatingProject : bool;
  newProjectName : string;
  runtimeSessions : gmap string RuntimeSession;
  gitPanelOpen : bool;
  activeTerminalCwd : option string;
  (* the poll timer and the intervals of the window set by the component *)
  cwdPollTimer : option nat;
  intervals : gset nat;
  nextTimer : nat;
  (* [terminal_cwd] calls: promises not settled yet, next promise id, the
     tab ids asked about *)
  pending : gset nat;
  nextId : nat;
  log : list string;
  phase : Phase
}.

Definition set_projects v s : State :=
  mkState v (tabs s) (activeProjectId s) (activeTabId s) (creatingProject s)
    (newProjectName s) (runtimeSessions s) (gitPanelOpen s)
    (activeTerminalCwd s) (cwdPollTimer s) (intervals s) (nextTimer s)
    (pending s) (nextId s) (log s) (phase s).
Definition set_tabs v s : State :=
  mkState (projects s) v (activeProjectId s) (activeTabId s)
    (creatingProject s) (newProjectName s) (runtimeSessions s)
    (gitPanelOpen s) (activeTerminalCwd s) (cwdPollTimer s) (intervals s)
    (nextTimer s) (pending s) (nextId s) (log s) (phase s).
Definition set_activeProjectId v s : State :=
  mkState (projects s) (tabs s) v (activeTabId s) (creatingProject s)
    (newProjectName s) (runtimeSessions s) (gitPanelOpen s)
    (activeTerminalCwd s) (cwdPollTimer s) (intervals s) (nextTimer s)
    (pending s) (nextId s) (log s) (phase s).
Definition set_activeTabId v s : State :=
  mkState (projects s) (tabs s) (activeProjectId s) v (creatingProject s)
    (newProjectName s) (runtimeSessions s) (gitPanelOpen s)
    (activeTerminalCwd s) (cwdPollTimer s) (intervals s) (nextTimer s)
    (pending s) (nextId s) (log s) (phase s).
Definition set_creatingProject v s : State :=
  mkState (projects s) (tabs s) (activeProjectId s) (activeTabId s) v
    (newProjectName s) (runtimeSessions s) (gitPanelOpen s)
    (activeTerminalCwd s) (cwdPollTimer s) (intervals s) (nextTimer s)
    (pending s) (nextId s) (log s) (phase s).
Definition set_newProjectName v s : State :=
  mkState (projects s) (tabs s) (activeProjectId s) (activeTabId s)
    (creatingProject s) v (runtimeSessions s) (gitPanelOpen s)
    (activeTerminalCwd s) (cwdPollTimer s) (intervals s) (nextTimer s)
    (pending s) (nextId s) (log s) (phase s).
Definition set_runtimeSessions v s : State :=
  mkState (projects s) (tabs s) (activeProjectId s) (activeTabId s)
    (creatingProject s) (newProjectName s) v (gitPanelOpen s)
    (activeTerminalCwd s) (cwdPollTimer s) (intervals s) (nextTimer s)
    (pending s) (nextId s) (log s) (phase s).
Definition set_gitPanelOpen v s : State :=
  mkState (projects s) (tabs s) (activeProjectId s) (activeTabId s)
    (creatingProject s) (newProjectName s) (runtimeSessions s) v
    (activeTerminalCwd s) (cwdPollTimer s) (intervals s) (nextTimer s)
    (pending s) (nextId s) (log s) (phase s).
Definition set_activeTerminalCwd v s : State :=
  mkState (projects s) (tabs s) (activeProjectId s) (activeTabId s)
    (creatingProject s) (newProjectName s) (runtimeSessions s)
    (gitPanelOpen s) v (cwdPollTimer s) (intervals s) (nextTimer s)
    (pending s) (nextId s) (log s) (phase s).
Definition set_cwdPollTimer v s : State :=
  mkState (projects s) (tabs s) (activeProjectId s) (activeTabId s)
    (creatingProject s) (newProjectName s) (runtimeSessions s)
    (gitPanelOpen s) (activeTerminalCwd s) v (intervals s) (nextTimer s)
    (pending s) (nextId s) (log s) (phase s).
Definition set_intervals v s : State :=
  mkState (projects s) (tabs s) (activeProjectId s) (activeTabId s)
    (creatingProject s) (newProjectName s) (runtimeSessions s)
    (gitPanelOpen s) (activeTerminalCwd s) (cwdPollTimer s) v (nextTimer s)
    (pending s) (nextId s) (log s) (phase s).
Definition set_nextTimer v s : State :=
  mkState (projects s) (tabs s) (activeProjectId s) (activeTabId s)
    (creatingProject s) (newProjectName s) (runtimeSessions s)
    (gitPanelOpen s) (activeTerminalCwd s) (cwdPollTimer s) (intervals s) v
    (pending s) (nextId s) (log s) (phase s).
Definition set_pending v s : State :=
  mkState (projects s) (tabs s) (activeProjectId s) (activeTabId s)
    (creatingProject s) (newProjectName s) (runtimeSessions s)
    (gitPanelOpen s) (activeTerminalCwd s) (cwdPollTimer s) (intervals s)
    (nextTimer s) v (nextId s) (log s) (phase s).
Definition set_nextId v s : State :=
  mkState (projects s) (tabs s) (activeProjectId s) (activeTabId s)
    (creatingProject s) (newProjectName s) (runtimeSessions s)
    (gitPanelOpen s) (activeTerminalCwd s) (cwdPollTimer s) (intervals s)
    (nextTimer s) (pending s) v (log s) (phase s).
Definition set_log v s : State :=
  mkState (projects s) (tabs s) (activeProjectId s) (activeTabId s)
    (creatingProject s) (newProjectName s) (runtimeSessions s)
    (gitPanelOpen s) (activeTerminalCwd s) (cwdPollTimer s) (intervals s)
    (nextTimer s) (pending s) (nextId s) v (phase s).
Definition set_phase v s : State :=
  mkState (projects s) (tabs s) (activeProjectId s) (activeTabId s)
    (creatingProject s) (newProjectName s) (runtimeSessions s)
    (gitPanelOpen s) (activeTerminalCwd s) (cwdPollTimer s) (intervals s)
    (nextTimer s) (pending s) (nextId s) (log s) v.
(** [uid(prefix)], given the seven random characters. *)
Definition uid (prefix random : string) : string := prefix +:+ "-" +:+ random.

Definition isSeparator (c : Ascii.ascii) : bool :=
  let n := Ascii.nat_of_ascii c in
  Nat.eqb n 47 || Nat.eqb n 92.

(** The last element of [shell.split(/[\\/]/)]. *)
Fixpoint lastPart (current shell : string) : string :=
  match shell with
  | EmptyString => current
  | String c rest =>
      if isSeparator c then lastPart EmptyString rest
      else lastPart (current +:+ String c EmptyString) rest
  end.

Definition normalizeShell (shell : string) : string :=
  let last := lastPart EmptyString shell in
  if Js.truthy (Some last) then last else shell.

(** The component at setup, from the persisted state [loadState] returned. *)
Definition initial (projects : list Project) (tabs : list TerminalTab)
    (activeProjectId activeTabId : option string) : State :=
  mkState projects tabs activeProjectId activeTabId false "" ∅ true None None
    ∅ 0 ∅ 0 [] BeforeMount.

(** The state of a fresh installation, given the two random ids. *)
Definition defaultState (random1 random2 : string) : State :=
  let projectId := uid "project" random1 in
  let tabId := uid "tab" random2 in
  initial [mkProject projectId "project"]
    [mkTerminalTab tabId projectId "session-1"] (Some projectId) (Some tabId).

Definition activeProject (s : State) : option Project :=
  List.find
    (fun project => Js.sameString (Some (project_id project)) (activeProjectId s))
    (projects s).

Definition projectTabs (s : State) : list TerminalTab :=
  if negb (Js.truthy (activeProjectId s)) then []
  else
    List.filter
      (fun tab => Js.sameString (Some (tab_projectId tab)) (activeProjectId s))
      (tabs s).

Definition activeTab (s : State) : option TerminalTab :=
  Js.orElse
    (List.find (fun tab => Js.sameString (Some (tab_id tab)) (activeTabId s))
       (tabs s))
    (head (projectTabs s)).

Definition tabLabel (tab : TerminalTab) (s : State) : string :=
  let runtime := runtimeSessions s !! tab_id tab in
  let title := option_map Js.trim (runtime ≫= session_title) in
  if Js.truthy title then default "" title
  else
    match runtime ≫= session_shell with
    | Some shell =>
        if Js.truthy (Some shell) then shell +:+ " session" else tab_title tab
    | None => tab_title tab
    end.

Definition setActiveProject (projectId : string) (s : State) : State :=
  let nextTab :=
    List.find (fun tab => String.eqb (tab_projectId tab) projectId) (tabs s) in
  set_activeTabId (option_map tab_id nextTab)
    (set_activeProjectId (Some projectId) s).

Definition startCreateProject (s : State) : State :=
  if creatingProject s then s
  else
    set_newProjectName ("project-" +:+ pretty (length (projects s) + 1))
      (set_creatingProject true s).

Definition cancelCreateProject (s : State) : State :=
  set_newProjectName "" (set_creatingProject false s).

Definition commitCreateProject (random1 random2 : string) (s : State) : State :=
  let name := Js.trim (newProjectName s) in
  if negb (Js.truthy (Some name)) then cancelCreateProject s
  else
    let projectId := uid "project" random1 in
    let tabId := uid "tab" random2 in
    cancelCreateProject
      (set_activeTabId (Some tabId)
         (set_activeProjectId (Some projectId)
            (set_tabs (tabs s ++ [mkTerminalTab tabId projectId "session-1"])
               (set_projects (projects s ++ [mkProject projectId name]) s)))).

Definition deleteProject (projectId : string) (s : State) : State :=
  if Nat.leb (length (projects s)) 1 then s
  else
    let remainingProjects :=
      List.filter (fun project => negb (String.eqb (project_id project) projectId))
        (projects s) in
    let removedTabs :=
      List.map tab_id
        (List.filter (fun tab => String.eqb (tab_projectId tab) projectId) (tabs s)) in
    let remainingTabs :=
      List.filter (fun tab => negb (String.eqb (tab_projectId tab) projectId))
        (tabs s) in
    let nextRuntime :=
      fold_left (fun runtime tabId => delete tabId runtime) removedTabs
        (runtimeSessions s) in
    let nextProjectId :=
      if Js.sameString (activeProjectId s) (Some projectId)
      then option_map project_id (head remainingProjects)
      else activeProjectId s in
    let nextTab :=
      List.find
        (fun tab => Js.sameString (Some (tab_projectId tab)) nextProjectId)
        remainingTabs in
    set_activeTabId (option_map tab_id nextTab)
      (set_activeProjectId nextProjectId
         (set_runtimeSessions nextRuntime
            (set_tabs remainingTabs (set_projects remainingProjects s)))).

Definition createTab (random : string) (s : State) : State :=
  match activeProjectId s with
  | Some projectId =>
      if negb (Js.truthy (Some projectId)) then s
      else
        let count := length (projectTabs s) + 1 in
        let tab :=
          mkTerminalTab (uid "tab" random) projectId ("session-" +:+ pretty count) in
        set_activeTabId (Some (tab_id tab)) (set_tabs (tabs s ++ [tab]) s)
  | None => s
  end.

(** [closeTab(tabId)]; [random] is what [uid] draws if a replacement tab is
    needed. *)
Definition closeTab (tabId random : string) (s : State) : State :=
  match List.find (fun item => String.eqb (tab_id item) tabId) (tabs s) with
  | None => s
  | Some tab =>
      let s1 :=
        set_tabs
          (List.filter (fun item => negb (String.eqb (tab_id item) tabId)) (tabs s))
          s in
      let s2 := set_runtimeSessions (delete tabId (runtimeSessions s1)) s1 in
      let s3 :=
        if negb
             (existsb
                (fun item => String.eqb (tab_projectId item) (tab_projectId tab))
                (tabs s2))
        then
          let replacement :=
            mkTerminalTab (uid "tab" random) (tab_projectId tab) "session-1" in
          set_tabs (tabs s2 ++ [replacement]) s2
        else s2 in
      if Js.sameString (activeTabId s3) (Some tabId) then
        let next :=
          List.find
            (fun item => String.eqb (tab_projectId item) (tab_projectId tab))
            (tabs s3) in
        set_activeTabId (option_map tab_id next) s3
      else s3
  end.

Definition runtimeOf (tabId : string) (s : State) : RuntimeSession :=
  default (mkRuntimeSession None None) (runtimeSessions s !! tabId).

Definition onSessionMeta (tabId shell : string) (s : State) : State :=
  let old := runtimeOf tabId s in
  set_runtimeSessions
    (<[tabId := mkRuntimeSession (Some (normalizeShell shell)) (session_title old)]>
       (runtimeSessions s))
    s.

Definition onSessionTitle (tabId title : string) (s : State) : State :=
  let old := runtimeOf tabId s in
  set_runtimeSessions
    (<[tabId := mkRuntimeSession (session_shell old) (Some title)]>
       (runtimeSessions s))
    s.

Definition toggleGitPanel (s : State) : State :=
  set_gitPanelOpen (negb (gitPanelOpen s)) s.

(** [syncActiveTerminalCwd()], up to its [await]. *)
Definition syncActiveTerminalCwd (s : State) : State :=
  match option_map tab_id (activeTab s) with
  | Some tabId =>
      if negb (Js.truthy (Some tabId)) then set_activeTerminalCwd None s
      else
        set_log (log s ++ [tabId])
          (set_nextId (S (nextId s))
             (set_pending ({[nextId s]} ∪ pending s) s))
  | None => set_activeTerminalCwd None s
  end.

(** An asynchronous function either returns or throws. *)
Inductive Completion :=
| Returns (s : State)
| Throws (e : Js.Thrown) (s : State).

Definition stateOf (c : Completion) : State :=
  match c with
  | Returns s => s
  | Throws _ s => s
  end.

(** [syncActiveTerminalCwd] after its [await]: the [try] and the [catch]. *)
Definition cwdSettled (result : Js.Settled (option string)) (s : State)
  : Completion :=
  match result with
  | Js.Resolved cwd => Returns (set_activeTerminalCwd cwd s)
  | Js.Rejected _ => Returns (set_activeTerminalCwd None s)
  end.

Definition settle (id : nat) (result : Js.Settled (option string)) (s : State)
  : State :=
  if decide (id ∈ pending s)
  then stateOf (cwdSettled result (set_pending (pending s ∖ {[id]}) s))
  else s.

(** [onMounted]: a first poll, then one every 1200 ms. *)
Definition onMounted (s : State) : State :=
  let s1 := syncActiveTerminalCwd s in
  set_cwdPollTimer (Some (nextTimer s1))
    (set_nextTimer (S (nextTimer s1))
       (set_intervals ({[nextTimer s1]} ∪ intervals s1) s1)).

Definition clearInterval (id : nat) (s : State) : State :=
  set_intervals (intervals s ∖ {[id]}) s.

Definition onBeforeUnmount (s : State) : State :=
  match cwdPollTimer s with
  | Some id => clearInterval id s
  | None => s
  end.

(** An interval of the window comes due. *)
Definition intervalFired (id : nat) (s : State) : State :=
  if decide (id ∈ intervals s) then syncActiveTerminalCwd s else s.

(** [watch(() => activeTab.value?.id, ...)]: after a handler changed the id
    of the active tab, and while the component lives, the poll runs. *)
Definition watched (handler : State -> State) (s : State) : State :=
  let s' := handler s in
  match phase s' with
  | Unmounted => s'
  | _ =>
      if Js.sameString (option_map tab_id (activeTab s))
           (option_map tab_id (activeTab s'))
      then s'
      else syncActiveTerminalCwd s'
  end.

Inductive Event :=
| Mount
| BeforeUnmount
| SetActiveProject (projectId : string)
| StartCreateProject
| NewProjectNameInput (text : string)
| CancelCreateProject
| CommitCreateProject (random1 random2 : string)
| DeleteProject (projectId : string)
| CreateTab (random : string)
| SelectTab (tabId : string)
| CloseTab (tabId random : string)
| SessionMeta (tabId shell : string)
| SessionTitle (tabId title : string)
| ToggleGitPanel
| IntervalFired (id : nat)
| Settle (id : nat) (result : Js.Settled (option string)).

Definition step (s : State) (e : Event) : State :=
  match e with
  | Mount =>
      match phase s with
      | BeforeMount => set_phase Mounted (onMounted s)
      | _ => s
      end
  | BeforeUnmount =>
      match phase s with
      | Mounted => set_phase Unmounted (onBeforeUnmount s)
      | _ => s
      end
  | SetActiveProject projectId => watched (setActiveProject projectId) s
  | StartCreateProject => startCreateProject s
  | NewProjectNameInput text => set_newProjectName text s
  | CancelCreateProject => cancelCreateProject s
  | CommitCreateProject random1 random2 =>
      watched (commitCreateProject random1 random2) s
  | DeleteProject projectId => watched (deleteProject projectId) s
  | CreateTab random => watched (createTab random) s
  | SelectTab tabId => watched (set_activeTabId (Some tabId)) s
  | CloseTab tabId random => watched (closeTab tabId random) s
  | SessionMeta tabId shell => onSessionMeta tabId shell s
  | SessionTitle tabId title => onSessionTitle tabId title s
  | ToggleGitPanel => toggleGitPanel s
  | IntervalFired id => intervalFired id s
  | Settle id result => settle id result s
  end.

Definition run (s : State) (events : list Event) : State :=
  fold_left step events s.

(** The tabs of a project. *)
Definition tabsOf (projectId : string) (all : list TerminalTab)
  : list TerminalTab :=
  List.filter (fun tab => String.eqb (tab_projectId tab) projectId) all.

(** ** The application root: vocabulary of the properties *)



(** The tabs [closeTab(tabId)] keeps. *)
Definition kept (tabId : string) (all : list TerminalTab) : list TerminalTab :=
  List.filter (fun item => negb (String.eqb (tab_id item) tabId)) all.

Definition replacementTab (random projectId : string) : TerminalTab :=
  mkTerminalTab (uid "tab" random) projectId "session-1".

(** ** The application root: further vocabulary *)

Definition projectIds (s : State) : list string :=
  List.map project_id (projects s).

Definition tabIds (s : State) : list string := List.map tab_id (tabs s).

Definition known (id : string) (ids : list string) : bool :=
  existsb (String.eqb id) ids.

(** What can happen in state [s]: the user picks a project that is listed
    and a tab of the project shown, and [uid] draws an id that is not in
    use. *)
Definition possible (s : State) (e : Event) : bool :=
  match e with
  | SetActiveProject projectId => known projectId (projectIds s)
  | SelectTab tabId =>
      existsb
        (fun tab =>
           String.eqb (tab_id tab) tabId
           && Js.sameString (Some (tab_projectId tab)) (activeProjectId s))
        (tabs s)
  | CommitCreateProject random1 random2 =>
      negb (known (uid "project" random1) (projectIds s))
      && negb (known (uid "tab" random2) (tabIds s))
  | CreateTab random => negb (known (uid "tab" random) (tabIds s))
  | CloseTab _ random => negb (known (uid "tab" random) (tabIds s))
  | _ => true
  end.

Fixpoint possibleRun (s : State) (events : list Event) : bool :=
  match events with
  | [] => true
  | e :: rest => possible s e && possibleRun (step s e) rest
  end.

(** A workspace in order: ids are unique, every project has a tab, every
    tab has its project, and the active tab is a tab of the active
    project. *)
Definition WellFormed (s : State) : Prop :=
  List.NoDup (projectIds s) /\ List.NoDup (tabIds s)
  /\ (forall project, In project (projects s) ->
                      tabsOf (project_id project) (tabs s) <> [])
  /\ (forall tab, In tab (tabs s) -> In (tab_projectId tab) (projectIds s))
  /\ (exists tab, In tab (tabs s) /\ activeTabId s = Some (tab_id tab)
                  /\ activeProjectId s = Some (tab_projectId tab)).

(** The persisted part of the state is the same. *)
Definition sameData (s s' : State) : Prop :=
  projects s' = projects s /\ tabs s' = tabs s
  /\ activeProjectId s' = activeProjectId s /\ activeTabId s' = activeTabId s.

(** No character of [name] is a path separator. *)
Fixpoint plainName (name : string) : bool :=
  match name with
  | EmptyString => true
  | String c rest => negb (isSeparator c) && plainName rest
  end.

(** The ids of the tabs of a project. *)
Definition tabIdsOf (projectId : string) (s : State) : list string :=
  List.map tab_id (tabsOf projectId (tabs s)).

(** The title the terminal of a tab reported, if any. *)
Definition titleOf (tabId : string) (s : State) : option string :=
  runtimeSessions s !! tabId ≫= session_title.

Definition shellOf (tabId : string) (s : State) : option string :=
  runtimeSessions s !! tabId ≫= session_shell.

(** ** Start-up: [loadState] *)

(** What [JSON.parse] makes of a stored workspace: an object whose
    properties, where present and not null, have the types [PersistedState]
    declares. *)
Record Parsed := mkParsed {
  parsed_projects : option (list Project);
  parsed_tabs : option (list TerminalTab);
  parsed_activeProjectId : option string;
  parsed_activeTabId : option string
}.

(** What [localStorage.getItem(STORAGE_KEY)] holds: nothing (null or the
    empty string), text [JSON.parse] throws on, JSON for something that is
    not an object (reading [projects] throws or yields undefined), or JSON
    for an object. *)
Inductive Stored :=
| NoItem
| NotJson
| NotAnObject
| JsonObject (parsed : Parsed).

(** [loadState()], given the item stored and what [uid] draws if the
    default state is needed. *)
Definition loadState (stored : Stored) (random1 random2 : string) : State :=
  match stored with
  | JsonObject parsed =>
      match parsed_projects parsed with
      | Some (first :: rest) =>
          let activeProjectId :=
            Js.orElse (parsed_activeProjectId parsed) (Some (project_id first)) in
          let tabs := default [] (parsed_tabs parsed) in
          let firstTab :=
            List.find
              (fun tab => Js.sameString (Some (tab_projectId tab)) activeProjectId)
              tabs in
          initial (first :: rest) tabs activeProjectId
            (Js.orElse (parsed_activeTabId parsed) (option_map tab_id firstTab))
      | _ => defaultState random1 random2
      end
  | _ => defaultState random1 random2
  end.

(** What the deep watcher on [state] stores: [JSON.stringify(next)]. *)
Definition persisted (s : State) : Stored :=
  JsonObject
    (mkParsed (Some (projects s)) (Some (tabs s)) (activeProjectId s)
       (activeTabId s)).

(** ** Renaming a tab *)

(** The refs of the rename form of the tabs. *)
Record TabEditing := mkTabEditing {
  editingTabId : option string;
  editingTabName : string
}.

(** [startRenameTab(tabId)], up to its [await]. *)
Definition startRenameTab (tabId : string) (editing : TabEditing) (s : State)
  : TabEditing :=
  match List.find (fun item => String.eqb (tab_id item) tabId) (tabs s) with
  | Some tab => mkTabEditing (Some tabId) (tab_title tab)
  | None => editing
  end.

Definition cancelRenameTab : TabEditing := mkTabEditing None "".

(** [tab.title = next] for the tab [find] returns: the first with the id. *)
Fixpoint retitle (tabId next : string) (all : list TerminalTab)
  : list TerminalTab :=
  match all with
  | [] => []
  | tab :: rest =>
      if String.eqb (tab_id tab) tabId
      then mkTerminalTab (tab_id tab) (tab_projectId tab) next :: rest
      else tab :: retitle tabId next rest
  end.

Definition commitRenameTab (editing : TabEditing) (s : State)
  : TabEditing * State :=
  if negb (Js.truthy (editingTabId editing)) then (editing, s)
  else
    let next := Js.trim (editingTabName editing) in
    let s' :=
      if Js.truthy (Some next)
      then set_tabs (retitle (default "" (editingTabId editing)) next (tabs s)) s
      else s in
    (cancelRenameTab, s').

End App.

(** * Properties of the git panel *)

Module GitPanelFacts.
Import GitPanel.

Ltac break_match :=
  match goal with
  | |- context [match ?x with _ => _ end] =>
      first [ is_var x; destruct x | destruct x eqn:? ]
  end.

Ltac unfold_handlers :=
  unfold refreshAfterBranches, refreshStatusRejected, refreshStatusResolved,
    loadDiffSettled, loadBranchesSettled, loadBranches, loadDiff, afterLoadDiff,
    refreshFinally, refresh, resumeCaller, renderDiffFromPatch, renderEmpty,
    invoke.

Ltac cases := repeat (simpl; break_match); simpl in *.

Example trim_example : Js.trim "  feat: x  " = "feat: x".
Proof. reflexivity. Qed.

(** ** Checkout of the current branch *)

Section Checkout.
Variable lib : DiffLibrary.

(** C4. A branch switch whose trimmed target is the current branch returns
    without doing anything: the state after [switchBranch] is the state
    before it, so no [git_checkout] was invoked, no error was recorded and
    no promise is pending that was not before. *)
Theorem switchBranch_current_is_noop (s : State) (branch : string) :
  Js.trim branch = currentBranch s ->
  step lib s (SwitchBranch branch) = s
  /\ calls isCheckoutCall (step lib s (SwitchBranch branch))
     = calls isCheckoutCall s
  /\ error (step lib s (SwitchBranch branch)) = error s.
Proof.
  intros Hsame.
  assert (Hnoop : switchBranch branch s = s).
  { unfold switchBranch. rewrite Hsame, String.eqb_refl.
    destruct (_ || _ || _); reflexivity. }
  simpl. rewrite Hnoop. auto.
Qed.

End Checkout.

Lemma switchBranch_current_is_noop_witness :
  Js.trim " main " = currentBranch (showing oneModified "")
  /\ step plainLibrary (showing oneModified "") (SwitchBranch " main ")
     = showing oneModified "".
Proof.
  split; [reflexivity |].
  apply (switchBranch_current_is_noop plainLibrary (showing oneModified "")
           " main ").
  reflexivity.
Defined.

(** ** The commit guard *)

(** C3 as stated fails: with nothing staged and a blank message the reason
    the panel gives is the missing staging, not the missing message; the
    attempt, with or without amend, changes nothing and records no error. *)
Lemma commit_blank_message_nothing_staged :
  Js.trim (commitMessage (showing oneModified "  ")) = ""
  /\ stagedCount (showing oneModified "  ") = 0
  /\ commitDisabledReason (showing oneModified "  ")
     = Some "Stage files before commit"
  /\ commitDisabledReason (showing oneModified "  ")
     <> Some "Enter a commit message"
  /\ commitChanges true (showing oneModified "  ") = showing oneModified "  "
  /\ error (commitChanges false (showing oneModified "  ")) = None.
Proof. repeat split; try reflexivity. discriminate. Qed.

Lemma trim_empty_length (text : string) :
  Nat.eqb (String.length (Js.trim text)) 0 = true <-> Js.trim text = "".
Proof.
  destruct (Js.trim text); simpl; split; intros H; try reflexivity;
    discriminate.
Qed.

Section Commit.
Variable lib : DiffLibrary.

(** C3, amended. A commit attempt with a blank message (after trimming) or
    with nothing staged invokes nothing and changes nothing, for
    [amend = true] as for [amend = false]: no [git_commit] call, no error
    raised or recorded. The reason the panel gives is that a commit is
    running, else that nothing is staged, else that the message is missing. *)
Theorem commit_guard (s : State) (amend : bool) :
  Js.trim (commitMessage s) = "" \/ stagedCount s = 0 ->
  step lib s (CommitChanges amend) = s
  /\ calls isCommitCall (step lib s (CommitChanges amend)) = calls isCommitCall s
  /\ commitDisabledReason s =
       Some (if commitLoading s then "Committing changes"
             else if Nat.eqb (stagedCount s) 0 then "Stage files before commit"
             else "Enter a commit message").
Proof.
  intros Hguard.
  assert (Hreason : commitDisabledReason s =
       Some (if commitLoading s then "Committing changes"
             else if Nat.eqb (stagedCount s) 0 then "Stage files before commit"
             else "Enter a commit message")).
  { unfold commitDisabledReason.
    destruct (commitLoading s); [reflexivity |].
    destruct (Nat.eqb (stagedCount s) 0) eqn:Hstaged; [reflexivity |].
    destruct Hguard as [Hblank | Hnone].
    - rewrite Hblank. reflexivity.
    - rewrite Hnone in Hstaged. discriminate. }
  assert (Hnoop : commitChanges amend s = s).
  { unfold commitChanges, canCommit. rewrite Hreason. reflexivity. }
  simpl. rewrite Hnoop. auto.
Qed.

End Commit.

Lemma commit_guard_witness :
  (Js.trim (commitMessage (showing oneStaged " ")) = ""
   \/ stagedCount (showing oneStaged " ") = 0)
  /\ step plainLibrary (showing oneStaged " ") (CommitChanges true)
     = showing oneStaged " "
  /\ commitDisabledReason (showing oneStaged " ")
     = Some "Enter a commit message".
Proof.
  pose proof (commit_guard plainLibrary (showing oneStaged " ") true
                (or_introl eq_refl)) as (Hnoop & _ & Hreason).
  split; [left; reflexivity |].
  split; [exact Hnoop | exact Hreason].
Defined.

(** ** One refresh cycle *)

Lemma pending_invoke (command : Command) (k : Continuation) (s : State) :
  pending (invoke command k s) !! nextId s = Some k.
Proof. simpl. apply lookup_insert_eq. Qed.

Lemma settle_resumes (lib : DiffLibrary) (s s' : State) (id : nat)
    (k : Continuation) (result : Js.Settled Response) :
  pending s !! id = Some k ->
  resume lib k result (set_pending (delete id (pending s)) s) = Some s' ->
  settle lib id result s = s'.
Proof. intros Hk Hs'. unfold settle. rewrite Hk, Hs'. reflexivity. Qed.

Lemma step_settle (lib : DiffLibrary) (s : State) (id : nat)
    (result : Js.Settled Response) :
  step lib s (Settle id result) = settle lib id result s.
Proof. reflexivity. Qed.

Lemma settle_unknown (lib : DiffLibrary) (s : State) (id : nat)
    (result : Js.Settled Response) :
  pending s !! id = None -> settle lib id result s = s.
Proof. intros Hnone. unfold settle. rewrite Hnone. reflexivity. Qed.

Lemma calls_invoke (which : Command -> bool) (command : Command)
    (k : Continuation) (s : State) :
  calls which (invoke command k s)
  = if which command then S (calls which s) else calls which s.
Proof.
  unfold calls. simpl. rewrite List.filter_app, length_app. simpl.
  destruct (which command); simpl; lia.
Qed.

Lemma resume_branches (lib : DiffLibrary) (nextStatus : GitStatusResponse)
    (caller : RefreshCaller) (result : Js.Settled GitBranchesResponse)
    (s : State) :
  resume lib (RefreshAwaitsBranches nextStatus caller) (branchesResult result) s
  = Some (refreshAfterBranches nextStatus caller (loadBranchesSettled result s)).
Proof. destruct result; reflexivity. Qed.

Lemma resume_diff (lib : DiffLibrary) (token : Z) (caller : DiffCaller)
    (result : Js.Settled string) (s : State) :
  resume lib (LoadDiffAwaitsDiff token caller) (diffResult result) s
  = Some (loadDiffSettled lib token caller result s).
Proof. destruct result; reflexivity. Qed.

(** C7 as stated fails: a refresh cycle whose [git_status] call fails makes
    one status call and no branches call, and is over. *)
Lemma refresh_failed_status_skips_branches :
  let s := run plainLibrary (initial true None)
             [Mounted; Settle 0 (Js.Rejected Js.OtherValue)] in
  refreshInFlight s = false
  /\ pending s = ∅
  /\ log s = [git_status None]
  /\ calls isStatusCall s = 1
  /\ calls isBranchesCall s = 0.
Proof. vm_compute. repeat split; reflexivity. Qed.

Section RefreshCycle.
Variable lib : DiffLibrary.

(** Finishing a refresh nobody has queued behind leaves the stored status,
    the error, the branch list and the calls made as they are. *)
Lemma refreshAfterBranches_frame nextStatus caller s :
  refreshQueued s = false ->
  let s' := refreshAfterBranches nextStatus caller s in
  status s' = status s /\ error s' = error s /\ branches s' = branches s
  /\ currentBranch s' = currentBranch s
  /\ calls isStatusCall s' = calls isStatusCall s
  /\ calls isBranchesCall s' = calls isBranchesCall s
  /\ refreshQueued s' = false.
Proof.
  intros Hq. unfold_handlers. unfold Js.truthy, calls.
  cases; try congruence; repeat split; try reflexivity; try assumption.
  all: rewrite List.filter_app, length_app; simpl; lia.
Qed.

Lemma loadDiffSettled_frame token caller result s :
  refreshQueued s = false ->
  let s' := loadDiffSettled lib token (DiffInRefresh caller) result s in
  status s' = status s /\ error s' = error s
  /\ calls isStatusCall s' = calls isStatusCall s
  /\ calls isBranchesCall s' = calls isBranchesCall s
  /\ refreshInFlight s' = false.
Proof.
  intros Hq. unfold_handlers. unfold calls.
  cases; try congruence; repeat split; try reflexivity; try assumption.
Qed.

(** C7, amended. A refresh cycle, started on a panel with no refresh in
    flight or queued, makes one [git_status] call at once. If
    that call succeeds its result is stored and one [git_branches] call is
    made; if the branches call then fails the refresh does not fail: the
    status stays stored, no error is recorded, the branch list and the
    current branch fall back to empty values, and the cycle ends with one
    status and one branches call made. If the status call fails, no
    branches call is made at all. *)
Theorem refresh_cycle_calls (s : State) (nextStatus : GitStatusResponse)
    (e e' : Js.Thrown) :
  refreshInFlight s = false ->
  refreshQueued s = false ->
  let s1 := step lib s Refresh in
  let ok := step lib s1 (Settle (nextId s) (Js.Resolved (StatusValue nextStatus))) in
  let failedBranches := step lib ok (Settle (S (nextId s)) (Js.Rejected e)) in
  let failedStatus := step lib s1 (Settle (nextId s) (Js.Rejected e')) in
  log s1 = (log s ++ [git_status (Js.orElse (propRepoPath s) (lastRepoPath s))])%list
  /\ (status ok = Some nextStatus
      /\ log ok = (log s1 ++ [git_branches (status_repoPath nextStatus)])%list)
  /\ (status failedBranches = Some nextStatus
      /\ error failedBranches = None
      /\ branches failedBranches = []
      /\ currentBranch failedBranches = ""
      /\ calls isStatusCall failedBranches = S (calls isStatusCall s)
      /\ calls isBranchesCall failedBranches = S (calls isBranchesCall s)
      /\ forall token result,
           pending failedBranches !! S (S (nextId s))
           = Some (LoadDiffAwaitsDiff token (DiffInRefresh Detached)) ->
           let done :=
             step lib failedBranches
               (Settle (S (S (nextId s))) (diffResult result)) in
           refreshInFlight done = false
           /\ status done = Some nextStatus
           /\ error done = None
           /\ calls isStatusCall done = S (calls isStatusCall s)
           /\ calls isBranchesCall done = S (calls isBranchesCall s))
  /\ (log failedStatus = log s1
      /\ refreshInFlight failedStatus = false
      /\ status failedStatus = status s
      /\ error failedStatus = Some (Js.messageOr "Failed to load git status" e')).
Proof.
  intros Hidle Hqueue s1 ok failedBranches failedStatus.
  assert (Hs1 : s1 = invoke (git_status (Js.orElse (propRepoPath s) (lastRepoPath s)))
      (RefreshAwaitsStatus Detached)
      (set_error None (set_loading true (set_refreshInFlight true s)))).
  { subst s1. simpl. unfold refresh. rewrite Hidle. reflexivity. }
  assert (Hpending1 : pending s1 !! nextId s = Some (RefreshAwaitsStatus Detached)).
  { rewrite Hs1. simpl. apply lookup_insert_eq. }
  assert (Hok : ok = refreshStatusResolved nextStatus Detached
                       (set_pending (delete (nextId s) (pending s1)) s1)).
  { apply settle_resumes with (k := RefreshAwaitsStatus Detached); [exact Hpending1 | reflexivity]. }
  assert (Hpending2 : pending ok !! S (nextId s) = Some (RefreshAwaitsBranches nextStatus Detached)).
  { rewrite Hok, Hs1. simpl. apply lookup_insert_eq. }
  assert (Hfb : failedBranches = refreshAfterBranches nextStatus Detached
             (loadBranchesSettled (Js.Rejected e)
                (set_pending (delete (S (nextId s)) (pending ok)) ok))).
  { apply settle_resumes with (k := RefreshAwaitsBranches nextStatus Detached);
      [exact Hpending2 | reflexivity]. }
  assert (Hfs : failedStatus = refreshStatusRejected e' Detached
                       (set_pending (delete (nextId s) (pending s1)) s1)).
  { apply settle_resumes with (k := RefreshAwaitsStatus Detached); [exact Hpending1 | reflexivity]. }
  split; [rewrite Hs1; reflexivity |].
  split; [rewrite Hok; split; reflexivity |].
  split.
  - destruct (refreshAfterBranches_frame nextStatus Detached
               (loadBranchesSettled (Js.Rejected e)
                  (set_pending (delete (S (nextId s)) (pending ok)) ok)))
      as (Hst & Herr & Hbr & Hcur & Hcs & Hcb & Hq).
    { rewrite Hok, Hs1. simpl. exact Hqueue. }
    rewrite <- Hfb in Hst, Herr, Hbr, Hcur, Hcs, Hcb, Hq.
    assert (Hbase : status failedBranches = Some nextStatus
                    /\ error failedBranches = None
                    /\ calls isStatusCall failedBranches = S (calls isStatusCall s)
                    /\ calls isBranchesCall failedBranches
                       = S (calls isBranchesCall s)).
    { rewrite Hst, Herr, Hcs, Hcb, Hok, Hs1. unfold calls. simpl.
      rewrite !List.filter_app, !length_app. simpl.
      repeat split; try reflexivity; lia. }
    destruct Hbase as (Hst' & Herr' & Hcs' & Hcb').
    split; [exact Hst' |]. split; [exact Herr' |].
    split; [rewrite Hbr, Hok, Hs1; reflexivity |].
    split; [rewrite Hcur, Hok, Hs1; reflexivity |].
    split; [exact Hcs' |]. split; [exact Hcb' |].
    intros token result Hdiff done.
      assert (Hdone : done = loadDiffSettled lib token (DiffInRefresh Detached) result
                 (set_pending (delete (S (S (nextId s))) (pending failedBranches))
                    failedBranches)).
    { apply settle_resumes with (k := LoadDiffAwaitsDiff token (DiffInRefresh Detached));
          [exact Hdiff | apply resume_diff]. }
    destruct (loadDiffSettled_frame token Detached result
                  (set_pending (delete (S (S (nextId s))) (pending failedBranches))
                     failedBranches)) as (Hst2 & Herr2 & Hcs2 & Hcb2 & Hin2).
    { exact Hq. }
    rewrite <- Hdone in Hst2, Herr2, Hcs2, Hcb2, Hin2.
    rewrite Hst2, Herr2, Hcs2, Hcb2, Hin2. simpl.
    repeat split; assumption.
  - rewrite Hfs, Hs1. unfold_handlers. simpl.
    destruct (diffContainer s); simpl; rewrite Hqueue; simpl;
      repeat split; reflexivity.
Qed.

End RefreshCycle.

Lemma refresh_cycle_calls_witness :
  let s := showing oneModified "" in
  let failedBranches :=
    run plainLibrary s
      [Refresh; Settle 0 (Js.Resolved (StatusValue twoModified));
       Settle 1 (Js.Rejected Js.OtherValue)] in
  (refreshInFlight s = false /\ refreshQueued s = false)
  /\ status failedBranches = Some twoModified
  /\ error failedBranches = None
  /\ branches failedBranches = []
  /\ calls isBranchesCall failedBranches = 1.
Proof.
  intros s failedBranches.
  destruct (refresh_cycle_calls plainLibrary s twoModified Js.OtherValue
              Js.OtherValue eq_refl eq_refl)
    as (_ & _ & (Hstatus & Herror & Hbranches & _ & _ & Hcalls & _) & _).
  split; [split; reflexivity |].
  split; [exact Hstatus |]. split; [exact Herror |].
  split; [exact Hbranches | exact Hcalls].
Defined.

(** ** The selection after a refresh *)

Section Selection.
Variable lib : DiffLibrary.

Lemma stillSelected_spec (changes : list GitChange) (previous : option string) :
  existsb (fun change => Js.sameString (Some (change_path change)) previous) changes
  = true
  <-> exists path, previous = Some path /\ In path (List.map change_path changes).
Proof.
  rewrite existsb_exists. split.
  - intros (change & Hin & Hsame). destruct previous as [path |]; [| discriminate].
    simpl in Hsame. apply String.eqb_eq in Hsame. subst path.
    exists (change_path change). split; [reflexivity |].
    apply in_map. exact Hin.
  - intros (path & -> & Hin). apply in_map_iff in Hin as (change & <- & Hin).
    exists change. split; [exact Hin |]. simpl. apply String.eqb_refl.
Qed.

Lemma status_refreshAfterBranches nextStatus caller s :
  status (refreshAfterBranches nextStatus caller s) = status s.
Proof.
  unfold_handlers. unfold Js.truthy.
  cases; try reflexivity; try assumption; congruence.
Qed.

Lemma selectedPath_afterLoadDiff caller s :
  selectedPath (afterLoadDiff caller s) = selectedPath s.
Proof. unfold_handlers. cases; reflexivity. Qed.

Lemma selectedPath_loadDiff caller path s :
  selectedPath (loadDiff caller path s) = selectedPath s.
Proof. unfold_handlers. cases; reflexivity. Qed.

Lemma selectedPath_loadDiffSettled token caller result s :
  selectedPath (loadDiffSettled lib token caller result s) = selectedPath s.
Proof. unfold_handlers. cases; reflexivity. Qed.

Lemma selectedPath_refreshFinally caller s :
  selectedPath (refreshFinally caller s) = selectedPath s.
Proof. unfold_handlers. cases; reflexivity. Qed.

Lemma selectedPath_refreshAfterBranches nextStatus caller s :
  selectedPath (refreshAfterBranches nextStatus caller s)
  = chosen nextStatus (selectedPath s).
Proof.
  unfold refreshAfterBranches, chosen.
  destruct (status_changes nextStatus) as [| first rest] eqn:Hchanges.
  - simpl. rewrite selectedPath_refreshFinally.
    unfold renderEmpty. cases; reflexivity.
  - cbn [length Nat.eqb head option_map].
    set (still := existsb _ _).
    set (s1 := set_selectedPath _ s).
    assert (Hs1 : selectedPath s1 = if still then selectedPath s else Some (change_path first)).
    { reflexivity. }
    destruct (selectedPath s1) as [path |] eqn:Hsel.
    + destruct (Js.truthy (Some path)).
      * rewrite selectedPath_loadDiff. congruence.
      * rewrite selectedPath_refreshFinally. congruence.
    + rewrite selectedPath_refreshFinally. congruence.
Qed.

(** C9. When the [git_status] call of a refresh has resolved and its
    [git_branches] call has settled either way, the stored status is the one
    returned, and the selected path is null exactly when the returned change
    list is empty; otherwise it is the path of an entry of that list: the
    previous selection if the list still has it, the first entry if not. The
    diff request that ends the cycle leaves the selection as it is. *)
Theorem refresh_selection (s : State) (id : nat) (caller : RefreshCaller)
    (nextStatus : GitStatusResponse)
    (branchesOutcome : Js.Settled GitBranchesResponse) :
  pending s !! id = Some (RefreshAwaitsStatus caller) ->
  let previous := selectedPath s in
  let changes := status_changes nextStatus in
  let s1 := step lib s (Settle id (Js.Resolved (StatusValue nextStatus))) in
  let s2 := step lib s1 (Settle (nextId s) (branchesResult branchesOutcome)) in
  status s2 = Some nextStatus
  /\ (selectedPath s2 = None <-> changes = [])
  /\ (changes <> [] ->
      exists change, In change changes /\ selectedPath s2 = Some (change_path change))
  /\ (forall path, previous = Some path -> In path (List.map change_path changes) ->
      selectedPath s2 = Some path)
  /\ ((forall path, previous = Some path -> ~ In path (List.map change_path changes)) ->
      selectedPath s2 = option_map change_path (head changes))
  /\ (forall id' token diffCaller result,
        pending s2 !! id' = Some (LoadDiffAwaitsDiff token diffCaller) ->
        selectedPath (step lib s2 (Settle id' (diffResult result)))
        = selectedPath s2).
Proof.
  intros Hpending previous changes s1 s2.
  assert (Hs1 : s1 = refreshStatusResolved nextStatus caller
                       (set_pending (delete id (pending s)) s)).
  { apply settle_resumes with (k := RefreshAwaitsStatus caller);
      [exact Hpending | reflexivity]. }
  assert (Hpending1 : pending s1 !! nextId s
                      = Some (RefreshAwaitsBranches nextStatus caller)).
  { rewrite Hs1. simpl. apply lookup_insert_eq. }
  assert (Hs2 : s2 = refreshAfterBranches nextStatus caller
                       (loadBranchesSettled branchesOutcome
                          (set_pending (delete (nextId s) (pending s1)) s1))).
  { apply settle_resumes with (k := RefreshAwaitsBranches nextStatus caller);
      [exact Hpending1 | apply resume_branches]. }
  assert (Hsel : selectedPath s2 = chosen nextStatus previous).
  { rewrite Hs2, selectedPath_refreshAfterBranches, Hs1.
    destruct branchesOutcome; reflexivity. }
  assert (Hst : status s2 = Some nextStatus).
  { rewrite Hs2, status_refreshAfterBranches, Hs1.
    destruct branchesOutcome; reflexivity. }
  assert (Hlater : forall id' token diffCaller result,
             pending s2 !! id' = Some (LoadDiffAwaitsDiff token diffCaller) ->
             selectedPath (step lib s2 (Settle id' (diffResult result)))
             = selectedPath s2).
  { intros id' token diffCaller result Hdiff. rewrite step_settle.
    rewrite (settle_resumes lib s2 _ id' _ _ Hdiff (resume_diff lib _ _ _ _)).
    rewrite selectedPath_loadDiffSettled. reflexivity. }
  split; [exact Hst |].
  cut ((chosen nextStatus previous = None <-> changes = [])
       /\ (changes <> [] ->
           exists change, In change changes
                          /\ chosen nextStatus previous = Some (change_path change))
       /\ (forall path, previous = Some path ->
           In path (List.map change_path changes) ->
           chosen nextStatus previous = Some path)
       /\ ((forall path, previous = Some path ->
            ~ In path (List.map change_path changes)) ->
           chosen nextStatus previous = option_map change_path (head changes))).
  { rewrite <- Hsel. intros (H1 & H2 & H3 & H4). auto 6. }
  unfold chosen. fold changes.
  destruct changes as [| first rest] eqn:Hchanges.
  - split; [split; reflexivity |].
    split; [intros Hne; contradiction |].
    split; [intros path _ [] |].
    reflexivity.
  - destruct (existsb _ (first :: rest)) eqn:Hstill.
    + apply stillSelected_spec in Hstill as (path & Hprev & Hin).
      rewrite Hprev.
      split; [split; [discriminate | discriminate] |].
      split.
      { intros _. apply in_map_iff in Hin as (change & Hpath & Hin).
        exists change. split; [exact Hin | congruence]. }
      split; [intros path' Hprev' _; congruence |].
      intros Hnot; exfalso; exact (Hnot path eq_refl Hin).
    + split; [split; [discriminate | discriminate] |].
      split.
      { intros _. exists first. split; [left; reflexivity | reflexivity]. }
      split; [| reflexivity].
      intros path Hprev Hin. exfalso.
      assert (Htrue : existsb
                (fun change => Js.sameString (Some (change_path change)) previous)
                (first :: rest) = true).
      { apply stillSelected_spec. exists path. split; assumption. }
      congruence.
Qed.

End Selection.

Lemma refresh_selection_witness :
  let s := step plainLibrary (showing oneModified "") Refresh in
  let s2 :=
    run plainLibrary s
      [Settle 0 (Js.Resolved (StatusValue twoModified));
       Settle 1 (Js.Resolved (BranchesValue branchesMain))] in
  pending s !! 0 = Some (RefreshAwaitsStatus Detached)
  /\ status s2 = Some twoModified
  /\ selectedPath s2 = Some "a.txt".
Proof.
  intros s s2.
  assert (Hpending : pending s !! 0 = Some (RefreshAwaitsStatus Detached)).
  { vm_compute. reflexivity. }
  destruct (refresh_selection plainLibrary s 0 Detached twoModified
              (Js.Resolved branchesMain) Hpending)
    as (Hstatus & _ & _ & Hkept & _).
  split; [exact Hpending |]. split; [exact Hstatus |].
  apply (Hkept "a.txt"); [reflexivity | left; reflexivity].
Defined.

(** ** Superseded diff requests *)

Section DiffToken.
Variable lib : DiffLibrary.

(** Whoever awaited the diff, what follows it leaves the diff view, the
    loading flag, the token and the promises already parked alone. *)
Lemma afterLoadDiff_frame (caller : DiffCaller) (s : State) :
  let s' := afterLoadDiff caller s in
  diffContainer s' = diffContainer s
  /\ loadingDiff s' = loadingDiff s
  /\ diffToken s' = diffToken s
  /\ diffInstance s' = diffInstance s
  /\ nextId s <= nextId s'
  /\ (forall id, id < nextId s -> pending s' !! id = pending s !! id).
Proof.
  unfold_handlers. cases; repeat split; try reflexivity; try lia.
  all: intros id Hid; simpl; apply lookup_insert_ne; lia.
Qed.

Lemma loadDiff_issues (caller : DiffCaller) (path : string) (target : GitChange)
    (s : State) :
  diffTarget path s = Some target ->
  exists command,
    loadDiff caller path s
    = invoke command (LoadDiffAwaitsDiff (Js.increment (diffToken s)) caller)
        (set_loadingDiff true (set_diffToken (Js.increment (diffToken s)) s)).
Proof.
  unfold diffTarget, loadDiff. intros Htarget.
  destruct (status s) as [current |]; [| discriminate].
  destruct (Js.truthy (Some (status_repoPath current))); [| discriminate].
  rewrite Htarget. simpl. eexists. reflexivity.
Qed.

Lemma rendered (result : Js.Settled string) (view : DiffView) (s : State) :
  diffContainer s = Some view ->
  diffInstance s = true ->
  match result with
  | Js.Resolved patch => renderDiffFromPatch lib patch s
  | Js.Rejected _ => renderEmpty "Failed to load diff" s
  end = set_diffContainer (Some (shown lib result)) s.
Proof.
  intros Hview Hinstance. unfold renderDiffFromPatch, renderEmpty, shown.
  rewrite Hview, Hinstance. destruct result as [patch | e]; simpl; [| reflexivity].
  destruct (String.eqb (Js.trim patch) ""); [reflexivity |].
  destruct (parsePatchFiles lib patch) as [| [fileDiff |]]; try reflexivity.
  destruct (renderThrows lib fileDiff); reflexivity.
Qed.

Lemma loadDiffSettled_stale (token : Z) (caller : DiffCaller)
    (result : Js.Settled string) (s : State) :
  token <> diffToken s ->
  loadDiffSettled lib token caller result s = afterLoadDiff caller s.
Proof.
  intros Hstale. unfold loadDiffSettled.
  destruct (Z.eqb_spec token (diffToken s)); [contradiction | reflexivity].
Qed.

Lemma loadDiffSettled_current (caller : DiffCaller)
    (result : Js.Settled string) (view : DiffView) (s : State) :
  diffContainer s = Some view ->
  diffInstance s = true ->
  loadDiffSettled lib (diffToken s) caller result s
  = afterLoadDiff caller
      (set_loadingDiff false (set_diffContainer (Some (shown lib result)) s)).
Proof.
  intros Hview Hinstance. unfold loadDiffSettled.
  rewrite Z.eqb_refl. simpl. rewrite (rendered result view s Hview Hinstance).
  reflexivity.
Qed.

Lemma increment_fresh (n : Z) :
  (n + 1 < Js.maxExactInteger)%Z ->
  Js.increment n = (n + 1)%Z /\ Js.increment (Js.increment n) = (n + 2)%Z.
Proof.
  intros Hroom. unfold Js.increment.
  destruct (Z.ltb_spec n Js.maxExactInteger); [| lia].
  destruct (Z.ltb_spec (n + 1) Js.maxExactInteger); [| lia].
  split; lia.
Qed.

(** C2. Two diff requests, A then B before A completes, on a mounted panel
    (tokens [diffToken + 1] and [diffToken + 2]). Whichever settles last,
    and whether they resolve or reject, the container ends up showing B's
    result and the loading flag ends up cleared; A's result is never shown:
    when A settles, before or after B, the container and the loading flag
    stay as they are, and for a request nobody awaits nothing changes at all
    but the promise being gone. Both requests must reach the backend (their
    paths are among the changes) and the counter must be below the largest
    integer a double counts exactly. *)
Theorem superseded_diff_is_discarded (s : State) (callerA callerB : DiffCaller)
    (pathA pathB : string) (targetA targetB : GitChange)
    (resultA resultB : Js.Settled string) (view : DiffView) :
  diffContainer s = Some view ->
  diffInstance s = true ->
  diffTarget pathA s = Some targetA ->
  diffTarget pathB s = Some targetB ->
  (diffToken s + 1 < Js.maxExactInteger)%Z ->
  let idA := nextId s in
  let idB := S (nextId s) in
  let requested := loadDiff callerB pathB (loadDiff callerA pathA s) in
  let afterA := step lib requested (Settle idA (diffResult resultA)) in
  let afterAB := step lib afterA (Settle idB (diffResult resultB)) in
  let afterB := step lib requested (Settle idB (diffResult resultB)) in
  let afterBA := step lib afterB (Settle idA (diffResult resultA)) in
  (pending requested !! idA = Some (LoadDiffAwaitsDiff (diffToken s + 1) callerA)
   /\ pending requested !! idB = Some (LoadDiffAwaitsDiff (diffToken s + 2) callerB)
   /\ diffContainer requested = Some view
   /\ loadingDiff requested = true)
  /\ (diffContainer afterA = Some view /\ loadingDiff afterA = true
      /\ (callerA = DiffDetached ->
          afterA = set_pending (delete idA (pending requested)) requested))
  /\ (diffContainer afterAB = Some (shown lib resultB)
      /\ loadingDiff afterAB = false)
  /\ (diffContainer afterB = Some (shown lib resultB)
      /\ loadingDiff afterB = false)
  /\ (diffContainer afterBA = Some (shown lib resultB)
      /\ loadingDiff afterBA = false
      /\ (callerA = DiffDetached ->
          afterBA = set_pending (delete idA (pending afterB)) afterB)).
Proof.
  intros Hview Hinstance HtargetA HtargetB Hroom idA idB requested afterA
    afterAB afterB afterBA.
  destruct (increment_fresh (diffToken s) Hroom) as (HtokA & HtokB).
  destruct (loadDiff_issues callerA pathA targetA s HtargetA) as (commandA & HA).
  set (sA := loadDiff callerA pathA s) in *.
  assert (HtargetB' : diffTarget pathB sA = Some targetB).
  { rewrite HA. exact HtargetB. }
  destruct (loadDiff_issues callerB pathB targetB sA HtargetB') as (commandB & HB).
  assert (HtokenA : diffToken sA = (diffToken s + 1)%Z).
  { rewrite HA. simpl. exact HtokA. }
  assert (Hreq : requested
                 = invoke commandB (LoadDiffAwaitsDiff (diffToken s + 2) callerB)
                     (set_loadingDiff true (set_diffToken (diffToken s + 2) sA))).
  { unfold requested. rewrite HB, HtokenA, <- HtokA, HtokB. reflexivity. }
  assert (HnextA : nextId sA = S (nextId s)).
  { rewrite HA. reflexivity. }
  assert (HpendA : pending requested !! idA
                   = Some (LoadDiffAwaitsDiff (diffToken s + 1) callerA)).
  { rewrite Hreq. simpl. rewrite HnextA, lookup_insert_ne by (unfold idA; lia).
    rewrite HA. simpl. rewrite HtokA. apply lookup_insert_eq. }
  assert (HpendB : pending requested !! idB
                   = Some (LoadDiffAwaitsDiff (diffToken s + 2) callerB)).
  { rewrite Hreq. simpl. rewrite HnextA. apply lookup_insert_eq. }
  assert (HviewR : diffContainer requested = Some view).
  { rewrite Hreq, HA. exact Hview. }
  assert (HinstR : diffInstance requested = true).
  { rewrite Hreq, HA. exact Hinstance. }
  assert (HtokR : diffToken requested = (diffToken s + 2)%Z).
  { rewrite Hreq. reflexivity. }
  assert (HnextR : nextId requested = S (S (nextId s))).
  { rewrite Hreq. simpl. rewrite HnextA. reflexivity. }
  assert (HloadR : loadingDiff requested = true).
  { rewrite Hreq. reflexivity. }
  (* A settles first: its token is stale *)
  set (xA := set_pending (delete idA (pending requested)) requested).
  assert (HafterA : afterA = afterLoadDiff callerA xA).
  { unfold afterA. rewrite step_settle.
    rewrite (settle_resumes lib requested _ idA _ _ HpendA (resume_diff lib _ _ _ _)).
    apply loadDiffSettled_stale. unfold xA. simpl. rewrite HtokR. lia. }
  destruct (afterLoadDiff_frame callerA xA) as (HcA & HlA & HtA & HiA & _ & HpA).
  rewrite <- HafterA in HcA, HlA, HtA, HiA, HpA.
  assert (HpendB' : pending afterA !! idB
                    = Some (LoadDiffAwaitsDiff (diffToken s + 2) callerB)).
  { rewrite HpA by (unfold xA, idB; simpl; rewrite HnextR; lia).
    unfold xA. simpl. rewrite lookup_delete_ne by (unfold idA, idB; lia).
    exact HpendB. }
  (* then B: its token is the current one *)
  set (xAB := set_pending (delete idB (pending afterA)) afterA).
  assert (HafterAB : afterAB
            = afterLoadDiff callerB
                (set_loadingDiff false
                   (set_diffContainer (Some (shown lib resultB)) xAB))).
  { unfold afterAB. rewrite step_settle.
    rewrite (settle_resumes lib afterA _ idB _ _ HpendB' (resume_diff lib _ _ _ _)).
    replace (diffToken s + 2)%Z with (diffToken xAB)
      by (unfold xAB; simpl; rewrite HtA; unfold xA; simpl; exact HtokR).
    apply loadDiffSettled_current with (view := view).
    - unfold xAB. simpl. rewrite HcA. unfold xA. simpl. exact HviewR.
    - unfold xAB. simpl. rewrite HiA. unfold xA. simpl. exact HinstR. }
  destruct (afterLoadDiff_frame callerB
              (set_loadingDiff false
                 (set_diffContainer (Some (shown lib resultB)) xAB)))
    as (HcAB & HlAB & _).
  rewrite <- HafterAB in HcAB, HlAB.
  (* B settles first *)
  set (xB := set_pending (delete idB (pending requested)) requested).
  assert (HafterB : afterB
            = afterLoadDiff callerB
                (set_loadingDiff false
                   (set_diffContainer (Some (shown lib resultB)) xB))).
  { unfold afterB. rewrite step_settle.
    rewrite (settle_resumes lib requested _ idB _ _ HpendB (resume_diff lib _ _ _ _)).
    replace (diffToken s + 2)%Z with (diffToken xB)
      by (unfold xB; simpl; exact HtokR).
    apply loadDiffSettled_current with (view := view).
    - unfold xB. simpl. exact HviewR.
    - unfold xB. simpl. exact HinstR. }
  destruct (afterLoadDiff_frame callerB
              (set_loadingDiff false
                 (set_diffContainer (Some (shown lib resultB)) xB)))
    as (HcB & HlB & HtB & _ & _ & HpB).
  rewrite <- HafterB in HcB, HlB, HtB, HpB.
  assert (HpendA' : pending afterB !! idA
                    = Some (LoadDiffAwaitsDiff (diffToken s + 1) callerA)).
  { rewrite HpB by (unfold xB, idA; simpl; rewrite HnextR; lia).
    unfold xB. simpl. rewrite lookup_delete_ne by (unfold idA, idB; lia).
    exact HpendA. }
  (* then A: stale *)
  set (xBA := set_pending (delete idA (pending afterB)) afterB).
  assert (HafterBA : afterBA = afterLoadDiff callerA xBA).
  { unfold afterBA. rewrite step_settle.
    rewrite (settle_resumes lib afterB _ idA _ _ HpendA' (resume_diff lib _ _ _ _)).
    apply loadDiffSettled_stale. unfold xBA. simpl. rewrite HtB. unfold xB.
    simpl. rewrite HtokR. lia. }
  destruct (afterLoadDiff_frame callerA xBA) as (HcBA & HlBA & _).
  rewrite <- HafterBA in HcBA, HlBA.
  split; [auto |].
  split.
  { split; [rewrite HcA; exact HviewR |].
    split; [rewrite HlA; exact HloadR |].
    intros ->. exact HafterA. }
  split.
  { split; [rewrite HcAB | rewrite HlAB]; reflexivity. }
  split.
  { split; [rewrite HcB | rewrite HlB]; reflexivity. }
  split; [rewrite HcBA; unfold xBA; simpl; rewrite HcB; reflexivity |].
  split; [rewrite HlBA; unfold xBA; simpl; rewrite HlB; reflexivity |].
  intros ->. exact HafterBA.
Qed.

End DiffToken.

Lemma superseded_diff_is_discarded_witness :
  let s := showing twoModified "" in
  let requested := loadDiff DiffDetached "b.txt" (loadDiff DiffDetached "a.txt" s) in
  let afterBA :=
    run plainLibrary requested
      [Settle 1 (Js.Resolved (PatchValue "patch of b.txt"));
       Settle 0 (Js.Resolved (PatchValue "patch of a.txt"))] in
  (diffContainer s = Some (TextContent "") /\ diffInstance s = true
   /\ diffTarget "a.txt" s = Some (mkGitChange "a.txt" "M" false true false)
   /\ diffTarget "b.txt" s = Some (mkGitChange "b.txt" "??" false false true)
   /\ (diffToken s + 1 < Js.maxExactInteger)%Z)
  /\ diffContainer afterBA = Some (FileDiffView "patch of b.txt")
  /\ loadingDiff afterBA = false.
Proof.
  intros s requested afterBA.
  assert (Hroom : (diffToken s + 1 < Js.maxExactInteger)%Z).
  { vm_compute. reflexivity. }
  destruct (superseded_diff_is_discarded plainLibrary s DiffDetached
              DiffDetached "a.txt" "b.txt" _ _
              (Js.Resolved "patch of a.txt") (Js.Resolved "patch of b.txt")
              (TextContent "") eq_refl eq_refl eq_refl eq_refl Hroom)
    as (_ & _ & _ & _ & Hshown & Hloading & _).
  split; [repeat split; try reflexivity; exact Hroom |].
  split; [exact Hshown | exact Hloading].
Defined.

(** ** Bursts of refresh calls *)

Section Burst.
Variable lib : DiffLibrary.

Ltac count_calls :=
  unfold calls; simpl; rewrite ?List.filter_app, ?length_app; simpl; lia.

Ltac settle_goal := simpl; first [reflexivity | assumption | count_calls].

Ltac pick_move :=
  first
    [ apply Stays; reflexivity
    | eapply GoesOn; cycle 2;
      [ simpl; first [reflexivity | apply insert_empty]
      | settle_goal | settle_goal | settle_goal | reflexivity | discriminate ]
    | apply Ends; settle_goal
    | apply Restarts; settle_goal ].

Lemma cycle_moves (s : State) (id id' : nat) (k : Continuation)
    (result : Js.Settled Response) :
  refreshInFlight s = true ->
  pending s = {[id := k]} ->
  isCycle k = true ->
  Move s (settle lib id' result s).
Proof.
  intros Hin Hpending Hcycle. unfold settle. rewrite Hpending.
  destruct (decide (id' = id)) as [-> | Hne].
  2: { rewrite lookup_singleton_ne by congruence. apply Stays. reflexivity. }
  rewrite lookup_singleton_eq, delete_singleton_eq.
  destruct k as [[] | nextStatus [] | token [| []] | | | |]; try discriminate;
    destruct result as [[] | e]; simpl; try (apply Stays; reflexivity).
  all: unfold_handlers; unfold Js.truthy.
  all: cases.
  all: pick_move.
Qed.

Lemma cycle_keeps_status (s : State) (id id' : nat) (k : Continuation)
    (result : Js.Settled Response) :
  pending s = {[id := k]} ->
  isCycle k = true ->
  k <> RefreshAwaitsStatus Detached ->
  status (settle lib id' result s) = status s
  /\ (refreshQueued s = false -> error (settle lib id' result s) = error s).
Proof.
  intros Hpending Hcycle Hk. unfold settle. rewrite Hpending.
  destruct (decide (id' = id)) as [-> | Hne].
  2: { rewrite lookup_singleton_ne by congruence. split; reflexivity. }
  rewrite lookup_singleton_eq, delete_singleton_eq.
  destruct k as [[] | nextStatus [] | token [| []] | | | |]; try discriminate;
    try contradiction;
    destruct result as [[] | e]; simpl; try (split; reflexivity).
  all: unfold_handlers; unfold Js.truthy.
  all: cases; split; try reflexivity; try assumption; try congruence.
Qed.

Lemma status_resolved (s : State) (id : nat) (fetched : GitStatusResponse) :
  pending s = {[id := RefreshAwaitsStatus Detached]} ->
  refreshInFlight s = true ->
  let s' := settle lib id (Js.Resolved (StatusValue fetched)) s in
  status s' = Some fetched
  /\ pending s' = {[nextId s := RefreshAwaitsBranches fetched Detached]}
  /\ refreshInFlight s' = true
  /\ refreshQueued s' = refreshQueued s
  /\ calls isStatusCall s' = calls isStatusCall s.
Proof.
  intros Hpending Hin. unfold settle.
  rewrite Hpending, lookup_singleton_eq, delete_singleton_eq. simpl.
  split; [reflexivity |]. split; [apply insert_empty |].
  split; [exact Hin |]. split; [reflexivity |]. count_calls.
Qed.

Lemma status_rejected (s : State) (id : nat) (e : Js.Thrown) :
  pending s = {[id := RefreshAwaitsStatus Detached]} ->
  refreshQueued s = false ->
  let s' := settle lib id (Js.Rejected e) s in
  status s' = status s
  /\ error s' = Some (Js.messageOr "Failed to load git status" e)
  /\ pending s' = ∅
  /\ refreshInFlight s' = false.
Proof.
  intros Hpending Hqueued. unfold settle.
  rewrite Hpending, lookup_singleton_eq, delete_singleton_eq. simpl.
  unfold_handlers. cases; try congruence; repeat split; reflexivity.
Qed.

Lemma refresh_in_flight (s : State) :
  refreshInFlight s = true -> step lib s Refresh = set_refreshQueued true s.
Proof. intros Hin. simpl. unfold refresh. rewrite Hin. reflexivity. Qed.

Lemma burst_app (before : nat) (s : State) (earlier later : list Event) :
  burst lib before s (earlier ++ later)
  = burst lib before s earlier && burst lib before (run lib s earlier) later.
Proof.
  revert s. induction earlier as [| e earlier IH]; intros s; simpl.
  - reflexivity.
  - rewrite IH, andb_assoc. reflexivity.
Qed.

Lemma run_app (s : State) (earlier later : list Event) :
  run lib s (earlier ++ later) = run lib (run lib s earlier) later.
Proof. apply fold_left_app. Qed.

Lemma quiet_settle (s : State) (id : nat) (result : Js.Settled Response) :
  pending s = ∅ -> settle lib id result s = s.
Proof. intros Hnone. apply settle_unknown. rewrite Hnone. apply lookup_empty. Qed.

Lemma tracked_step (before : nat) (seen : bool) (s : State) (e : Event) :
  Tracked before seen s ->
  allowed before s e = true ->
  Tracked before (seen || isRefresh e) (step lib s e).
Proof.
  intros Htracked Hallowed.
  destruct e; try discriminate; simpl isRefresh.
  - (* a further refresh(): only the first cycle takes it *)
    unfold allowed, firstInFlight in Hallowed.
    apply andb_prop in Hallowed as (Hin & Hcalls).
    apply Nat.eqb_eq in Hcalls.
    rewrite orb_true_r, refresh_in_flight by exact Hin.
    destruct Htracked as [(Hcycle & Hc & Hq) | [(_ & _ & Hc & _) | [(_ & _ & Hc) | (_ & (Hidle & _) & _)]]];
      try lia; try congruence.
    left. split; [exact Hcycle |]. split; [exact Hc | reflexivity].
  - (* a promise settles *)
    rewrite orb_false_r, step_settle.
    destruct Htracked as [((Hin & id0 & k & Hp & Hk) & Hc & Hq) | [(Hseen & (Hin & id0 & k & Hp & Hk) & Hc & Hq) | [(Hseen & (Hin & Hq & Hp) & Hc) | (Hseen & (Hin & Hq & Hp) & Hc)]]].
    + destruct (cycle_moves s id0 id k result Hin Hp Hk)
        as [-> | k' Hk' _ Hp' Hin' Hq' Hc' | Hq0 Hp' Hin' Hq' Hc' | Hq0 Hp' Hin' Hq' Hc'].
      * left. split; [split; eauto |]. split; assumption.
      * left. split; [split; eauto |]. split; congruence.
      * right. right. right. split; [congruence |].
        split; [split; [| split]; assumption | congruence].
      * right. left. split; [congruence |].
        split; [split; eauto |]. split; [congruence | assumption].
    + destruct (cycle_moves s id0 id k result Hin Hp Hk)
        as [-> | k' Hk' _ Hp' Hin' Hq' Hc' | Hq0 Hp' Hin' Hq' Hc' | Hq0 Hp' Hin' Hq' Hc'].
      * right. left. split; [exact Hseen |]. split; [split; eauto |]. split; assumption.
      * right. left. split; [exact Hseen |]. split; [split; eauto |]. split; congruence.
      * right. right. left. split; [exact Hseen |].
        split; [split; [| split]; assumption | congruence].
      * congruence.
    + rewrite quiet_settle by exact Hp. right. right. left.
      split; [exact Hseen |]. split; [split; [| split]; assumption | exact Hc].
    + rewrite quiet_settle by exact Hp. right. right. right.
      split; [exact Hseen |]. split; [split; [| split]; assumption | exact Hc].
Qed.

Lemma burst_cons (before : nat) (s : State) (e : Event) (rest : list Event) :
  burst lib before s (e :: rest)
  = allowed before s e && burst lib before (step lib s e) rest.
Proof. reflexivity. Qed.

Lemma tracked_run (before : nat) (events : list Event) :
  forall (seen : bool) (s : State),
  Tracked before seen s ->
  burst lib before s events = true ->
  Tracked before (seen || existsb isRefresh events) (run lib s events).
Proof.
  induction events as [| e rest IH]; intros seen s Htracked Hburst.
  - simpl. rewrite orb_false_r. exact Htracked.
  - rewrite burst_cons in Hburst. apply andb_prop in Hburst as (Hallowed & Hrest).
    simpl existsb. rewrite orb_assoc.
    apply (IH (seen || isRefresh e) (step lib s e)); [| exact Hrest].
    apply tracked_step; assumption.
Qed.

Lemma not_first_in_flight (before : nat) (s : State) :
  calls isStatusCall s = S (S before) -> firstInFlight before s = false.
Proof.
  intros Hcalls. unfold firstInFlight. rewrite Hcalls.
  destruct (Nat.eqb_spec (S (S before)) (S before)); [lia |].
  apply andb_false_r.
Qed.

Lemma delivered_run (before : nat) (fetched : GitStatusResponse)
    (events : list Event) :
  forall s : State,
  Delivered before fetched s ->
  burst lib before s events = true ->
  Delivered before fetched (run lib s events).
Proof.
  induction events as [| e rest IH]; intros s Hdelivered Hburst; [exact Hdelivered |].
  rewrite burst_cons in Hburst. apply andb_prop in Hburst as (Hallowed & Hrest).
  apply (IH (step lib s e)); [| exact Hrest]. clear IH Hrest.
  destruct Hdelivered as (Hstatus & Hcalls & Hqueued & Hpending).
  destruct e; try discriminate.
  - simpl in Hallowed. rewrite (not_first_in_flight before s Hcalls) in Hallowed.
    discriminate.
  - rewrite step_settle.
    destruct Hpending as [Hnone | (id0 & k & Hp & Hk & Hnot & Hin)].
    + rewrite quiet_settle by exact Hnone.
      split; [exact Hstatus |]. split; [exact Hcalls |]. split; [exact Hqueued |].
      left. exact Hnone.
    + destruct (cycle_keeps_status s id0 id k result Hp Hk Hnot) as (Hkeep & _).
      split; [congruence |].
      destruct (cycle_moves s id0 id k result Hin Hp Hk)
        as [-> | k' Hk' Hnot' Hp' Hin' Hq' Hc' | Hq0 Hp' Hin' Hq' Hc' | Hq0 Hp' Hin' Hq' Hc'].
      * split; [exact Hcalls |]. split; [exact Hqueued |]. right. eauto 8.
      * split; [congruence |]. split; [congruence |]. right. eauto 8.
      * split; [congruence |]. split; [assumption |]. left. assumption.
      * congruence.
Qed.

Lemma quiet_run (before : nat) (events : list Event) (s : State) :
  refreshInFlight s = false ->
  pending s = ∅ ->
  burst lib before s events = true ->
  run lib s events = s.
Proof.
  intros Hidle Hnone.
  induction events as [| e rest IH]; intros Hburst; [reflexivity |].
  rewrite burst_cons in Hburst. apply andb_prop in Hburst as (Hallowed & Hrest).
  assert (Hstep : step lib s e = s).
  { destruct e; try discriminate.
    - simpl in Hallowed. unfold firstInFlight in Hallowed.
      rewrite Hidle in Hallowed. discriminate.
    - rewrite step_settle. apply quiet_settle. exact Hnone. }
  simpl. rewrite Hstep in *. apply IH. exact Hrest.
Qed.

Lemma singleton_lookup (id id' : nat) (k k' : Continuation) :
  ({[id := k]} : gmap nat Continuation) !! id' = Some k' -> id' = id /\ k' = k.
Proof.
  intros Hlookup. apply lookup_singleton_Some in Hlookup as (-> & ->).
  split; reflexivity.
Qed.

(** C1, amended. A burst: one [refresh()] on an idle panel, then any events
    made of further [refresh()] calls, each arriving while that first cycle
    is in flight and at least one of them, and of promises settling. At
    every point of the burst one or two [git_status] calls have been made,
    and as soon as the first cycle is over exactly two: the first and the
    one follow-up, which starts when the first cycle ends and so after every
    call of the burst. When the follow-up's status call resolves, what it
    returns is the status shown at the end; when it fails, the status shown
    before stays and the failure message is recorded. *)
Theorem refresh_burst_coalesced (s0 : State) (events : list Event) :
  refreshInFlight s0 = false ->
  refreshQueued s0 = false ->
  pending s0 = ∅ ->
  let before := calls isStatusCall s0 in
  let first := step lib s0 Refresh in
  burst lib before first events = true ->
  existsb isRefresh events = true ->
  let final := run lib first events in
  (before + 1 <= calls isStatusCall final <= before + 2)
  /\ (firstInFlight before final = false ->
      calls isStatusCall final = before + 2)
  /\ (forall earlier id result later,
        events = (earlier ++ Settle id result :: later)%list ->
        pending (run lib first earlier) !! id = Some (RefreshAwaitsStatus Detached) ->
        calls isStatusCall (run lib first earlier) = before + 2 ->
        match result with
        | Js.Resolved (StatusValue fetched) => status final = Some fetched
        | Js.Rejected e =>
            status final = status (run lib first earlier)
            /\ error final = Some (Js.messageOr "Failed to load git status" e)
        | _ => True
        end).
Proof.
  intros Hidle Hqueued Hnone before first Hburst Hseen final.
  assert (Hfirst : Tracked before false first).
  { left. unfold first. simpl. unfold refresh. rewrite Hidle.
    split; [split; [reflexivity |] |].
    - exists (nextId s0), (RefreshAwaitsStatus Detached). simpl. rewrite Hnone.
      split; [apply insert_empty | reflexivity].
    - split; [| exact Hqueued].
      rewrite calls_invoke. reflexivity. }
  assert (Htrack : forall earlier later, events = (earlier ++ later)%list ->
            exists seen, Tracked before seen (run lib first earlier)
                         /\ burst lib before (run lib first earlier) later = true).
  { intros earlier later ->. rewrite burst_app in Hburst.
    apply andb_prop in Hburst as (Hearlier & Hlater).
    eexists. split; [| exact Hlater].
    apply tracked_run; [exact Hfirst | exact Hearlier]. }
  pose proof (tracked_run before events false first Hfirst Hburst) as Hfinal.
  fold final in Hfinal. rewrite Hseen in Hfinal. simpl in Hfinal.
  split; [| split].
  - destruct Hfinal as [(_ & Hc & _) | [(_ & _ & Hc & _) | [(_ & _ & Hc) | (? & _)]]];
      try discriminate; lia.
  - intros Hover.
    destruct Hfinal as [((Hin & _) & Hc & _) | [(_ & _ & Hc & _) | [(_ & _ & Hc) | (? & _)]]];
      try discriminate; try lia.
    unfold firstInFlight in Hover. rewrite Hin, Hc, Nat.eqb_refl in Hover.
    discriminate.
  - intros earlier id result later Hsplit Hpending Hcalls.
    destruct (Htrack earlier _ Hsplit) as (seen & Htracked & Hlater).
    rewrite burst_cons in Hlater. apply andb_prop in Hlater as (_ & Hlater).
    assert (Hfinal' : final = run lib (step lib (run lib first earlier) (Settle id result)) later).
    { unfold final. rewrite Hsplit, run_app. reflexivity. }
    set (s := run lib first earlier) in *.
    assert (Hfollow : pending s = {[id := RefreshAwaitsStatus Detached]}
                      /\ refreshQueued s = false /\ refreshInFlight s = true).
    { destruct Htracked as [(_ & Hc & _) | [(_ & (Hin & id0 & k & Hp & _) & _ & Hq) | [(_ & (_ & _ & Hp) & _) | (_ & _ & Hc)]]];
        try lia.
      - rewrite Hp in Hpending. apply singleton_lookup in Hpending as (-> & ->).
        auto.
      - rewrite Hp, lookup_empty in Hpending. discriminate. }
    destruct Hfollow as (Hp & Hq & Hin).
    destruct result as [[fetched | | |] | e]; try exact I.
    + (* the follow-up's status arrives *)
      rewrite Hfinal'.
      apply (delivered_run before fetched later); [| exact Hlater].
      rewrite step_settle.
      destruct (status_resolved s id fetched Hp Hin)
        as (Hst & Hp' & Hin' & Hq' & Hc').
      split; [exact Hst |]. split; [lia |]. split; [congruence |].
      right. exists (nextId s), (RefreshAwaitsBranches fetched Detached).
      split; [exact Hp' |]. split; [reflexivity |]. split; [discriminate | exact Hin'].
    + (* the follow-up's status call fails *)
      destruct (status_rejected s id e Hp Hq) as (Hst & Herr & Hnone' & Hidle').
      rewrite Hfinal', step_settle.
      rewrite (quiet_run before later _ Hidle' Hnone' ltac:(rewrite <- step_settle; exact Hlater)).
      split; assumption.
Qed.

End Burst.

(** C1 as stated fails: three further calls arrive during the first cycle,
    the first cycle shows [oneStaged] (promise 0, the call made before the
    three arrived), and the follow-up's status call (promise 3) fails. Two
    status calls were made, but the status shown at the end is still the one
    fetched before the burst's later calls; no status fetched after them
    was delivered. *)
Lemma burst_with_failing_follow_up :
  let s0 := showing oneModified "" in
  let first := step plainLibrary s0 Refresh in
  let final := run plainLibrary first failingBurstEvents in
  burst plainLibrary (calls isStatusCall s0) first failingBurstEvents = true
  /\ existsb isRefresh failingBurstEvents = true
  /\ calls isStatusCall final = 2
  /\ refreshInFlight final = false
  /\ pending final = ∅
  /\ status final = Some oneStaged
  /\ error final = Some "Failed to load git status"
  /\ (forall id fetched,
        In (Settle id (Js.Resolved (StatusValue fetched))) failingBurstEvents ->
        id = 0 /\ fetched = oneStaged).
Proof.
  intros s0 first final.
  split; [vm_compute; reflexivity |]. split; [reflexivity |].
  split; [vm_compute; reflexivity |]. split; [vm_compute; reflexivity |].
  split; [vm_compute; reflexivity |]. split; [vm_compute; reflexivity |].
  split; [vm_compute; reflexivity |].
  intros id fetched Hin. unfold failingBurstEvents in Hin. simpl in Hin.
  repeat (destruct Hin as [Hin | Hin]; [try discriminate |]); try contradiction.
  inversion Hin. split; reflexivity.
Qed.

Lemma refresh_burst_coalesced_witness :
  let s0 := showing oneModified "" in
  let first := step plainLibrary s0 Refresh in
  let final := run plainLibrary first burstEvents in
  (refreshInFlight s0 = false /\ refreshQueued s0 = false /\ pending s0 = ∅
   /\ burst plainLibrary (calls isStatusCall s0) first burstEvents = true
   /\ existsb isRefresh burstEvents = true)
  /\ calls isStatusCall final = 2
  /\ status final = Some twoModified.
Proof.
  intros s0 first final.
  assert (Hburst : burst plainLibrary (calls isStatusCall s0) first burstEvents
                   = true).
  { vm_compute. reflexivity. }
  destruct (refresh_burst_coalesced plainLibrary s0 burstEvents eq_refl eq_refl
              eq_refl Hburst eq_refl) as (_ & Hover & Hshown).
  split; [repeat split; try reflexivity; exact Hburst |].
  split.
  - apply Hover. vm_compute. reflexivity.
  - apply (Hshown
             [Refresh; Settle 0 (Js.Resolved (StatusValue oneStaged)); Refresh;
              Settle 1 (Js.Resolved (BranchesValue branchesMain)); Refresh;
              Settle 2 (Js.Resolved (PatchValue "patch of a.txt"))]
             3 (Js.Resolved (StatusValue twoModified))
             [Settle 4 (Js.Resolved (BranchesValue branchesMain));
              Settle 5 (Js.Resolved (PatchValue "patch of a.txt"))]).
    + reflexivity.
    + vm_compute. reflexivity.
    + vm_compute. reflexivity.
Defined.

End GitPanelFacts.

(** * Properties of the terminal pane *)

Module TerminalPaneFacts.
Import TerminalPane.

Ltac break_match :=
  match goal with
  | |- context [match ?x with _ => _ end] =>
      first [ is_var x; destruct x | destruct x eqn:? ]
  end.

Ltac unfold_pane :=
  unfold onMounted, mountedGhosttyReady, mountedListenData, mountedListenExit,
    mountedOpened, activeChanged, zoomKeyPressed, setTerminalFontSize,
    fitTerminal, fit, resizeTerminal, onResize, setResizeTimeout,
    timeoutFired, resizeTimeoutCallback, syncPtySize, onData, onTitleChange,
    onTerminalData, onTerminalExit, onBeforeUnmount, unmountClosed,
    clearTimeout, invoke.

Lemma timers_same (s s' : State) :
  timeouts s' = timeouts s -> resizeDebounce s' = resizeDebounce s ->
  TimerInv s -> TimerInv s'.
Proof. unfold TimerInv. intros -> ->. auto. Qed.

Lemma cleared (s : State) :
  TimerInv s ->
  timeouts (match resizeDebounce s with
            | Some id => clearTimeout id s
            | None => s
            end) = ∅.
Proof.
  intros Hinv. apply map_empty. intros id.
  destruct (resizeDebounce s) as [held |] eqn:Hheld; simpl.
  - destruct (decide (id = held)) as [-> | Hne].
    + apply lookup_delete_eq.
    + rewrite lookup_delete_ne by congruence.
      destruct (timeouts s !! id) as [size |] eqn:Hlookup; [| reflexivity].
      apply Hinv in Hlookup. congruence.
  - destruct (timeouts s !! id) as [size |] eqn:Hlookup; [| reflexivity].
    apply Hinv in Hlookup. congruence.
Qed.

Lemma onResize_timers (c r : Z) (s : State) :
  TimerInv s -> TimerInv (onResize c r s).
Proof.
  intros Hinv id size. unfold onResize, setResizeTimeout. simpl.
  assert (Hnext : nextTimer (match resizeDebounce s with
                             | Some held => clearTimeout held s
                             | None => s
                             end) = nextTimer s).
  { destruct (resizeDebounce s); reflexivity. }
  rewrite (cleared s Hinv), Hnext.
  intros Hlookup. apply lookup_insert_Some in Hlookup as [(<- & _) | (_ & Hlookup)].
  - reflexivity.
  - rewrite lookup_empty in Hlookup. discriminate.
Qed.

Lemma resizeTerminal_timers (c r : Z) (s : State) :
  TimerInv s -> TimerInv (resizeTerminal c r s).
Proof.
  intros Hinv. unfold resizeTerminal.
  repeat break_match; try exact Hinv.
  apply onResize_timers. exact Hinv.
Qed.

Lemma fit_timers (measured : option (Z * Z)) (s : State) :
  TimerInv s -> TimerInv (fit measured s).
Proof.
  intros Hinv. unfold fit. repeat break_match; try exact Hinv.
  apply resizeTerminal_timers. exact Hinv.
Qed.

Lemma fitTerminal_timers (force : bool) (measured : option (Z * Z)) (s : State) :
  TimerInv s -> TimerInv (fitTerminal force measured s).
Proof.
  intros Hinv. unfold fitTerminal. repeat break_match; try exact Hinv.
  - apply (timers_same (fit measured s)); [reflexivity .. |].
    apply fit_timers. exact Hinv.
  - apply fit_timers. exact Hinv.
Qed.

Lemma setTerminalFontSize_timers (next : Z) (measured : option (Z * Z))
    (s : State) :
  TimerInv s -> TimerInv (setTerminalFontSize next measured s).
Proof.
  intros Hinv. unfold setTerminalFontSize. repeat break_match; try exact Hinv.
  apply fitTerminal_timers. exact Hinv.
Qed.

Lemma timeoutFired_timers (id : nat) (s : State) :
  TimerInv s -> TimerInv (timeoutFired id s).
Proof.
  intros Hinv. unfold timeoutFired.
  destruct (timeouts s !! id) as [[c r] |] eqn:Hfired; [| exact Hinv].
  intros id' size. simpl. intros Hlookup.
  apply lookup_delete_Some in Hlookup as (Hne & Hlookup).
  apply Hinv in Hlookup. apply Hinv in Hfired. congruence.
Qed.

Lemma onBeforeUnmount_clears (s : State) :
  TimerInv s -> timeouts (onBeforeUnmount s) = ∅.
Proof.
  intros Hinv. unfold onBeforeUnmount.
  pose proof (cleared s Hinv) as Hcleared.
  set (s1 := match resizeDebounce s with
             | Some id => clearTimeout id s
             | None => s
             end) in *.
  destruct (unlistenData s1); simpl; destruct (unlistenExit _); simpl;
    exact Hcleared.
Qed.

Ltac untouched Hinv :=
  first [ exact Hinv
        | refine (timers_same _ _ _ _ Hinv); reflexivity ].

Lemma mountedOpened_timers (shell : string) (measured : option (Z * Z))
    (s : State) :
  TimerInv s -> TimerInv (mountedOpened shell measured s).
Proof.
  intros Hinv. unfold mountedOpened.
  set (s1 := set_emitted _ s).
  assert (H1 : TimerInv (fitTerminal true measured s1)).
  { apply fitTerminal_timers. untouched Hinv. }
  repeat break_match; untouched H1.
Qed.

Lemma activeChanged_timers (isActive : bool) (measured : option (Z * Z))
    (s : State) :
  TimerInv s -> TimerInv (activeChanged isActive measured s).
Proof.
  intros Hinv. unfold activeChanged.
  destruct (_ || _); [exact Hinv |].
  set (s1 := set_propActive isActive s).
  assert (H1 : TimerInv (fitTerminal true measured s1)).
  { apply fitTerminal_timers. untouched Hinv. }
  repeat break_match; first [untouched H1 | untouched Hinv].
Qed.

Lemma zoomKeyPressed_timers (key : ZoomKey) (measured : option (Z * Z))
    (s : State) :
  TimerInv s -> TimerInv (zoomKeyPressed key measured s).
Proof.
  intros Hinv. unfold zoomKeyPressed.
  repeat break_match; try exact Hinv; apply setTerminalFontSize_timers;
    exact Hinv.
Qed.

Lemma onBeforeUnmount_timers (s : State) :
  TimerInv s -> TimerInv (onBeforeUnmount s).
Proof.
  intros Hinv id size. rewrite (onBeforeUnmount_clears s Hinv), lookup_empty.
  discriminate.
Qed.

Lemma step_timers (s : State) (e : Event) :
  TimerInv s -> TimerInv (step s e).
Proof.
  intros Hinv. destruct e; simpl.
  - destruct (stage s); untouched Hinv.
  - destruct (stage s); untouched Hinv.
  - destruct (stage s), ok; untouched Hinv.
  - destruct (stage s); try exact Hinv. destruct result; [| untouched Hinv].
    apply mountedOpened_timers. exact Hinv.
  - apply activeChanged_timers. exact Hinv.
  - destruct (terminalAlive s); untouched Hinv.
  - destruct (terminalAlive s); [| exact Hinv].
    apply zoomKeyPressed_timers. exact Hinv.
  - destruct (_ && _); [| exact Hinv]. apply fit_timers. exact Hinv.
  - destruct (terminalAlive s); untouched Hinv.
  - apply timeoutFired_timers. exact Hinv.
  - destruct (listeningData s); [| exact Hinv]. unfold onTerminalData.
    repeat break_match; untouched Hinv.
  - destruct (listeningExit s); [| exact Hinv]. unfold onTerminalExit.
    repeat break_match; untouched Hinv.
  - destruct (stage s); try exact Hinv; destruct (unmounted s); try exact Hinv;
      refine (timers_same (onBeforeUnmount s) _ _ _ _); try reflexivity;
      apply onBeforeUnmount_timers; exact Hinv.
  - destruct (unmounted s); [| exact Hinv]. unfold unmountClosed.
    repeat break_match; untouched Hinv.
Qed.

Lemma run_timers (events : list Event) :
  forall s : State, TimerInv s -> TimerInv (run s events).
Proof.
  induction events as [| e rest IH]; intros s Hinv; [exact Hinv |].
  simpl. apply IH, step_timers, Hinv.
Qed.

Lemma initial_timers (tabId : string) (active : bool) :
  TimerInv (initial tabId active).
Proof. intros id size. simpl. rewrite lookup_empty. discriminate. Qed.




















(** Writing to a terminal changes it. *)
Lemma write_changes (data : string) (t : Terminal) : write data t <> t.
Proof.
  intros Hsame. apply (f_equal written) in Hsame. simpl in Hsame.
  apply (f_equal length) in Hsame. rewrite length_app in Hsame. simpl in Hsame.
  lia.
Qed.

Lemma step_pane (tabId : string) (s : State) (e : Event) :
  PaneInv tabId s -> PaneInv tabId (step s e).
Proof.
  intros (Htab & Htimers & Hterminal).
  split; [| split; [apply step_timers; exact Htimers |]].
  - rewrite <- Htab. destruct e; simpl; unfold_pane; repeat break_match;
      reflexivity.
  - destruct e; simpl; unfold_pane; repeat break_match; simpl; intros Hnone;
      try discriminate; try congruence.
    all: destruct (Hterminal ltac:(congruence)) as (Hdata & Hexit & Hstage).
    all: try (destruct Hstage; congruence).
    all: try (repeat split; first [assumption | congruence | right; reflexivity]).
Qed.

Lemma run_pane (tabId : string) (events : list Event) :
  forall s : State, PaneInv tabId s -> PaneInv tabId (run s events).
Proof.
  induction events as [| e rest IH]; intros s Hinv; [exact Hinv |].
  simpl. apply IH, step_pane, Hinv.
Qed.

Lemma initial_pane (tabId : string) (active : bool) :
  PaneInv tabId (initial tabId active).
Proof.
  split; [reflexivity |]. split; [apply initial_timers |].
  intros _. simpl. auto.
Qed.

(** C6. Whatever has happened to the pane of tab [tabId], when a
    [terminal-data] event reaches its listener the pane has a terminal, and
    it writes the event's data to it if the event's tab id is [tabId], and
    otherwise does nothing at all; so the terminal changes exactly when the
    ids are equal. The same holds of a [terminal-exit] event and the
    exit notice. *)
Theorem push_events_reach_their_pane (tabId : string) (active : bool)
    (events : list Event) :
  let s := run (initial tabId active) events in
  (forall payload : DataPayload,
     listeningData s = true ->
     exists t,
       terminal s = Some t
       /\ (data_tabId payload = tabId ->
           terminal (step s (TerminalData payload))
           = Some (write (data_data payload) t))
       /\ (data_tabId payload <> tabId -> step s (TerminalData payload) = s)
       /\ (terminal (step s (TerminalData payload)) <> terminal s
           <-> data_tabId payload = tabId))
  /\ (forall payload : ExitPayload,
       listeningExit s = true ->
       exists t,
         terminal s = Some t
         /\ (exit_tabId payload = tabId ->
             terminal (step s (TerminalExit payload))
             = Some (writeln exitNotice t))
         /\ (exit_tabId payload <> tabId -> step s (TerminalExit payload) = s)
         /\ (terminal (step s (TerminalExit payload)) <> terminal s
             <-> exit_tabId payload = tabId)).
Proof.
  intros s.
  destruct (run_pane tabId events _ (initial_pane tabId active))
    as (Htab & _ & Hterminal).
  fold s in Htab, Hterminal.
  split.
  - intros payload Hlistening.
    destruct (terminal s) as [t |] eqn:Ht.
    2: { destruct (Hterminal eq_refl) as (Hoff & _). congruence. }
    exists t. split; [reflexivity |].
    assert (Hown : data_tabId payload = tabId ->
                   terminal (step s (TerminalData payload))
                   = Some (write (data_data payload) t)).
    { intros Hsame. simpl. rewrite Hlistening. unfold onTerminalData.
      rewrite Htab, Hsame, String.eqb_refl, Ht. reflexivity. }
    assert (Hother : data_tabId payload <> tabId ->
                     step s (TerminalData payload) = s).
    { intros Hdiff. simpl. rewrite Hlistening. unfold onTerminalData.
      rewrite Htab. destruct (String.eqb_spec (data_tabId payload) tabId);
        [contradiction | reflexivity]. }
    split; [exact Hown |]. split; [exact Hother |].
    destruct (String.eqb_spec (data_tabId payload) tabId) as [Hsame | Hdiff].
    + split; [intros _; exact Hsame |]. intros _.
      rewrite (Hown Hsame). intros Hfix. injection Hfix.
      apply write_changes.
    + split; [| contradiction]. intros Hchanged. exfalso. apply Hchanged.
      rewrite (Hother Hdiff). exact Ht.
  - intros payload Hlistening.
    destruct (terminal s) as [t |] eqn:Ht.
    2: { destruct (Hterminal eq_refl) as (_ & Hoff & _). congruence. }
    exists t. split; [reflexivity |].
    assert (Hown : exit_tabId payload = tabId ->
                   terminal (step s (TerminalExit payload))
                   = Some (writeln exitNotice t)).
    { intros Hsame. simpl. rewrite Hlistening. unfold onTerminalExit.
      rewrite Htab, Hsame, String.eqb_refl, Ht. reflexivity. }
    assert (Hother : exit_tabId payload <> tabId ->
                     step s (TerminalExit payload) = s).
    { intros Hdiff. simpl. rewrite Hlistening. unfold onTerminalExit.
      rewrite Htab. destruct (String.eqb_spec (exit_tabId payload) tabId);
        [contradiction | reflexivity]. }
    split; [exact Hown |]. split; [exact Hother |].
    destruct (String.eqb_spec (exit_tabId payload) tabId) as [Hsame | Hdiff].
    + split; [intros _; exact Hsame |]. intros _.
      rewrite (Hown Hsame). intros Hfix. injection Hfix.
      apply write_changes.
    + split; [| contradiction]. intros Hchanged. exfalso. apply Hchanged.
      rewrite (Hother Hdiff). exact Ht.
Qed.

Lemma push_events_reach_their_pane_witness :
  listeningData resizedPane = true
  /\ listeningExit resizedPane = true
  /\ (exists t,
        terminal resizedPane = Some t
        /\ terminal (step resizedPane (TerminalData (mkDataPayload "tab-1" "hello")))
           = Some (write "hello" t)
        /\ step resizedPane (TerminalData (mkDataPayload "tab-2" "hello"))
           = resizedPane).
Proof.
  unfold resizedPane.
  pose proof (push_events_reach_their_pane "tab-1" true
              [Mount; GhosttyReady 80 24; ListenSettled true; ListenSettled true;
               OpenSettled (Js.Resolved "/bin/zsh") (Some (120, 40))%Z])
    as (Hdata & _).
  cbv zeta in Hdata.
  set (s := run _ _) in *.
  assert (Hlistening : listeningData s = true) by (vm_compute; reflexivity).
  destruct (Hdata (mkDataPayload "tab-1" "hello") Hlistening)
    as (t & Ht & Hown & _).
  destruct (Hdata (mkDataPayload "tab-2" "hello") Hlistening)
    as (t' & _ & _ & Hother & _).
  split; [exact Hlistening |]. split; [vm_compute; reflexivity |].
  exists t. split; [exact Ht |]. split.
  - apply Hown. reflexivity.
  - apply Hother. discriminate.
Defined.

End TerminalPaneFacts.

(** * Properties of the application root *)

Module AppFacts.
Import App.

Ltac break_match :=
  match goal with
  | |- context [match ?x with _ => _ end] =>
      first [ is_var x; destruct x | destruct x eqn:? ]
  end.













(** C8. A poll of the working directory never surfaces an error. Without an
    active tab (or with one whose id is empty) it sets the displayed
    directory to null and asks the backend nothing; when the [terminal_cwd]
    call fails, the displayed directory becomes null; and whatever the call
    settles with, [syncActiveTerminalCwd] returns and does not throw. *)
Theorem cwd_lookup_is_advisory (s : State) :
  (Js.truthy (option_map tab_id (activeTab s)) = false ->
   activeTerminalCwd (syncActiveTerminalCwd s) = None
   /\ log (syncActiveTerminalCwd s) = log s
   /\ pending (syncActiveTerminalCwd s) = pending s)
  /\ (activeTab s = None -> activeTerminalCwd (syncActiveTerminalCwd s) = None)
  /\ (forall id e,
        id ∈ pending s ->
        activeTerminalCwd (step s (Settle id (Js.Rejected e))) = None)
  /\ (forall result, exists s', cwdSettled result s = Returns s').
Proof.
  assert (Hfalsy : Js.truthy (option_map tab_id (activeTab s)) = false ->
            activeTerminalCwd (syncActiveTerminalCwd s) = None
            /\ log (syncActiveTerminalCwd s) = log s
            /\ pending (syncActiveTerminalCwd s) = pending s).
  { unfold syncActiveTerminalCwd.
    destruct (option_map tab_id (activeTab s)) as [tabId |]; [| simpl; auto].
    intros Hfalsy. rewrite Hfalsy. simpl. auto. }
  split; [exact Hfalsy |]. split; [| split].
  - intros Hnone. apply Hfalsy. rewrite Hnone. reflexivity.
  - intros id e Hin. simpl. unfold settle.
    destruct (decide (id ∈ pending s)); [reflexivity | contradiction].
  - intros [cwd | e]; simpl; eexists; reflexivity.
Qed.

Lemma find_some_in {A : Type} (f : A -> bool) (l : list A) (x : A) :
  List.find f l = Some x -> In x l /\ f x = true.
Proof. apply List.find_some. Qed.

Lemma tabsOf_nonempty (projectId : string) (all : list TerminalTab) :
  tabsOf projectId all <> []
  <-> exists tab, In tab all /\ tab_projectId tab = projectId.
Proof.
  unfold tabsOf. split.
  - intros Hne. destruct (List.filter _ all) as [| tab rest] eqn:Hfilter;
      [contradiction |].
    assert (Hin : In tab (List.filter
                     (fun tab => String.eqb (tab_projectId tab) projectId) all)).
    { rewrite Hfilter. left. reflexivity. }
    apply filter_In in Hin as (Hin & Hsame). apply String.eqb_eq in Hsame.
    eauto.
  - intros (tab & Hin & Hsame) Hnone.
    assert (Hfiltered : In tab (List.filter
                     (fun tab => String.eqb (tab_projectId tab) projectId) all)).
    { apply filter_In. split; [exact Hin |]. apply String.eqb_eq. exact Hsame. }
    rewrite Hnone in Hfiltered. contradiction.
Qed.

Lemma existsb_tabsOf (projectId : string) (all : list TerminalTab) :
  existsb (fun item => String.eqb (tab_projectId item) projectId) all = true
  <-> tabsOf projectId all <> [].
Proof.
  rewrite tabsOf_nonempty, existsb_exists. split.
  - intros (tab & Hin & Hsame). apply String.eqb_eq in Hsame. eauto.
  - intros (tab & Hin & Hsame). exists tab. split; [exact Hin |].
    apply String.eqb_eq. exact Hsame.
Qed.

Lemma closeTab_tabs (tabId random : string) (tab : TerminalTab) (s : State) :
  List.find (fun item => String.eqb (tab_id item) tabId) (tabs s) = Some tab ->
  tabs (closeTab tabId random s)
  = if existsb (fun item => String.eqb (tab_projectId item) (tab_projectId tab))
         (kept tabId (tabs s))
    then kept tabId (tabs s)
    else (kept tabId (tabs s) ++ [replacementTab random (tab_projectId tab)])%list.
Proof.
  intros Hfound. unfold closeTab. rewrite Hfound. simpl. fold (kept tabId (tabs s)).
  destruct (existsb _ (kept tabId (tabs s))); simpl;
    destruct (Js.sameString _ _); reflexivity.
Qed.

Lemma unique_ids {A B : Type} (f : A -> B) (l : list A) (x y : A) :
  List.NoDup (List.map f l) -> In x l -> In y l -> f x = f y -> x = y.
Proof.
  induction l as [| a l IH]; simpl; intros Hunique Hx Hy Hsame; [contradiction |].
  inversion Hunique as [| ? ? Hfresh Hrest]; subst.
  destruct Hx as [-> | Hx], Hy as [-> | Hy]; auto.
  - exfalso. apply Hfresh. rewrite Hsame. apply in_map. exact Hy.
  - exfalso. apply Hfresh. rewrite <- Hsame. apply in_map. exact Hx.
Qed.

Lemma closeTab_active (tabId random : string) (tab : TerminalTab) (s : State) :
  List.find (fun item => String.eqb (tab_id item) tabId) (tabs s) = Some tab ->
  activeTabId (closeTab tabId random s)
  = if Js.sameString (activeTabId s) (Some tabId)
    then option_map tab_id
           (List.find
              (fun item => String.eqb (tab_projectId item) (tab_projectId tab))
              (tabs (closeTab tabId random s)))
    else activeTabId s.
Proof.
  intros Hfound. unfold closeTab. rewrite Hfound. simpl.
  destruct (existsb _ _); simpl; destruct (Js.sameString _ _); reflexivity.
Qed.

Lemma sameString_spec (a b : option string) :
  Js.sameString a b = true <-> a = b.
Proof.
  destruct a as [x |], b as [y |]; simpl; split; intros H; try discriminate;
    try reflexivity.
  - apply String.eqb_eq in H. congruence.
  - injection H as ->. apply String.eqb_refl.
Qed.

(** C10. Closing a tab never leaves its project without tabs. If the closed
    tab was the last of its project, a replacement titled "session-1" is
    appended for that project (its id drawn by [uid]); otherwise the
    remaining tabs stay as they are. If the closed tab was the active one,
    the active tab id becomes the id of a tab of the same project, and
    otherwise it is unchanged. Every tab with another id is kept, so that,
    tab ids being unique, no project at all is left without tabs. *)
Theorem closeTab_keeps_project_populated (s : State) (tabId random : string)
    (tab : TerminalTab) :
  List.find (fun item => String.eqb (tab_id item) tabId) (tabs s) = Some tab ->
  let project := tab_projectId tab in
  let s' := closeTab tabId random s in
  tabsOf project (tabs s') <> []
  /\ (tabsOf project (kept tabId (tabs s)) = [] ->
      tabs s' = (kept tabId (tabs s) ++ [replacementTab random project])%list)
  /\ (tabsOf project (kept tabId (tabs s)) <> [] -> tabs s' = kept tabId (tabs s))
  /\ (activeTabId s = Some tabId ->
      exists next, In next (tabs s') /\ tab_projectId next = project
                   /\ activeTabId s' = Some (tab_id next))
  /\ (activeTabId s <> Some tabId -> activeTabId s' = activeTabId s)
  /\ (forall other, In other (tabs s) -> tab_id other <> tabId ->
      In other (tabs s'))
  /\ (List.NoDup (List.map tab_id (tabs s)) ->
      forall projectId, tabsOf projectId (tabs s) <> [] ->
                        tabsOf projectId (tabs s') <> []).
Proof.
  intros Hfound project s'.
  pose proof (closeTab_tabs tabId random tab s Hfound) as Htabs.
  fold s' project in Htabs.
  assert (Hpopulated : tabsOf project (tabs s') <> []).
  { rewrite Htabs.
    destruct (existsb _ (kept tabId (tabs s))) eqn:Hsome.
    - apply existsb_tabsOf. exact Hsome.
    - apply tabsOf_nonempty. exists (replacementTab random project).
      split; [apply in_or_app; right; left; reflexivity | reflexivity]. }
  assert (Hothers : forall other, In other (tabs s) -> tab_id other <> tabId ->
                                  In other (tabs s')).
  { intros other Hin Hne.
    assert (Hkept : In other (kept tabId (tabs s))).
    { apply filter_In. split; [exact Hin |].
      destruct (String.eqb_spec (tab_id other) tabId); [contradiction | reflexivity]. }
    rewrite Htabs. destruct (existsb _ _); [exact Hkept |].
    apply in_or_app. left. exact Hkept. }
  split; [exact Hpopulated |].
  split.
  { intros Hlast. rewrite Htabs.
    destruct (existsb _ (kept tabId (tabs s))) eqn:Hsome; [| reflexivity].
    apply existsb_tabsOf in Hsome. contradiction. }
  split.
  { intros Hmore. rewrite Htabs. apply existsb_tabsOf in Hmore.
    rewrite Hmore. reflexivity. }
  split.
  { intros Hactive.
    apply tabsOf_nonempty in Hpopulated as (witness & Hin & Hproject).
    destruct (List.find
                (fun item => String.eqb (tab_projectId item) project) (tabs s'))
      as [next |] eqn:Hnext.
    - apply find_some_in in Hnext as Hfacts. destruct Hfacts as (Hin' & Hsame).
      apply String.eqb_eq in Hsame.
      exists next. split; [exact Hin' |]. split; [exact Hsame |].
      unfold s'. rewrite (closeTab_active tabId random tab s Hfound).
      fold s' project. rewrite Hnext.
      destruct (Js.sameString (activeTabId s) (Some tabId)) eqn:Hcompare;
        [reflexivity |].
      apply sameString_spec in Hactive. congruence.
    - exfalso. apply (List.find_none _ _ Hnext) in Hin.
      rewrite Hproject, String.eqb_refl in Hin. discriminate. }
  split.
  { intros Hinactive. unfold s'.
    rewrite (closeTab_active tabId random tab s Hfound).
    destruct (Js.sameString (activeTabId s) (Some tabId)) eqn:Hcompare;
      [| reflexivity].
    apply sameString_spec in Hcompare. contradiction. }
  split; [exact Hothers |].
  intros Hunique projectId Hhas.
  destruct (String.eqb_spec projectId project) as [-> | Hother];
    [exact Hpopulated |].
  apply tabsOf_nonempty in Hhas as (other & Hin & Hproject).
  apply tabsOf_nonempty. exists other. split; [| exact Hproject].
  apply Hothers; [exact Hin |].
  intros Hsame. apply Hother.
  apply find_some_in in Hfound as (Hin0 & Hid). apply String.eqb_eq in Hid.
  assert (Heq : other = tab).
  { apply (unique_ids tab_id (tabs s)); try assumption. congruence. }
  subst other. symmetry. exact Hproject.
Qed.

Lemma cwd_lookup_is_advisory_witness :
  let idle := initial [] [] None None in
  let polling := step (defaultState "p" "t") Mount in
  (Js.truthy (option_map tab_id (activeTab idle)) = false
   /\ activeTab idle = None /\ 0 ∈ pending polling)
  /\ activeTerminalCwd (syncActiveTerminalCwd idle) = None
  /\ log (syncActiveTerminalCwd idle) = []
  /\ log polling = ["tab-t"]
  /\ activeTerminalCwd
       (step polling (Settle 0 (Js.Rejected (Js.ErrorInstance "no such tab"))))
     = None.
Proof.
  intros idle polling.
  assert (Hpending : 0 ∈ pending polling).
  { apply elem_of_union_l, elem_of_singleton. reflexivity. }
  destruct (cwd_lookup_is_advisory idle) as (Hfalsy & _).
  destruct (Hfalsy eq_refl) as (Hcwd & Hlog & _).
  destruct (cwd_lookup_is_advisory polling) as (_ & _ & Hfailed & _).
  split; [split; [reflexivity | split; [reflexivity | exact Hpending]] |].
  split; [exact Hcwd |]. split; [exact Hlog |]. split; [reflexivity |].
  apply Hfailed. exact Hpending.
Defined.

Lemma closeTab_keeps_project_populated_witness :
  let s := defaultState "p" "t" in
  let s' := closeTab "tab-t" "r" s in
  List.find (fun item => String.eqb (tab_id item) "tab-t") (tabs s)
  = Some (mkTerminalTab "tab-t" "project-p" "session-1")
  /\ tabs s' = [mkTerminalTab "tab-r" "project-p" "session-1"]
  /\ activeTabId s' = Some "tab-r".
Proof.
  intros s s'.
  destruct (closeTab_keeps_project_populated s "tab-t" "r"
              (mkTerminalTab "tab-t" "project-p" "session-1") eq_refl)
    as (_ & Hlast & _ & Hactive & _).
  split; [reflexivity |]. split.
  - apply Hlast. reflexivity.
  - destruct (Hactive eq_refl) as (next & Hin & _ & Hid).
    unfold s'. rewrite Hid. rewrite (Hlast eq_refl) in Hin. simpl in Hin.
    destruct Hin as [<- | []]. reflexivity.
Defined.

End AppFacts.

(** * Teardown *)



(** * Invariants of the terminal pane *)

Module TerminalPaneInvariants.
Import TerminalPane TerminalPaneFacts.

Ltac learn_font Hinv :=
  repeat match goal with
         | H : terminal _ = Some ?t |- _ =>
             lazymatch goal with
             | _ : (MIN_FONT_SIZE <= fontSize t <= MAX_FONT_SIZE)%Z |- _ => fail
             | _ => pose proof (Hinv t H)
             end
         end.

Lemma step_font (s : State) (e : Event) : FontInv s -> FontInv (step s e).
Proof.
  intros Hinv.
  destruct e; simpl; unfold_pane; repeat break_match; intros t' Ht';
    simpl in *; simplify_eq; try (apply Hinv; assumption).
  all: learn_font Hinv; simpl;
    unfold MIN_FONT_SIZE, MAX_FONT_SIZE, DEFAULT_FONT_SIZE in *; try lia.
Qed.

Lemma run_font (events : list Event) :
  forall s : State, FontInv s -> FontInv (run s events).
Proof.
  induction events as [| e rest IH]; intros s Hinv; [exact Hinv |].
  simpl. apply IH, step_font, Hinv.
Qed.

(** X1. Whatever happens to a pane, the font size of its terminal stays
    between [MIN_FONT_SIZE] and [MAX_FONT_SIZE]; zooming in at the maximum,
    zooming out at the minimum and resetting at the default size change
    nothing at all (no refit, no backend call). *)
Theorem font_size_stays_in_range (tabId : string) (active : bool)
    (events : list Event) (t : Terminal) :
  let s := run (initial tabId active) events in
  terminal s = Some t ->
  (MIN_FONT_SIZE <= fontSize t <= MAX_FONT_SIZE)%Z
  /\ (forall measured,
        fontSize t = MAX_FONT_SIZE -> step s (KeyPressed ZoomIn measured) = s)
  /\ (forall measured,
        fontSize t = MIN_FONT_SIZE -> step s (KeyPressed ZoomOut measured) = s)
  /\ (forall measured,
        fontSize t = DEFAULT_FONT_SIZE ->
        step s (KeyPressed ZoomReset measured) = s).
Proof.
  intros s Ht.
  assert (Hinv : FontInv s).
  { apply run_font. intros t0 Ht0. discriminate. }
  split; [apply Hinv; exact Ht |].
  repeat split; intros measured Hsize; simpl; destruct (terminalAlive s);
    try reflexivity; unfold zoomKeyPressed, setTerminalFontSize;
    rewrite Ht, Hsize; reflexivity.
Qed.

Lemma font_size_stays_in_range_witness :
  let s := run (initial "tab-1" true)
             [Mount; GhosttyReady 80 24; KeyPressed ZoomOut None;
              KeyPressed ZoomOut None] in
  exists t, terminal s = Some t /\ fontSize t = 14%Z
            /\ (MIN_FONT_SIZE <= fontSize t <= MAX_FONT_SIZE)%Z.
Proof.
  eexists. split; [reflexivity |]. split; [reflexivity |].
  refine (proj1 (font_size_stays_in_range "tab-1" true
            [Mount; GhosttyReady 80 24; KeyPressed ZoomOut None;
             KeyPressed ZoomOut None] _ _)).
  reflexivity.
Defined.

Lemma onlyResizes_refl (s s' : State) :
  propTabId s' = propTabId s -> stage s' = stage s ->
  unmounted s' = unmounted s -> emitted s' = emitted s -> log s' = log s ->
  onlyResizes s s'.
Proof.
  intros Htab Hstage Hun Hemitted Hlog. repeat split; try assumption.
  exists []. rewrite app_nil_r. split; [exact Hlog | constructor].
Qed.

Lemma onlyResizes_trans (s s' s'' : State) :
  onlyResizes s s' -> onlyResizes s' s'' -> onlyResizes s s''.
Proof.
  intros (Htab & Hstage & Hun & Hemitted & extra & Hlog & Hextra)
         (Htab' & Hstage' & Hun' & Hemitted' & extra' & Hlog' & Hextra').
  repeat split; try congruence.
  exists (extra ++ extra')%list. split.
  - rewrite Hlog', Hlog, app_assoc. reflexivity.
  - apply Forall_app. split; [exact Hextra |].
    rewrite Htab in Hextra'. exact Hextra'.
Qed.

Ltac same_state := apply onlyResizes_refl; reflexivity.

Lemma fit_only (measured : option (Z * Z)) (s : State) :
  onlyResizes s (fit measured s).
Proof.
  unfold fit, resizeTerminal, onResize, setResizeTimeout, clearTimeout.
  repeat break_match; same_state.
Qed.

Lemma fitTerminal_only (force : bool) (measured : option (Z * Z)) (s : State) :
  onlyResizes s (fitTerminal force measured s).
Proof.
  unfold fitTerminal.
  destruct (terminal s); [| same_state].
  destruct (negb (fitAddon s)); [same_state |].
  destruct (_ && _); [same_state |].
  pose proof (fit_only measured s) as Hfit.
  destruct (terminal (fit measured s)) as [fitted |]; [| exact Hfit].
  apply (onlyResizes_trans s (fit measured s)); [exact Hfit |].
  destruct Hfit as (Htab & _).
  repeat split; try reflexivity.
  exists [resize_terminal (propTabId (fit measured s)) (cols fitted)
            (rows fitted)].
  split; [reflexivity |]. repeat constructor.
Qed.

Lemma setTerminalFontSize_only (next : Z) (measured : option (Z * Z))
    (s : State) :
  onlyResizes s (setTerminalFontSize next measured s).
Proof.
  unfold setTerminalFontSize.
  destruct (terminal s) as [t |]; [| same_state].
  destruct (Z.eqb _ _); [same_state |].
  apply (onlyResizes_trans s
           (set_terminal
              (Some (withFontSize
                       (Z.max MIN_FONT_SIZE (Z.min MAX_FONT_SIZE next)) t)) s));
    [same_state | apply fitTerminal_only].
Qed.

Lemma zoomKeyPressed_only (key : ZoomKey) (measured : option (Z * Z))
    (s : State) :
  onlyResizes s (zoomKeyPressed key measured s).
Proof.
  unfold zoomKeyPressed.
  destruct (terminal s); [| same_state].
  destruct key; apply setTerminalFontSize_only.
Qed.

Lemma activeChanged_only (isActive : bool) (measured : option (Z * Z))
    (s : State) :
  onlyResizes s (activeChanged isActive measured s).
Proof.
  unfold activeChanged.
  destruct (_ || _); [same_state |].
  set (s1 := set_propActive isActive s).
  assert (H1 : onlyResizes s s1) by same_state.
  destruct (terminal s1); [| exact H1].
  destruct isActive; [| exact H1].
  pose proof (onlyResizes_trans s s1 _ H1 (fitTerminal_only true measured s1))
    as H2.
  destruct (terminal (fitTerminal true measured s1)); [| exact H2].
  apply (onlyResizes_trans s _ _ H2). same_state.
Qed.

(** [onMounted] after [open_terminal] resolved: the event for the parent,
    then nothing but resize calls, then the last stage. *)
Lemma mountedOpened_only (shell : string) (measured : option (Z * Z))
    (s : State) :
  exists s',
    mountedOpened shell measured s = set_stage MountDone s'
    /\ onlyResizes
         (set_emitted (emitted s ++ [session_meta (propTabId s) shell]) s) s'.
Proof.
  unfold mountedOpened.
  set (s1 := set_emitted _ s).
  pose proof (fitTerminal_only true measured s1) as H2.
  set (s2 := set_observing true (fitTerminal true measured s1)).
  assert (H3 : onlyResizes s1 s2).
  { apply (onlyResizes_trans s1 _ _ H2). same_state. }
  eexists. split; [reflexivity |].
  destruct (propActive s2); [| exact H3].
  destruct (terminal s2); [| exact H3].
  apply (onlyResizes_trans s1 _ _ H3). same_state.
Qed.

(** The steps that do nothing but resize. *)
Ltac resize_steps preserved :=
  try (apply preserved;
       first [ apply activeChanged_only
             | destruct (terminalAlive _);
               first [ apply zoomKeyPressed_only | same_state ]
             | destruct (_ && _); first [ apply fit_only | same_state ] ]).

Lemma calls_only (tabId : string) (s s' : State) :
  onlyResizes s s' -> CallsInv tabId s -> CallsInv tabId s'.
Proof.
  intros (Htab & Hstage & Hun & _ & extra & Hlog & Hextra)
         (Hown & Hall & Hopen & Hbefore & Hclose & Hfresh).
  unfold CallsInv, count in *. rewrite Htab, Hstage, Hun, Hlog.
  rewrite !List.filter_app, !length_app.
  assert (Hnone : List.filter isOpenCall extra = []
                  /\ List.filter isCloseCall extra = []).
  { clear Hlog. induction Hextra as [| command rest (Hresize & _) _ IH];
      [split; reflexivity |].
    destruct command; try discriminate. simpl. exact IH. }
  destruct Hnone as (-> & ->). simpl. rewrite !Nat.add_0_r.
  split; [exact Hown |]. split; [| auto].
  apply Forall_app. split; [exact Hall |].
  eapply Forall_impl; [exact Hextra |]. simpl. intros command (_ & Hsame).
  congruence.
Qed.

Ltac recall s :=
  repeat match goal with
  | H : stage s = _ |- _ => rewrite H in *; clear H
  | H : unmounted s = _ |- _ => rewrite H in *; clear H
  end.

Lemma step_calls (tabId : string) (s : State) (e : Event) :
  CallsInv tabId s -> CallsInv tabId (step s e).
Proof.
  destruct e; simpl; resize_steps calls_only.
  4: { destruct (stage s) eqn:Hstage; try (intros H; exact H).
       destruct result as [shell | reason].
       - destruct (mountedOpened_only shell measured s) as (s' & -> & Honly).
         intros Hinv. apply (calls_only tabId _ s' Honly) in Hinv.
         destruct Honly as (_ & Hsame & _). simpl in Hsame.
         rewrite Hstage in Hsame.
         revert Hinv. unfold CallsInv, count. simpl. rewrite Hsame. simpl.
         intros (? & ? & ? & ? & ? & ?).
         repeat split; try assumption; try discriminate.
       - unfold CallsInv, count. simpl. rewrite Hstage. simpl.
         intros (? & ? & ? & ? & ? & ?).
         repeat split; try assumption; try discriminate. }
  all: unfold CallsInv, count; unfold_pane; repeat break_match; simpl in *;
    rewrite ?List.filter_app, ?length_app, ?Forall_app; simpl;
    intros (Htab & Hown & Hopen & Hbefore & Hclose & Hfresh); recall s;
    simpl in *.
  all: repeat split; try assumption; try reflexivity; try discriminate;
    try congruence; try lia.
  all: try (repeat constructor; assumption).
  all: try (specialize (Hbefore eq_refl); lia).
  all: try (intros Hstage; specialize (Hbefore Hstage); lia).
  all: try (intros; specialize (Hfresh eq_refl); congruence).
Qed.

Lemma initial_calls (tabId : string) (active : bool) :
  CallsInv tabId (initial tabId active).
Proof.
  unfold CallsInv, count. simpl. repeat split; auto.
Qed.

Lemma run_calls (tabId : string) (events : list Event) (s : State) :
  CallsInv tabId s -> CallsInv tabId (run s events).
Proof.
  revert s. induction events as [| e events IH]; intros s Hinv;
    [exact Hinv |].
  simpl. apply IH, step_calls, Hinv.
Qed.

(** X2. Whatever happens to a pane, every call it makes to the backend
    carries its own tab id; it opens its session at most once, and not
    before both listeners were registered; it closes its session exactly
    once, when it is unmounted, and never again. *)
Theorem pane_session_calls (tabId : string) (active : bool)
    (events : list Event) :
  let s := run (initial tabId active) events in
  Forall (fun command => tabIdOf command = tabId) (log s)
  /\ count isOpenCall s <= 1
  /\ (beforeOpen (stage s) = true -> count isOpenCall s = 0)
  /\ count isCloseCall s = (if unmounted s then 1 else 0).
Proof.
  intros s.
  destruct (run_calls tabId events _ (initial_calls tabId active))
    as (_ & Hown & Hopen & Hbefore & Hclose & _).
  auto.
Qed.

Lemma pane_session_calls_witness :
  let s := run (initial "tab-1" true)
             [Mount; GhosttyReady 80 24; ListenSettled true; BeforeUnmount;
              ListenSettled true; BeforeUnmount] in
  count isOpenCall s = 1 /\ count isCloseCall s = 1
  /\ Forall (fun command => tabIdOf command = "tab-1") (log s).
Proof.
  split; [reflexivity |]. split; [reflexivity |].
  exact (proj1 (pane_session_calls "tab-1" true
                  [Mount; GhosttyReady 80 24; ListenSettled true;
                   BeforeUnmount; ListenSettled true; BeforeUnmount])).
Defined.

Lemma emits_only (tabId : string) (s s' : State) :
  onlyResizes s s' -> EmitInv tabId s -> EmitInv tabId s'.
Proof.
  intros (Htab & Hstage & Hun & Hemitted & _) (Hown & Hall & Hmeta & Hdone).
  unfold EmitInv. rewrite Htab, Hstage, Hemitted.
  repeat split; assumption.
Qed.

Lemma step_emits (tabId : string) (s : State) (e : Event) :
  EmitInv tabId s -> EmitInv tabId (step s e).
Proof.
  destruct e; simpl; resize_steps emits_only.
  4: { destruct (stage s) eqn:Hstage; try (intros H; exact H).
       intros (Hown & Hall & Hmeta & Hdone).
       assert (Hnone : List.filter isSessionMeta (emitted s) = [])
         by (apply Hdone; congruence).
       destruct result as [shell | reason].
       - destruct (mountedOpened_only shell measured s) as (s' & -> & Honly).
         destruct Honly as (Htab & _ & _ & Hemitted & _).
         simpl in *. unfold EmitInv. simpl.
         rewrite Htab, Hemitted, !List.filter_app, Hnone. simpl.
         repeat split; auto; try congruence.
         apply Forall_app. split; [exact Hall |]. repeat constructor.
         exact Hown.
       - unfold EmitInv. simpl. rewrite Hnone. repeat split; auto. }
  all: unfold EmitInv; unfold_pane; repeat break_match; simpl in *;
    rewrite ?List.filter_app, ?length_app, ?Forall_app; simpl;
    intros (Hown & Hall & Hmeta & Hdone); recall s; simpl in *.
  all: repeat split; try assumption; try reflexivity; try discriminate;
    try congruence; try lia.
  all: try (intros _; apply Hdone; discriminate).
  - repeat constructor. exact Hown.
  - rewrite app_nil_r. exact Hdone.
Qed.

Lemma run_emits (tabId : string) (events : list Event) (s : State) :
  EmitInv tabId s -> EmitInv tabId (run s events).
Proof.
  revert s. induction events as [| e events IH]; intros s Hinv;
    [exact Hinv |].
  simpl. apply IH, step_emits, Hinv.
Qed.

(** X3. Whatever happens to a pane, every event it emits to its parent
    carries its own tab id, and [session-meta] is emitted at most once, and
    not before [onMounted] has run to its end. *)
Theorem pane_emits_for_its_own_tab (tabId : string) (active : bool)
    (events : list Event) :
  let s := run (initial tabId active) events in
  Forall (fun e => tabIdOfEmitted e = tabId) (emitted s)
  /\ length (List.filter isSessionMeta (emitted s)) <= 1
  /\ (stage s <> MountDone -> List.filter isSessionMeta (emitted s) = []).
Proof.
  intros s.
  assert (Hinit : EmitInv tabId (initial tabId active)).
  { unfold EmitInv. simpl. repeat split; auto. }
  destruct (run_emits tabId events _ Hinit) as (_ & Hown & Hmeta & Hdone).
  auto.
Qed.

Lemma pane_emits_for_its_own_tab_witness :
  let s := run (initial "tab-1" true)
             [Mount; GhosttyReady 80 24; TitleChanged "vim";
              ListenSettled true; ListenSettled true] in
  stage s <> MountDone
  /\ emitted s = [session_title "tab-1" "vim"]
  /\ List.filter isSessionMeta (emitted s) = [].
Proof.
  assert (Hstage : stage (run (initial "tab-1" true)
                            [Mount; GhosttyReady 80 24; TitleChanged "vim";
                             ListenSettled true; ListenSettled true])
                   <> MountDone) by discriminate.
  split; [exact Hstage |]. split; [reflexivity |].
  exact (proj2 (proj2 (pane_emits_for_its_own_tab "tab-1" true
                         [Mount; GhosttyReady 80 24; TitleChanged "vim";
                          ListenSettled true; ListenSettled true])) Hstage).
Defined.

Lemma keepsSync_trans (s s' s'' : State) :
  keepsSync s s' -> keepsSync s' s'' -> keepsSync s s''.
Proof.
  unfold keepsSync.
  intros (Hstage & Hun & Hsync) (Hstage' & Hun' & Hsync').
  split; [congruence |]. split; [congruence |].
  destruct (terminal s) as [t |].
  - destruct Hsync as (t' & Ht' & Hsync). rewrite Ht' in Hsync'.
    destruct Hsync' as (t'' & Ht'' & Hsync').
    exists t''. split; [exact Ht'' |]. intros Hmounted Hin.
    apply Hsync'; [congruence |]. apply Hsync; assumption.
  - destruct Hsync as (Hnone & Hsent & Hheld). rewrite Hnone in Hsync'.
    destruct Hsync' as (Hnone' & Hsent' & Hheld').
    repeat split; congruence.
Qed.

Lemma size_kept (s s' : State) : keepsSync s s' -> SizeInv s -> SizeInv s'.
Proof.
  unfold keepsSync, SizeInv.
  intros (Hstage & Hun & Hsync) (Hnone & Hghostty & Hsome).
  rewrite Hstage, Hun.
  destruct (terminal s) as [t |].
  - destruct Hsync as (t' & Ht' & Hsync). rewrite Ht'.
    split; [discriminate |].
    split; [intros Hwaits; specialize (Hghostty Hwaits); discriminate |].
    intros t0 [= <-] Hmounted. apply Hsync; [exact Hmounted |].
    apply Hsome; [reflexivity | exact Hmounted].
  - destruct Hsync as (-> & -> & ->).
    split; [exact Hnone |]. split; [reflexivity |]. discriminate.
Qed.

Lemma keepsSync_refl (s s' : State) :
  stage s' = stage s -> unmounted s' = unmounted s ->
  terminal s' = terminal s -> log s' = log s ->
  resizeDebounce s' = resizeDebounce s -> timeouts s' = timeouts s ->
  keepsSync s s'.
Proof.
  intros Hstage Hun Hterminal Hlog Hheld Htimeouts.
  unfold keepsSync, inSync, sizesSent.
  rewrite Hstage, Hun, Hterminal, Hlog, Hheld, Htimeouts.
  repeat split. destruct (terminal s) as [t |]; [| auto].
  exists t. auto.
Qed.

Ltac same_sync := apply keepsSync_refl; reflexivity.

(** After a resize notification the debounce timeout that is pending holds
    the size notified. *)
Lemma onResize_holds (c r : Z) (s : State) :
  let s' := onResize c r s in
  resizeDebounce s' = Some (nextTimer s)
  /\ timeouts s' !! nextTimer s = Some (c, r)
  /\ terminal s' = terminal s /\ stage s' = stage s
  /\ unmounted s' = unmounted s /\ log s' = log s.
Proof.
  unfold onResize, setResizeTimeout, clearTimeout.
  destruct (resizeDebounce s); simpl; rewrite lookup_insert_eq; auto 10.
Qed.

Lemma fit_sync (measured : option (Z * Z)) (s : State) :
  keepsSync s (fit measured s).
Proof.
  unfold fit. destruct measured as [[c r] |]; [| same_sync].
  unfold resizeTerminal.
  destruct (terminal s) as [t |] eqn:Ht; [| same_sync].
  destruct (disposed t); [same_sync |].
  destruct (_ && _); [same_sync |].
  destruct (onResize_holds c r (set_terminal (Some (withSize c r t)) s))
    as (Hheld & Htimeout & Hterminal & Hstage & Hun & _).
  unfold keepsSync. rewrite Ht, Hstage, Hun.
  split; [reflexivity |]. split; [reflexivity |].
  exists (withSize c r t). split; [exact Hterminal |].
  intros _ _. unfold inSync. rewrite Hheld. exact Htimeout.
Qed.

(** Telling the backend the size the terminal has. *)
Lemma syncPtySize_sync (t : Terminal) (s : State) :
  terminal s = Some t -> keepsSync s (syncPtySize (cols t) (rows t) s).
Proof.
  intros Ht. unfold keepsSync. rewrite Ht. simpl.
  split; [reflexivity |]. split; [reflexivity |].
  exists t. split; [exact Ht |].
  unfold inSync, sizesSent. simpl. intros _ Hin.
  destruct (resizeDebounce s); [exact Hin |].
  right. rewrite omap_app. simpl. apply last_snoc.
Qed.

Lemma fitTerminal_sync (force : bool) (measured : option (Z * Z))
    (s : State) :
  keepsSync s (fitTerminal force measured s).
Proof.
  unfold fitTerminal.
  destruct (terminal s); [| same_sync].
  destruct (negb (fitAddon s)); [same_sync |].
  destruct (_ && _); [same_sync |].
  pose proof (fit_sync measured s) as Hfit.
  destruct (terminal (fit measured s)) as [fitted |] eqn:Hfitted;
    [| exact Hfit].
  apply (keepsSync_trans s _ _ Hfit). apply syncPtySize_sync, Hfitted.
Qed.

(** Changes of the terminal that leave its size alone. *)
Lemma terminal_sync (t t' : Terminal) (s : State) :
  terminal s = Some t -> cols t' = cols t -> rows t' = rows t ->
  keepsSync s (set_terminal (Some t') s).
Proof.
  intros Ht Hcols Hrows. unfold keepsSync, inSync, sizesSent. rewrite Ht.
  simpl. split; [reflexivity |]. split; [reflexivity |].
  exists t'. rewrite Hcols, Hrows. auto.
Qed.

Lemma setTerminalFontSize_sync (next : Z) (measured : option (Z * Z))
    (s : State) :
  keepsSync s (setTerminalFontSize next measured s).
Proof.
  unfold setTerminalFontSize.
  destruct (terminal s) as [t |] eqn:Ht; [| same_sync].
  destruct (Z.eqb _ _); [same_sync |].
  eapply keepsSync_trans; [| apply fitTerminal_sync].
  apply (terminal_sync t); [exact Ht | reflexivity | reflexivity].
Qed.

Lemma zoomKeyPressed_sync (key : ZoomKey) (measured : option (Z * Z))
    (s : State) :
  keepsSync s (zoomKeyPressed key measured s).
Proof.
  unfold zoomKeyPressed.
  destruct (terminal s); [| same_sync].
  destruct key; apply setTerminalFontSize_sync.
Qed.

Lemma focus_sync (s : State) :
  keepsSync s match terminal s with
              | Some t => set_terminal (Some (focus t)) s
              | None => s
              end.
Proof.
  destruct (terminal s) as [t |] eqn:Ht; [| same_sync].
  apply (terminal_sync t); [exact Ht | reflexivity | reflexivity].
Qed.

Lemma activeChanged_sync (isActive : bool) (measured : option (Z * Z))
    (s : State) :
  keepsSync s (activeChanged isActive measured s).
Proof.
  unfold activeChanged.
  destruct (_ || _); [same_sync |].
  set (s1 := set_propActive isActive s).
  assert (H1 : keepsSync s s1) by same_sync.
  destruct (terminal s1); [| exact H1].
  destruct isActive; [| exact H1].
  apply (keepsSync_trans s _ _ H1).
  apply (keepsSync_trans s1 _ _ (fitTerminal_sync true measured s1)).
  apply focus_sync.
Qed.

Lemma mountedOpened_sync (shell : string) (measured : option (Z * Z))
    (s : State) :
  exists s',
    mountedOpened shell measured s = set_stage MountDone s'
    /\ keepsSync s s'.
Proof.
  unfold mountedOpened.
  set (s1 := set_emitted _ s).
  assert (H1 : keepsSync s s1) by same_sync.
  pose proof (keepsSync_trans s _ _ H1 (fitTerminal_sync true measured s1))
    as H2.
  set (s2 := set_observing true (fitTerminal true measured s1)).
  assert (H3 : keepsSync s s2).
  { apply (keepsSync_trans s _ _ H2). same_sync. }
  eexists. split; [reflexivity |].
  destruct (propActive s2); [| exact H3].
  apply (keepsSync_trans s _ _ H3). apply focus_sync.
Qed.

(** Steps that leave the terminal's size, the sizes sent and the debounce
    timeout alone. *)
Lemma size_moved (s s' : State) :
  SizeInv s ->
  (stage s' = NotMounted \/ stage s' = AwaitsGhostty -> terminal s = None) ->
  sizeOfTerminal <$> terminal s' = sizeOfTerminal <$> terminal s ->
  sizesSent s' = sizesSent s -> resizeDebounce s' = resizeDebounce s ->
  timeouts s' = timeouts s -> unmounted s' = unmounted s ->
  SizeInv s'.
Proof.
  unfold SizeInv, inSync.
  intros (Hnone & _ & Hsome) Hstage Hsize -> -> -> ->.
  destruct (terminal s) as [t |], (terminal s') as [t' |]; try discriminate.
  - injection Hsize as Hcols Hrows.
    split; [discriminate |].
    split; [intros Hearly; specialize (Hstage Hearly); discriminate |].
    intros t0 [= <-]. rewrite Hcols, Hrows. apply Hsome. reflexivity.
  - split; [exact Hnone |]. split; [reflexivity |]. discriminate.
Qed.

Lemma sizesSent_invoke (command : Command) (s : State) :
  isResizeCall command = false ->
  sizesSent (invoke command s) = sizesSent s.
Proof.
  intros Hother. unfold sizesSent, invoke. simpl. rewrite omap_app.
  destruct command; try discriminate; simpl; apply app_nil_r.
Qed.

Ltac moved :=
  let Hinv := fresh "Hinv" in
  let Hghostty := fresh "Hghostty" in
  intros Hinv; pose proof Hinv as (_ & Hghostty & _);
  apply (size_moved _ _ Hinv); try reflexivity;
  try (intros [? | ?]; simpl in *; congruence);
  try (simpl; exact Hghostty).

Lemma timeoutFired_size (id : nat) (s : State) :
  TimerInv s -> SizeInv s -> SizeInv (timeoutFired id s).
Proof.
  intros Htimers (Hnone & Hghostty & Hsome). unfold timeoutFired.
  destruct (timeouts s !! id) as [[c r] |] eqn:Hdue;
    [| exact (conj Hnone (conj Hghostty Hsome))].
  pose proof (Htimers _ _ Hdue) as Hheld.
  unfold SizeInv, inSync, sizesSent. simpl.
  destruct (terminal s) as [t |] eqn:Ht.
  - split; [discriminate |]. split; [exact Hghostty |].
    intros t0 [= <-] Hmounted. right.
    specialize (Hsome t eq_refl Hmounted). unfold inSync in Hsome.
    rewrite Hheld, Hdue in Hsome. injection Hsome as -> ->.
    rewrite omap_app. simpl. apply last_snoc.
  - destruct (Hnone eq_refl) as (_ & Hfree). congruence.
Qed.

Lemma onBeforeUnmount_size (s : State) :
  SizeInv s -> SizeInv (set_root false (onBeforeUnmount s)).
Proof.
  intros (Hnone & Hghostty & Hsome). unfold onBeforeUnmount.
  set (s1 := match resizeDebounce s with
             | Some id => clearTimeout id s
             | None => s
             end).
  assert (H1 : terminal s1 = terminal s /\ log s1 = log s
               /\ resizeDebounce s1 = resizeDebounce s
               /\ stage s1 = stage s /\ propTabId s1 = propTabId s).
  { unfold s1. destruct (resizeDebounce s) eqn:Hheld; simpl; repeat split;
      exact Hheld. }
  destruct H1 as (Hterminal & Hlog & Hheld & Hstage & Htab).
  unfold SizeInv, sizesSent.
  destruct (unlistenData s1), (unlistenExit _); simpl;
    rewrite Hterminal, Hlog, Hheld, Hstage, omap_app, app_nil_r;
    (split; [exact Hnone |]); (split; [exact Hghostty |]);
    intros t _ Hmounted; discriminate.
Qed.

Lemma step_size (s : State) (e : Event) :
  TimerInv s -> SizeInv s -> SizeInv (step s e).
Proof.
  intros Htimers.
  destruct e; simpl;
    try (apply size_kept;
         first [ apply activeChanged_sync
               | destruct (terminalAlive _);
                 first [ apply zoomKeyPressed_sync | same_sync ]
               | destruct (_ && _); first [ apply fit_sync | same_sync ] ]).
  - (* Mount *)
    destruct (stage s) eqn:Hstage; try (intros H; exact H).
    moved. intros _. apply Hghostty. left. exact Hstage.
  - (* GhosttyReady *)
    destruct (stage s) eqn:Hstage; try (intros H; exact H).
    intros (Hnone & Hghostty & _).
    destruct (Hnone (Hghostty (or_intror Hstage))) as (Hsent & Hfree).
    unfold SizeInv, inSync, mountedGhosttyReady, sizesSent in *. simpl.
    rewrite Hsent, Hfree.
    split; [discriminate |]. split; [intros [? | ?]; discriminate |]. auto.
  - (* ListenSettled *)
    destruct (stage s) eqn:Hstage; try (intros H; exact H);
      destruct ok; moved.
    unfold sizesSent, mountedListenExit. simpl. rewrite omap_app. simpl.
    apply app_nil_r.
  - (* OpenSettled *)
    destruct (stage s) eqn:Hstage; try (intros H; exact H).
    destruct result as [shell | reason]; [| moved].
    destruct (mountedOpened_sync shell measured s) as (s' & -> & Hkept).
    intros Hinv. apply (size_kept s s' Hkept) in Hinv.
    revert Hinv. moved.
  - (* TerminalInput *)
    destruct (terminalAlive s); [| intros H; exact H].
    moved. apply sizesSent_invoke. reflexivity.
  - (* TimeoutFired *)
    apply timeoutFired_size, Htimers.
  - (* TerminalData *)
    destruct (listeningData s); [| intros H; exact H].
    unfold onTerminalData. destruct (String.eqb _ _); [| intros H; exact H].
    destruct (terminal s) as [t |] eqn:Ht; [| intros H; exact H].
    moved; simpl; rewrite Ht; reflexivity.
  - (* TerminalExit *)
    destruct (listeningExit s); [| intros H; exact H].
    unfold onTerminalExit. destruct (String.eqb _ _); [| intros H; exact H].
    destruct (terminal s) as [t |] eqn:Ht; [| intros H; exact H].
    moved; simpl; rewrite Ht; reflexivity.
  - (* BeforeUnmount *)
    destruct (stage s); try (intros H; exact H);
      (destruct (unmounted s); [intros H; exact H |]);
      apply onBeforeUnmount_size.
  - (* CloseSettled *)
    destruct (unmounted s); [| intros H; exact H].
    unfold unmountClosed.
    destruct (terminal s) as [t |] eqn:Ht; [| intros H; exact H].
    moved; simpl; rewrite Ht; reflexivity.
Qed.

Lemma run_size (events : list Event) (s : State) :
  TimerInv s -> SizeInv s -> SizeInv (run s events).
Proof.
  revert s. induction events as [| e events IH]; intros s Htimers Hinv;
    [exact Hinv |].
  simpl. apply IH; [apply step_timers, Htimers | apply step_size; assumption].
Qed.

(** X4. The backend is never left with a stale size. For a mounted pane,
    while a debounce timeout is pending it holds the size the terminal has
    now, so that, when it fires, that size is what [resize_terminal] sends;
    while none is pending, the last size sent, if any was, is the size the
    terminal has. *)
Theorem pty_size_in_sync (tabId : string) (active : bool)
    (events : list Event) (t : Terminal) :
  let s := run (initial tabId active) events in
  terminal s = Some t -> unmounted s = false ->
  match resizeDebounce s with
  | Some id =>
      timeouts s !! id = Some (cols t, rows t)
      /\ log (step s (TimeoutFired id))
         = (log s ++ [resize_terminal tabId (cols t) (rows t)])%list
  | None => sizesSent s = [] \/ last (sizesSent s) = Some (cols t, rows t)
  end.
Proof.
  intros s Ht Hmounted.
  assert (Hinv : SizeInv s).
  { apply run_size; [apply initial_timers |].
    unfold SizeInv. simpl. repeat split; auto. discriminate. }
  destruct Hinv as (_ & _ & Hsome). specialize (Hsome t Ht Hmounted).
  unfold inSync in Hsome.
  destruct (resizeDebounce s) as [id |]; [| exact Hsome].
  split; [exact Hsome |].
  simpl. unfold timeoutFired. rewrite Hsome. simpl.
  destruct (run_calls tabId events _ (initial_calls tabId active))
    as (Htab & _).
  fold s in Htab. rewrite Htab. reflexivity.
Qed.

Lemma pty_size_in_sync_witness :
  exists t,
    terminal resizedPane = Some t /\ unmounted resizedPane = false
    /\ resizeDebounce resizedPane = Some 0
    /\ timeouts resizedPane !! 0 = Some (cols t, rows t)
    /\ sizeOfTerminal t = (120, 40)%Z.
Proof.
  unfold resizedPane.
  pose proof (pty_size_in_sync "tab-1" true
              [Mount; GhosttyReady 80 24; ListenSettled true; ListenSettled true;
               OpenSettled (Js.Resolved "/bin/zsh") (Some (120, 40))%Z])
    as Hsync.
  cbv zeta in Hsync.
  set (s := run _ _) in *.
  assert (Ht : terminal s
               = Some (mkTerminal 120 40 DEFAULT_FONT_SIZE true [] true false))
    by (vm_compute; reflexivity).
  assert (Hmounted : unmounted s = false) by (vm_compute; reflexivity).
  assert (Hheld : resizeDebounce s = Some 0) by (vm_compute; reflexivity).
  specialize (Hsync _ Ht Hmounted). rewrite Hheld in Hsync.
  destruct Hsync as (Hpending & _).
  eexists. split; [exact Ht |]. split; [exact Hmounted |].
  split; [exact Hheld |]. split; [exact Hpending | reflexivity].
Defined.

Lemma resizeBurst_frame (sizes : list (Z * Z)) (s : State) :
  let s' := resizeBurst sizes s in
  log s' = log s /\ propTabId s' = propTabId s /\ terminal s' = terminal s
  /\ (TimerInv s -> TimerInv s').
Proof.
  revert s. induction sizes as [| [c r] sizes IH]; intros s; simpl;
    [auto |].
  destruct (IH (onResize c r s)) as (Hlog & Htab & Hterminal & Htimers).
  destruct (onResize_holds c r s) as (_ & _ & Hterminal' & _ & _ & Hlog').
  assert (Htab' : propTabId (onResize c r s) = propTabId s).
  { unfold onResize, setResizeTimeout, clearTimeout.
    destruct (resizeDebounce s); reflexivity. }
  unfold resizeBurst in *. simpl in *.
  split; [congruence |]. split; [congruence |]. split; [congruence |].
  intros Hinv. apply Htimers, onResize_timers, Hinv.
Qed.

(** X5. Resize notifications are debounced. Whatever has happened to the
    pane, after a burst of resize notifications of its terminal no backend
    call has been made yet and exactly one timeout is pending, the one
    [resizeDebounce] holds, with the last size of the burst; when it fires,
    one [resize_terminal] call for that size is made and no timeout of the
    pane is left. *)
Theorem resize_burst_debounced (tabId : string) (active : bool)
    (events : list Event) (sizes : list (Z * Z)) (c r : Z) :
  let s := run (initial tabId active) events in
  let s' := resizeBurst (sizes ++ [(c, r)]) s in
  log s' = log s
  /\ exists id,
       resizeDebounce s' = Some id
       /\ timeouts s' = {[ id := (c, r) ]}
       /\ log (step s' (TimeoutFired id))
          = (log s ++ [resize_terminal tabId c r])%list
       /\ timeouts (step s' (TimeoutFired id)) = ∅
       /\ resizeDebounce (step s' (TimeoutFired id)) = None.
Proof.
  intros s s'.
  assert (Hinv : TimerInv s) by apply run_timers, initial_timers.
  destruct (run_calls tabId events _ (initial_calls tabId active))
    as (Htab & _).
  fold s in Htab.
  unfold s', resizeBurst. rewrite fold_left_app. cbn [fold_left fst snd].
  fold (resizeBurst sizes s).
  destruct (resizeBurst_frame sizes s) as (Hlog & Htab' & _ & Htimers).
  specialize (Htimers Hinv). cbv zeta in *.
  set (before := resizeBurst sizes s) in *.
  destruct (onResize_holds c r before)
    as (Hheld & Hdue & _ & _ & _ & Hlog').
  cbv zeta in *.
  assert (Honly : timeouts (onResize c r before)
                  = {[ nextTimer before := (c, r) ]}).
  { unfold onResize, setResizeTimeout. simpl.
    rewrite (cleared before Htimers), insert_empty.
    destruct (resizeDebounce before); reflexivity. }
  assert (Htab'' : propTabId (onResize c r before) = tabId).
  { rewrite <- Htab, <- Htab'. unfold onResize, setResizeTimeout, clearTimeout.
    destruct (resizeDebounce before); reflexivity. }
  remember (onResize c r before) as after eqn:Hafter. clear Hafter.
  split; [congruence |].
  exists (nextTimer before). split; [exact Hheld |]. split; [exact Honly |].
  cbn [step]. unfold timeoutFired. rewrite Hdue. simpl.
  rewrite Hlog', Hlog, Htab'', Honly.
  split; [reflexivity |]. split; [| reflexivity].
  apply delete_singleton_eq.
Qed.

Lemma fit_heard (measured : option (Z * Z)) (s : State) :
  heard (fit measured s) = heard s.
Proof.
  unfold heard, writtenTo, fit, resizeTerminal, onResize, setResizeTimeout,
    clearTimeout.
  repeat break_match; simpl; rewrite ?Heqo; reflexivity.
Qed.

Lemma fitTerminal_heard (force : bool) (measured : option (Z * Z))
    (s : State) :
  heard (fitTerminal force measured s) = heard s.
Proof.
  unfold fitTerminal.
  destruct (terminal s); [| reflexivity].
  destruct (negb (fitAddon s)); [reflexivity |].
  destruct (_ && _); [reflexivity |].
  destruct (terminal (fit measured s)); [| apply fit_heard].
  rewrite <- (fit_heard measured s). reflexivity.
Qed.

Lemma setTerminalFontSize_heard (next : Z) (measured : option (Z * Z))
    (s : State) :
  heard (setTerminalFontSize next measured s) = heard s.
Proof.
  unfold setTerminalFontSize.
  destruct (terminal s) as [t |] eqn:Ht; [| reflexivity].
  destruct (Z.eqb _ _); [reflexivity |].
  rewrite fitTerminal_heard. unfold heard, writtenTo. simpl. rewrite Ht.
  reflexivity.
Qed.

Lemma zoomKeyPressed_heard (key : ZoomKey) (measured : option (Z * Z))
    (s : State) :
  heard (zoomKeyPressed key measured s) = heard s.
Proof.
  unfold zoomKeyPressed.
  destruct (terminal s); [| reflexivity].
  destruct key; apply setTerminalFontSize_heard.
Qed.

Lemma focus_heard (s : State) :
  heard match terminal s with
        | Some t => set_terminal (Some (focus t)) s
        | None => s
        end = heard s.
Proof.
  destruct (terminal s) as [t |] eqn:Ht; [| reflexivity].
  unfold heard, writtenTo. simpl. rewrite Ht. reflexivity.
Qed.

Lemma activeChanged_heard (isActive : bool) (measured : option (Z * Z))
    (s : State) :
  heard (activeChanged isActive measured s) = heard s.
Proof.
  unfold activeChanged.
  destruct (_ || _); [reflexivity |].
  set (s1 := set_propActive isActive s).
  change (heard s) with (heard s1).
  destruct (terminal s1); [| reflexivity].
  destruct isActive; [| reflexivity].
  rewrite focus_heard. apply fitTerminal_heard.
Qed.

Lemma mountedOpened_heard (shell : string) (measured : option (Z * Z))
    (s : State) :
  heard (mountedOpened shell measured s) = heard (set_stage MountDone s).
Proof.
  unfold mountedOpened.
  set (s1 := set_emitted _ s).
  set (s2 := set_observing true (fitTerminal true measured s1)).
  assert (H2 : heard s2 = heard s).
  { change (heard s2) with (heard (fitTerminal true measured s1)).
    rewrite fitTerminal_heard. reflexivity. }
  assert (H3 : heard (if propActive s2
                      then match terminal s2 with
                           | Some t => set_terminal (Some (focus t)) s2
                           | None => s2
                           end
                      else s2) = heard s).
  { destruct (propActive s2); [rewrite focus_heard |]; exact H2. }
  revert H3. unfold heard, writtenTo. simpl. intros [= -> -> -> -> -> _ -> ->].
  reflexivity.
Qed.

(** The steps that only resize, zoom or focus. *)
Lemma step_heard (s : State) (e : Event) :
  match e with
  | ActiveChanged _ _ | KeyPressed _ _ | ContainerResized _ | TitleChanged _
  | TerminalInput _ | TimeoutFired _ => heard (step s e) = heard s
  | OpenSettled (Js.Resolved _) _ =>
      stage s = AwaitsOpen -> heard (step s e) = heard (set_stage MountDone s)
  | _ => True
  end.
Proof.
  destruct e; simpl; try exact I.
  - destruct result; [| exact I]. intros ->. apply mountedOpened_heard.
  - apply activeChanged_heard.
  - destruct (terminalAlive s); reflexivity.
  - destruct (terminalAlive s); [apply zoomKeyPressed_heard | reflexivity].
  - destruct (_ && _); [apply fit_heard | reflexivity].
  - destruct (terminalAlive s); reflexivity.
  - unfold timeoutFired. destruct (timeouts s !! id) as [[c r] |];
      reflexivity.
Qed.

Ltac heard_same Hsame :=
  unfold heard in Hsame; injection Hsame; clear Hsame; intros.

Lemma listen_same (s s' : State) :
  heard s' = heard s -> ListenInv s -> ListenInv s'.
Proof.
  unfold heard, ListenInv.
  intros [= Hdata Hexit Hmine Hboth Hwritten Hstage Hun Htab] Hinv.
  rewrite Hdata, Hmine, Hboth, Hwritten, Hstage. exact Hinv.
Qed.

Lemma step_listen (s : State) (e : Event) :
  ListenInv s -> ListenInv (step s e).
Proof.
  pose proof (step_heard s e) as Hsame.
  destruct e; try (apply listen_same; exact Hsame); clear Hsame; simpl.
  4: { destruct (stage s) eqn:Hstage; try (intros H; exact H).
       destruct result as [shell | reason].
       - intros _.
         pose proof (mountedOpened_heard shell measured s) as Hsame.
         heard_same Hsame. unfold ListenInv. simpl in *.
         repeat split; auto; congruence.
       - unfold ListenInv. simpl. intros _. repeat split; auto; congruence. }
  all: unfold ListenInv, writtenTo; unfold_pane; repeat break_match;
    simpl in *; intros (Hdata & Hexit & Hfirst); recall s; simpl in *.
  all: repeat split; auto; try discriminate; intuition congruence.
Qed.

Lemma run_listen (events : list Event) (s : State) :
  ListenInv s -> ListenInv (run s events).
Proof.
  revert s. induction events as [| e events IH]; intros s Hinv;
    [exact Hinv |].
  simpl. apply IH, step_listen, Hinv.
Qed.

Lemma initial_listen (tabId : string) (active : bool) :
  ListenInv (initial tabId active).
Proof. unfold ListenInv. simpl. repeat split; discriminate. Qed.

Lemma deaf_same (s s' : State) :
  heard s' = heard s -> Deaf s -> Deaf s' /\ writtenTo s' = writtenTo s.
Proof.
  unfold heard, Deaf.
  intros [= Hdata Hexit Hmine Hboth Hwritten Hstage Hun Htab] Hdeaf.
  rewrite Hdata, Hexit, Hstage, Hun. split; [exact Hdeaf | exact Hwritten].
Qed.

Lemma step_deaf (s : State) (e : Event) :
  Deaf s -> Deaf (step s e) /\ writtenTo (step s e) = writtenTo s.
Proof.
  pose proof (step_heard s e) as Hsame.
  destruct e; try (apply deaf_same; exact Hsame); clear Hsame; simpl.
  4: { intros Hdeaf. destruct (stage s) eqn:Hstage; try (split; [exact Hdeaf | reflexivity]).
       destruct result as [shell | reason].
       - pose proof (mountedOpened_heard shell measured s) as Hsame.
         destruct (deaf_same (set_stage MountDone s) _ Hsame) as (Hafter & ->);
           [| split; [exact Hafter | reflexivity]].
         revert Hdeaf. unfold Deaf. simpl. intuition.
       - revert Hdeaf. unfold Deaf, writtenTo. simpl. intuition. }
  all: unfold Deaf, writtenTo; unfold_pane; repeat break_match;
    simpl in *; intros (Hun & Hdata & Hexit & Hstage); recall s; simpl in *.
  all: try rewrite Heqo; repeat split; auto; try discriminate;
    intuition congruence.
Qed.

Lemma run_deaf (events : list Event) (s : State) :
  Deaf s -> Deaf (run s events) /\ writtenTo (run s events) = writtenTo s.
Proof.
  revert s. induction events as [| e events IH]; intros s Hdeaf;
    [split; [exact Hdeaf | reflexivity] |].
  simpl. destruct (step_deaf s e Hdeaf) as (Hnext & <-). apply IH, Hnext.
Qed.

(** X6. A pane unmounted after both [listen] calls of [onMounted] resolved
    hears nothing any more: whatever happens afterwards its two listeners
    stay removed, a [terminal-data] or [terminal-exit] event changes
    nothing, and nothing more is written to its terminal. *)
Theorem unmounted_pane_hears_nothing (tabId : string) (active : bool)
    (events later : list Event) :
  let s := run (initial tabId active) events in
  let s' := run (step s BeforeUnmount) later in
  unlistenData s = true -> unlistenExit s = true -> unmounted s = false ->
  listeningData s' = false /\ listeningExit s' = false
  /\ (forall payload, step s' (TerminalData payload) = s')
  /\ (forall payload, step s' (TerminalExit payload) = s')
  /\ writtenTo s' = writtenTo s.
Proof.
  intros s s' Hdata Hexit Hmounted.
  destruct (run_listen events _ (initial_listen tabId active))
    as (_ & Hboth & _).
  fold s in Hboth. specialize (Hboth Hexit).
  assert (Htorn : Deaf (step s BeforeUnmount)
                  /\ writtenTo (step s BeforeUnmount) = writtenTo s).
  { simpl. unfold Deaf, writtenTo, onBeforeUnmount.
    assert (Hlate : stage s <> NotMounted) by (destruct Hboth; congruence).
    destruct (stage s) eqn:Hstage; try congruence; rewrite Hmounted;
      destruct (resizeDebounce s); simpl; rewrite Hdata; simpl;
      rewrite Hexit; simpl; repeat split; auto;
      destruct Hboth; discriminate. }
  destruct Htorn as (Hdeaf & Hsame).
  destruct (run_deaf later _ Hdeaf) as ((_ & Hoff & Hoff' & _) & Hwritten).
  fold s' in Hoff, Hoff', Hwritten.
  split; [exact Hoff |]. split; [exact Hoff' |].
  split; [intros payload; simpl; rewrite Hoff; reflexivity |].
  split; [intros payload; simpl; rewrite Hoff'; reflexivity |].
  congruence.
Qed.

Lemma unmounted_pane_hears_nothing_witness :
  let s' := run (step resizedPane BeforeUnmount)
              [TerminalData (mkDataPayload "tab-1" "late"); CloseSettled;
               TerminalExit (mkExitPayload "tab-1")] in
  unlistenData resizedPane = true /\ unlistenExit resizedPane = true
  /\ unmounted resizedPane = false
  /\ listeningData s' = false /\ writtenTo s' = writtenTo resizedPane.
Proof.
  unfold resizedPane.
  pose proof (unmounted_pane_hears_nothing "tab-1" true
              [Mount; GhosttyReady 80 24; ListenSettled true; ListenSettled true;
               OpenSettled (Js.Resolved "/bin/zsh") (Some (120, 40))%Z]
              [TerminalData (mkDataPayload "tab-1" "late"); CloseSettled;
               TerminalExit (mkExitPayload "tab-1")])
    as Hdeaf.
  cbv zeta in *.
  set (s := run (initial "tab-1" true) _) in *.
  assert (Hdata : unlistenData s = true) by (vm_compute; reflexivity).
  assert (Hexit : unlistenExit s = true) by (vm_compute; reflexivity).
  assert (Hmounted : unmounted s = false) by (vm_compute; reflexivity).
  destruct (Hdeaf Hdata Hexit Hmounted) as (Hoff & _ & _ & _ & Hwritten).
  auto.
Defined.

Lemma leaked_same (tabId : string) (s s' : State) :
  heard s' = heard s -> Leaked tabId s -> Leaked tabId s'.
Proof.
  unfold heard, Leaked.
  intros [= Hdata Hexit Hmine Hboth Hwritten Hstage Hun Htab] Hleaked.
  rewrite Hdata, Hmine, Hwritten, Hun, Htab. exact Hleaked.
Qed.

Lemma step_leaked (tabId : string) (s : State) (e : Event) :
  Leaked tabId s -> Leaked tabId (step s e).
Proof.
  pose proof (step_heard s e) as Hsame.
  destruct e; try (apply leaked_same; exact Hsame); clear Hsame; simpl.
  4: { intros Hleaked. destruct (stage s) eqn:Hstage; try exact Hleaked.
       destruct result as [shell | reason]; [| exact Hleaked].
       apply (leaked_same tabId (set_stage MountDone s));
         [apply mountedOpened_heard | exact Hleaked]. }
  all: unfold Leaked, writtenTo; unfold_pane; repeat break_match;
    simpl in *; intros (Hun & Hdata & Hmine & Hwritten & Htab); recall s;
    simpl in *.
  all: try rewrite Heqo in *; repeat split; auto; try discriminate;
    try congruence.
Qed.

Lemma run_leaked (tabId : string) (events : list Event) (s : State) :
  Leaked tabId s -> Leaked tabId (run s events).
Proof.
  revert s. induction events as [| e events IH]; intros s Hleaked;
    [exact Hleaked |].
  simpl. apply IH, step_leaked, Hleaked.
Qed.

(** X7. A pane unmounted while the first [listen] call of [onMounted] is
    still pending never removes that listener: [onBeforeUnmount] finds
    [unlistenData] still null, and when the call resolves afterwards the
    function it yields is stored but never called. Whatever happens then,
    the listener stays registered and [terminal-data] events of the tab are
    still written to the terminal. *)
Theorem early_unmount_leaks_listener (tabId : string) (active : bool)
    (events later : list Event) :
  let s := run (initial tabId active) events in
  let s' := run s (BeforeUnmount :: ListenSettled true :: later) in
  stage s = AwaitsListenData -> unmounted s = false ->
  unmounted s' = true /\ unlistenData s' = true /\ listeningData s' = true
  /\ exists t,
       terminal s' = Some t
       /\ forall data,
            terminal (step s' (TerminalData (mkDataPayload tabId data)))
            = Some (write data t).
Proof.
  intros s s' Hstage Hmounted.
  destruct (run_listen events _ (initial_listen tabId active))
    as (Hmine & _ & Hfirst).
  fold s in Hmine, Hfirst. destruct (Hfirst Hstage) as (Hon & Hterminal).
  assert (Hnull : unlistenData s = false).
  { destruct (unlistenData s); [| reflexivity].
    destruct (Hmine eq_refl) as [? | [? | ?]]; congruence. }
  destruct (run_calls tabId events _ (initial_calls tabId active))
    as (Htab & _).
  fold s in Htab.
  assert (Hleaked : Leaked tabId (step (step s BeforeUnmount)
                                    (ListenSettled true))).
  { unfold Leaked, writtenTo in *. simpl.
    rewrite Hstage, Hmounted. unfold onBeforeUnmount.
    destruct (resizeDebounce s); simpl; rewrite Hnull; simpl;
      destruct (unlistenExit s); simpl; rewrite Hstage; simpl;
      repeat split; auto. }
  apply (run_leaked tabId later) in Hleaked.
  change (Leaked tabId s') in Hleaked.
  destruct Hleaked as (Hun & Hdata & Hheld & Hwritten & Htab').
  split; [exact Hun |]. split; [exact Hheld |]. split; [exact Hdata |].
  unfold writtenTo in Hwritten.
  destruct (terminal s') as [t |] eqn:Ht; [| contradiction].
  exists t. split; [reflexivity |]. intros data. simpl.
  rewrite Hdata. unfold onTerminalData. simpl.
  rewrite Htab', String.eqb_refl, Ht. reflexivity.
Qed.

Lemma early_unmount_leaks_listener_witness :
  let s := run (initial "tab-1" true) [Mount; GhosttyReady 80 24] in
  let s' := run s [BeforeUnmount; ListenSettled true; ListenSettled true;
                   CloseSettled] in
  stage s = AwaitsListenData /\ unmounted s = false
  /\ unmounted s' = true /\ listeningData s' = true.
Proof.
  pose proof (early_unmount_leaks_listener "tab-1" true
                [Mount; GhosttyReady 80 24]
                [ListenSettled true; CloseSettled]) as Hleak.
  cbv zeta in *.
  set (s := run (initial "tab-1" true) _) in *.
  assert (Hstage : stage s = AwaitsListenData) by (vm_compute; reflexivity).
  assert (Hmounted : unmounted s = false) by (vm_compute; reflexivity).
  destruct (Hleak Hstage Hmounted) as (Hun & _ & Hdata & _).
  auto.
Defined.

End TerminalPaneInvariants.

(** * Invariants of the application root *)

Module AppInvariants.
Import App AppFacts.

Lemma known_spec (id : string) (ids : list string) :
  known id ids = true <-> In id ids.
Proof.
  unfold known. rewrite existsb_exists. split.
  - intros (other & Hin & Hsame). apply String.eqb_eq in Hsame. congruence.
  - intros Hin. exists id. split; [exact Hin | apply String.eqb_refl].
Qed.

Lemma unknown_spec (id : string) (ids : list string) :
  negb (known id ids) = true <-> ~ In id ids.
Proof.
  rewrite <- known_spec. destruct (known id ids); simpl; split; auto;
    try discriminate.
Qed.

Lemma wellFormed_same (s s' : State) :
  sameData s s' -> WellFormed s -> WellFormed s'.
Proof.
  unfold sameData, WellFormed, projectIds, tabIds.
  intros (-> & -> & -> & ->) Hwell. exact Hwell.
Qed.

Lemma sync_data (s : State) : sameData s (syncActiveTerminalCwd s).
Proof.
  unfold syncActiveTerminalCwd, sameData.
  repeat break_match; simpl; auto.
Qed.

Lemma watched_data (handler : State -> State) (s : State) :
  sameData (handler s) (watched handler s).
Proof.
  unfold watched.
  destruct (phase (handler s)); try (destruct (Js.sameString _ _));
    first [apply sync_data | unfold sameData; auto].
Qed.

Lemma watched_well (handler : State -> State) (s : State) :
  WellFormed (handler s) -> WellFormed (watched handler s).
Proof. apply wellFormed_same, watched_data. Qed.

(** The first tab of a project that has one. *)
Lemma find_tabsOf (projectId : string) (all : list TerminalTab) :
  tabsOf projectId all <> [] ->
  exists tab,
    List.find (fun tab => String.eqb (tab_projectId tab) projectId) all
    = Some tab
    /\ In tab all /\ tab_projectId tab = projectId.
Proof.
  intros Hsome. apply tabsOf_nonempty in Hsome as (tab & Hin & Hproject).
  destruct (List.find _ all) as [first |] eqn:Hfind.
  - apply find_some_in in Hfind as Hfacts. destruct Hfacts as (Hin' & Hsame).
    apply String.eqb_eq in Hsame. eauto.
  - apply (List.find_none _ _ Hfind) in Hin.
    rewrite Hproject, String.eqb_refl in Hin. discriminate.
Qed.

Lemma NoDup_snoc {A : Type} (l : list A) (x : A) :
  List.NoDup l -> ~ In x l -> List.NoDup (l ++ [x]).
Proof.
  induction l as [| a l IH]; simpl; intros Hunique Hfresh.
  - constructor; [intros [] | constructor].
  - inversion Hunique as [| ? ? Hnew Hrest]; subst.
    constructor.
    + intros Hin. apply in_app_or in Hin as [Hin | [<- | []]]; auto.
    + apply IH; auto.
Qed.

Lemma NoDup_map_filter {A B : Type} (f : A -> B) (keep : A -> bool)
    (l : list A) :
  List.NoDup (List.map f l) -> List.NoDup (List.map f (List.filter keep l)).
Proof.
  induction l as [| a l IH]; simpl; intros Hunique; [constructor |].
  inversion Hunique as [| ? ? Hfresh Hrest]; subst.
  destruct (keep a); simpl; [| apply IH, Hrest].
  constructor; [| apply IH, Hrest].
  intros Hin. apply Hfresh. apply in_map_iff in Hin as (b & Hsame & Hb).
  apply filter_In in Hb as (Hb & _). apply in_map_iff. eauto.
Qed.

Lemma setActiveProject_well (projectId : string) (s : State) :
  known projectId (projectIds s) = true ->
  WellFormed s -> WellFormed (setActiveProject projectId s).
Proof.
  intros Hknown (Hprojects & Htabs & Hpopulated & Howned & Hactive).
  apply known_spec in Hknown. unfold projectIds in Hknown.
  apply in_map_iff in Hknown as (project & <- & Hin).
  destruct (find_tabsOf _ _ (Hpopulated project Hin))
    as (tab & Hfind & Hin' & Hproject).
  unfold WellFormed, setActiveProject, projectIds, tabIds. simpl.
  rewrite Hfind. simpl.
  repeat split; try assumption.
  exists tab. rewrite Hproject. auto.
Qed.

Lemma commitCreateProject_well (random1 random2 : string) (s : State) :
  negb (known (uid "project" random1) (projectIds s))
  && negb (known (uid "tab" random2) (tabIds s)) = true ->
  WellFormed s -> WellFormed (commitCreateProject random1 random2 s).
Proof.
  intros Hfresh Hwell. apply andb_prop in Hfresh as (Hproject & Htab).
  apply unknown_spec in Hproject. apply unknown_spec in Htab.
  unfold commitCreateProject.
  destruct (negb (Js.truthy _));
    [apply (wellFormed_same s); [unfold sameData; auto | exact Hwell] |].
  destruct Hwell as (Hprojects & Htabs & Hpopulated & Howned & Hactive).
  unfold WellFormed, projectIds, tabIds in *. simpl.
  rewrite !map_app. simpl.
  split; [apply NoDup_snoc; assumption |].
  split; [apply NoDup_snoc; assumption |].
  split.
  { intros project Hin. apply tabsOf_nonempty.
    apply in_app_or in Hin as [Hin | [<- | []]].
    - apply (Hpopulated project) in Hin.
      apply tabsOf_nonempty in Hin as (tab & Hin & Hsame).
      exists tab. split; [apply in_or_app; left; exact Hin | exact Hsame].
    - eexists. split; [apply in_or_app; right; left; reflexivity |].
      reflexivity. }
  split.
  { intros tab Hin. apply in_or_app.
    apply in_app_or in Hin as [Hin | [<- | []]].
    - left. apply Howned, Hin.
    - right. left. reflexivity. }
  eexists. split; [apply in_or_app; right; left; reflexivity |].
  split; reflexivity.
Qed.

Lemma createTab_well (random : string) (s : State) :
  negb (known (uid "tab" random) (tabIds s)) = true ->
  WellFormed s -> WellFormed (createTab random s).
Proof.
  intros Hfresh Hwell. apply unknown_spec in Hfresh.
  unfold createTab.
  destruct (activeProjectId s) as [projectId |] eqn:Hproject; [| exact Hwell].
  destruct (negb (Js.truthy _)); [exact Hwell |].
  destruct Hwell as (Hprojects & Htabs & Hpopulated & Howned & Hactive).
  unfold WellFormed, projectIds, tabIds in *. simpl.
  rewrite !map_app. simpl.
  assert (Hlisted : In projectId (List.map project_id (projects s))).
  { destruct Hactive as (tab & Hin & _ & Hsame).
    rewrite Hproject in Hsame. injection Hsame as ->. apply Howned, Hin. }
  split; [exact Hprojects |].
  split; [apply NoDup_snoc; assumption |].
  split.
  { intros project Hin. apply (Hpopulated project) in Hin.
    apply tabsOf_nonempty in Hin as (tab & Hin & Hsame).
    apply tabsOf_nonempty.
    exists tab. split; [apply in_or_app; left; exact Hin | exact Hsame]. }
  split.
  { intros tab Hin. apply in_app_or in Hin as [Hin | [<- | []]].
    - apply Howned, Hin.
    - exact Hlisted. }
  eexists. split; [apply in_or_app; right; left; reflexivity |].
  rewrite Hproject. split; reflexivity.
Qed.

Lemma filter_other_project (projectId other : string)
    (all : list TerminalTab) :
  other <> projectId ->
  tabsOf other
    (List.filter (fun tab => negb (String.eqb (tab_projectId tab) projectId))
       all)
  = tabsOf other all.
Proof.
  intros Hother. unfold tabsOf.
  induction all as [| tab all IH]; simpl; [reflexivity |].
  destruct (String.eqb_spec (tab_projectId tab) projectId) as [Hsame | Hdiff];
    simpl.
  - destruct (String.eqb_spec (tab_projectId tab) other); [congruence |].
    exact IH.
  - destruct (String.eqb (tab_projectId tab) other); [f_equal |]; exact IH.
Qed.

(** With more than one project and unique ids, another project is left. *)
Lemma another_project (projectId : string) (all : list Project) :
  List.NoDup (List.map project_id all) -> 1 < length all ->
  exists project, In project all /\ project_id project <> projectId.
Proof.
  destruct all as [| first [| second rest]]; simpl; try lia.
  intros Hunique _.
  destruct (String.eqb_spec (project_id first) projectId) as [Hsame | Hdiff].
  - exists second. split; [auto |]. intros Hsecond.
    inversion Hunique as [| ? ? Hfresh _]; subst. apply Hfresh.
    left. congruence.
  - exists first. auto.
Qed.

Lemma deleteProject_well (projectId : string) (s : State) :
  WellFormed s -> WellFormed (deleteProject projectId s).
Proof.
  intros Hwell. unfold deleteProject.
  destruct (Nat.leb_spec (length (projects s)) 1) as [Hfew | Hmany];
    [exact Hwell |].
  destruct Hwell as (Hprojects & Htabs & Hpopulated & Howned & Hactive).
  set (remainingProjects :=
         List.filter (fun project => negb (String.eqb (project_id project) projectId))
           (projects s)).
  set (remainingTabs :=
         List.filter (fun tab => negb (String.eqb (tab_projectId tab) projectId))
           (tabs s)).
  assert (Hleft : forall project,
            In project remainingProjects
            <-> In project (projects s) /\ project_id project <> projectId).
  { intros project. unfold remainingProjects. rewrite filter_In.
    destruct (String.eqb_spec (project_id project) projectId); simpl;
      intuition congruence. }
  assert (Hstill : forall project,
            In project remainingProjects ->
            tabsOf (project_id project) remainingTabs <> []).
  { intros project Hin. apply Hleft in Hin as (Hin & Hother).
    unfold remainingTabs. rewrite filter_other_project by exact Hother.
    apply Hpopulated, Hin. }
  assert (Hnext : exists project,
            In project remainingProjects
            /\ (if Js.sameString (activeProjectId s) (Some projectId)
                then option_map project_id (head remainingProjects)
                else activeProjectId s)
               = Some (project_id project)).
  { destruct (Js.sameString (activeProjectId s) (Some projectId)) eqn:Hsame.
    - destruct (another_project projectId (projects s) Hprojects Hmany)
        as (other & Hin & Hother).
      assert (Hin' : In other remainingProjects) by (apply Hleft; auto).
      destruct remainingProjects as [| first rest]; [contradiction |].
      exists first. split; [left; reflexivity | reflexivity].
    - destruct Hactive as (tab & Hin & _ & Hproject).
      apply Howned in Hin. unfold projectIds in Hin.
      apply in_map_iff in Hin as (project & Hid & Hin).
      exists project. split; [| congruence].
      apply Hleft. split; [exact Hin |]. intros Hdeleted.
      rewrite Hproject, <- Hid, Hdeleted in Hsame. simpl in Hsame.
      rewrite String.eqb_refl in Hsame. discriminate. }
  destruct Hnext as (next & Hin & Hnext).
  unfold WellFormed, projectIds, tabIds. simpl.
  fold remainingProjects remainingTabs. rewrite Hnext. simpl.
  destruct (find_tabsOf _ _ (Hstill next Hin))
    as (tab & Hfind & Hin' & Hproject).
  rewrite Hfind. simpl.
  split; [apply NoDup_map_filter, Hprojects |].
  split; [apply NoDup_map_filter, Htabs |].
  split; [exact Hstill |].
  split.
  { intros other Hother. apply filter_In in Hother as (Hother & Hkept).
    apply Howned in Hother. unfold projectIds in Hother.
    apply in_map_iff in Hother as (project & Hid & Hlisted).
    apply in_map_iff. exists project. split; [exact Hid |].
    apply Hleft. split; [exact Hlisted |]. intros Hdeleted.
    rewrite <- Hid, Hdeleted, String.eqb_refl in Hkept. discriminate. }
  exists tab. rewrite Hproject. auto.
Qed.

Lemma closeTab_well (tabId random : string) (s : State) :
  negb (known (uid "tab" random) (tabIds s)) = true ->
  WellFormed s -> WellFormed (closeTab tabId random s).
Proof.
  intros Hfresh Hwell. apply unknown_spec in Hfresh.
  destruct (List.find (fun item => String.eqb (tab_id item) tabId) (tabs s))
    as [tab |] eqn:Hfound.
  2: { unfold closeTab. rewrite Hfound. exact Hwell. }
  destruct Hwell as (Hprojects & Htabs & Hpopulated & Howned & Hactive).
  pose proof (closeTab_tabs tabId random tab s Hfound) as Hafter.
  pose proof (closeTab_active tabId random tab s Hfound) as Hselected.
  apply find_some_in in Hfound as (Hin & Hid). apply String.eqb_eq in Hid.
  assert (Hsame : projects (closeTab tabId random s) = projects s
                  /\ activeProjectId (closeTab tabId random s)
                     = activeProjectId s).
  { unfold closeTab.
    destruct (List.find _ (tabs s)); [| auto]. simpl.
    destruct (negb _); simpl; destruct (Js.sameString _ _); auto. }
  destruct Hsame as (Hsame & Hproject).
  assert (Hkept : forall other, In other (tabs s) -> tab_id other <> tabId ->
                                In other (tabs (closeTab tabId random s))).
  { intros other Hother Hne.
    assert (Hstays : In other (kept tabId (tabs s))).
    { apply filter_In. split; [exact Hother |].
      destruct (String.eqb_spec (tab_id other) tabId);
        [contradiction | reflexivity]. }
    rewrite Hafter. destruct (existsb _ _); [exact Hstays |].
    apply in_or_app. left. exact Hstays. }
  assert (Hfrom : forall other,
            In other (tabs (closeTab tabId random s)) ->
            In other (tabs s)
            \/ other = replacementTab random (tab_projectId tab)).
  { intros other. rewrite Hafter.
    destruct (existsb _ _).
    - intros Hother. apply filter_In in Hother as (Hother & _). auto.
    - intros Hother. apply in_app_or in Hother as [Hother | [<- | []]];
        [| auto].
      apply filter_In in Hother as (Hother & _). auto. }
  assert (Hfull : tabsOf (tab_projectId tab) (tabs (closeTab tabId random s))
                  <> []).
  { rewrite Hafter.
    destruct (existsb _ (kept tabId (tabs s))) eqn:Hsome.
    - apply existsb_tabsOf. exact Hsome.
    - apply tabsOf_nonempty. exists (replacementTab random (tab_projectId tab)).
      split; [apply in_or_app; right; left; reflexivity | reflexivity]. }
  unfold WellFormed, projectIds, tabIds. rewrite Hsame, Hproject.
  split; [exact Hprojects |].
  split.
  { rewrite Hafter. unfold kept.
    destruct (existsb _ _); [apply NoDup_map_filter, Htabs |].
    rewrite map_app. simpl. apply NoDup_snoc; [apply NoDup_map_filter, Htabs |].
    intros Hused. apply Hfresh. unfold tabIds.
    apply in_map_iff in Hused as (other & Hother & Hin').
    apply filter_In in Hin' as (Hin' & _). apply in_map_iff. eauto. }
  split.
  { intros project Hlisted.
    destruct (String.eqb_spec (project_id project) (tab_projectId tab))
      as [-> | Hother]; [exact Hfull |].
    apply (Hpopulated project) in Hlisted.
    apply tabsOf_nonempty in Hlisted as (other & Hin' & Hits).
    apply tabsOf_nonempty. exists other. split; [| exact Hits].
    apply Hkept; [exact Hin' |]. intros Hclosed. apply Hother.
    assert (Heq : other = tab).
    { apply (unique_ids tab_id (tabs s)); try assumption. congruence. }
    subst other. symmetry. exact Hits. }
  split.
  { intros other Hother. apply Hfrom in Hother as [Hother | ->].
    - apply Howned, Hother.
    - simpl. apply Howned, Hin. }
  destruct Hactive as (active & Hinactive & Hactive & Hshown).
  rewrite Hselected, Hactive. simpl.
  destruct (String.eqb_spec (tab_id active) tabId) as [Hclosed | Hother].
  - assert (Heq : active = tab).
    { apply (unique_ids tab_id (tabs s)); try assumption. congruence. }
    subst active.
    destruct (find_tabsOf _ _ Hfull) as (next & Hfind & Hnext & Hits).
    rewrite Hfind. simpl. exists next. rewrite Hits. auto.
  - exists active. split; [apply Hkept; assumption | auto].
Qed.

Lemma selectTab_well (tabId : string) (s : State) :
  possible s (SelectTab tabId) = true ->
  WellFormed s -> WellFormed (set_activeTabId (Some tabId) s).
Proof.
  unfold possible.
  intros Hpick (Hprojects & Htabs & Hpopulated & Howned & Hactive).
  apply existsb_exists in Hpick as (tab & Hin & Hpick).
  apply andb_prop in Hpick as (Hid & Hshown).
  apply String.eqb_eq in Hid. apply sameString_spec in Hshown.
  unfold WellFormed, projectIds, tabIds. simpl.
  repeat split; try assumption.
  exists tab. rewrite Hid. auto.
Qed.

Lemma step_well (s : State) (e : Event) :
  possible s e = true -> WellFormed s -> WellFormed (step s e).
Proof.
  destruct e; cbn [step possible]; intros Hpossible Hwell;
    try (apply watched_well);
    first [ apply setActiveProject_well; assumption
          | apply commitCreateProject_well; assumption
          | apply deleteProject_well; assumption
          | apply createTab_well; assumption
          | apply selectTab_well; assumption
          | apply closeTab_well; assumption
          | idtac ].
  all: revert Hwell; apply wellFormed_same.
  all: unfold sameData, onMounted, onBeforeUnmount, startCreateProject,
         cancelCreateProject, onSessionMeta, onSessionTitle, toggleGitPanel,
         intervalFired, settle, cwdSettled, clearInterval.
  all: repeat break_match; simpl; try apply sync_data; auto.
Qed.

Lemma run_well (events : list Event) (s : State) :
  possibleRun s events = true -> WellFormed s -> WellFormed (run s events).
Proof.
  revert s. induction events as [| e events IH]; simpl; intros s Hpossible Hwell;
    [exact Hwell |].
  apply andb_prop in Hpossible as (Hfirst & Hrest).
  apply IH; [exact Hrest | apply step_well; assumption].
Qed.

Lemma defaultState_well (random1 random2 : string) :
  WellFormed (defaultState random1 random2).
Proof.
  unfold WellFormed, defaultState, projectIds, tabIds, tabsOf. simpl.
  split; [repeat constructor; intros [] |].
  split; [repeat constructor; intros [] |].
  split.
  { intros project [<- | []]. simpl. rewrite String.eqb_refl. discriminate. }
  split; [intros tab [<- | []]; left; reflexivity |].
  eexists. split; [left; reflexivity |]. split; reflexivity.
Qed.

(** X8. The workspace stays in order. A fresh installation starts with a
    well-formed workspace, and whatever the user does then (picking listed
    projects and tabs of the project shown, creating, closing, deleting), as
    long as [uid] draws ids that are not in use, ids stay unique, every
    project keeps at least one tab, every tab belongs to a listed project,
    and the active tab is a tab of the active project, which is listed. *)
Theorem workspace_stays_well_formed (s : State) (events : list Event) :
  WellFormed s -> possibleRun s events = true ->
  let s' := run s events in
  WellFormed s' /\ projects s' <> []
  /\ exists project, In project (projects s')
                     /\ activeProjectId s' = Some (project_id project).
Proof.
  intros Hwell Hpossible s'.
  pose proof (run_well events s Hpossible Hwell) as Hafter. fold s' in Hafter.
  split; [exact Hafter |].
  destruct Hafter as (_ & _ & _ & Howned & tab & Hin & _ & Hactive).
  apply Howned in Hin. unfold projectIds in Hin.
  apply in_map_iff in Hin as (project & Hid & Hlisted).
  split; [intros Hnone; rewrite Hnone in Hlisted; contradiction |].
  exists project. split; [exact Hlisted | congruence].
Qed.

Lemma workspace_stays_well_formed_witness :
  let events :=
    [Mount; CreateTab "a"; StartCreateProject; NewProjectNameInput "work";
     CommitCreateProject "q" "u"; SetActiveProject "project-p";
     SelectTab "tab-a"; CloseTab "tab-a" "z"; CloseTab "tab-t" "y";
     DeleteProject "project-p"] in
  let s' := run (defaultState "p" "t") events in
  possibleRun (defaultState "p" "t") events = true /\ WellFormed s'
  /\ tabIds s' = ["tab-u"] /\ activeTabId s' = Some "tab-u".
Proof.
  intros events s'.
  assert (Hpossible : possibleRun (defaultState "p" "t") events = true)
    by (vm_compute; reflexivity).
  split; [exact Hpossible |].
  split; [| split; vm_compute; reflexivity].
  exact (proj1 (workspace_stays_well_formed (defaultState "p" "t") events
                  (defaultState_well "p" "t") Hpossible)).
Defined.

Lemma append_cons (c : Ascii.ascii) (a b : string) :
  String c a +:+ b = String c (a +:+ b).
Proof. reflexivity. Qed.

Lemma append_empty (text : string) : text +:+ "" = text.
Proof.
  induction text as [| c text IH]; [reflexivity |].
  rewrite append_cons, IH. reflexivity.
Qed.

Lemma append_append (a b c : string) : (a +:+ b) +:+ c = a +:+ (b +:+ c).
Proof.
  induction a as [| x a IH]; [reflexivity |].
  rewrite !append_cons, IH. reflexivity.
Qed.

Lemma lastPart_plain (name current : string) :
  plainName name = true -> lastPart current name = current +:+ name.
Proof.
  revert current. induction name as [| c name IH]; simpl; intros current Hplain.
  - rewrite append_empty. reflexivity.
  - apply andb_prop in Hplain as (Hc & Hplain).
    destruct (isSeparator c); [discriminate |].
    rewrite (IH _ Hplain), append_append. reflexivity.
Qed.

Lemma lastPart_after (dir name current : string) (c : Ascii.ascii) :
  isSeparator c = true ->
  lastPart current (dir +:+ String c name) = lastPart EmptyString name.
Proof.
  intros Hc. revert current.
  induction dir as [| d dir IH]; intros current.
  - change ("" +:+ String c name) with (String c name). simpl.
    rewrite Hc. reflexivity.
  - rewrite append_cons. simpl. destruct (isSeparator d); apply IH.
Qed.

Lemma plainName_app (a b : string) :
  plainName (a +:+ b) = plainName a && plainName b.
Proof.
  induction a as [| c a IH]; [reflexivity |].
  rewrite append_cons. simpl. rewrite IH, andb_assoc. reflexivity.
Qed.

Lemma lastPart_is_plain (shell current : string) :
  plainName current = true -> plainName (lastPart current shell) = true.
Proof.
  revert current. induction shell as [| c shell IH]; simpl; intros current Hplain;
    [exact Hplain |].
  destruct (isSeparator c) eqn:Hc; [apply IH; reflexivity |].
  apply IH. rewrite plainName_app, Hplain. simpl. rewrite Hc. reflexivity.
Qed.

Lemma truthy_spec (text : string) :
  Js.truthy (Some text) = false <-> text = "".
Proof.
  simpl. destruct (String.eqb_spec text ""); simpl; split; auto; try discriminate.
  contradiction.
Qed.

(** X9. [normalizeShell] yields the last component of a path, whichever of
    the two separators is used; a name without separators is left as it is,
    and so is a path that ends in a separator. The result is never empty for
    a path that is not, and normalising twice changes nothing more. *)
Theorem normalizeShell_is_the_base_name :
  (forall dir name c,
     isSeparator c = true -> plainName name = true -> name <> "" ->
     normalizeShell (dir +:+ String c name) = name)
  /\ (forall name, plainName name = true -> normalizeShell name = name)
  /\ (forall dir c,
        isSeparator c = true ->
        normalizeShell (dir +:+ String c "") = dir +:+ String c "")
  /\ (forall shell, shell <> "" -> normalizeShell shell <> "")
  /\ (forall shell,
        normalizeShell (normalizeShell shell) = normalizeShell shell).
Proof.
  assert (Hplain : forall name,
            plainName name = true -> normalizeShell name = name).
  { intros name Hname. unfold normalizeShell.
    rewrite (lastPart_plain name "" Hname).
    change ("" +:+ name) with name.
    destruct (Js.truthy _); reflexivity. }
  split.
  { intros dir name c Hc Hname Hsome. unfold normalizeShell.
    rewrite (lastPart_after dir name "" c Hc), (lastPart_plain name "" Hname).
    change ("" +:+ name) with name. simpl.
    destruct (String.eqb_spec name ""); [contradiction | reflexivity]. }
  split; [exact Hplain |].
  split.
  { intros dir c Hc. unfold normalizeShell.
    rewrite (lastPart_after dir "" "" c Hc). reflexivity. }
  split.
  { intros shell Hsome. unfold normalizeShell.
    destruct (Js.truthy (Some (lastPart "" shell))) eqn:Hlast; [| exact Hsome].
    intros Hnone. rewrite Hnone in Hlast. discriminate. }
  intros shell. unfold normalizeShell at 2 3.
  destruct (Js.truthy (Some (lastPart "" shell))) eqn:Hlast.
  - apply Hplain, lastPart_is_plain. reflexivity.
  - unfold normalizeShell. rewrite Hlast. reflexivity.
Qed.

Lemma normalizeShell_is_the_base_name_witness :
  normalizeShell "/bin/zsh" = "zsh"
  /\ normalizeShell "/usr/local/bin/" = "/usr/local/bin/".
Proof.
  destruct normalizeShell_is_the_base_name as (Hbase & _ & Hdir & _).
  split.
  - apply (Hbase "/bin" "zsh" (Ascii.ascii_of_nat 47));
      [reflexivity | reflexivity | discriminate].
  - apply (Hdir "/usr/local/bin" (Ascii.ascii_of_nat 47)). reflexivity.
Defined.

Lemma normalizeShell_some (shell : string) :
  shell <> "" -> normalizeShell shell <> "".
Proof.
  intros Hsome. unfold normalizeShell.
  destruct (Js.truthy (Some (lastPart "" shell))) eqn:Hlast; [| exact Hsome].
  intros Hnone. rewrite Hnone in Hlast. discriminate.
Qed.

Lemma truthy_some (text : string) :
  text <> "" -> Js.truthy (Some text) = true.
Proof.
  intros Hsome. simpl. destruct (String.eqb_spec text "");
    [contradiction | reflexivity].
Qed.

Lemma titleOf_onSessionTitle (tabId other title : string) (s : State) :
  titleOf other (onSessionTitle tabId title s)
  = if decide (other = tabId) then Some title else titleOf other s.
Proof.
  unfold titleOf, onSessionTitle. simpl.
  destruct (decide (other = tabId)) as [-> | Hne].
  - rewrite lookup_insert_eq. reflexivity.
  - rewrite lookup_insert_ne by congruence. reflexivity.
Qed.

Lemma shellOf_onSessionTitle (tabId other title : string) (s : State) :
  shellOf other (onSessionTitle tabId title s) = shellOf other s.
Proof.
  unfold shellOf, onSessionTitle, runtimeOf. simpl.
  destruct (decide (other = tabId)) as [-> | Hne].
  - rewrite lookup_insert_eq. simpl.
    destruct (runtimeSessions s !! tabId); reflexivity.
  - rewrite lookup_insert_ne by congruence. reflexivity.
Qed.

Lemma titleOf_onSessionMeta (tabId other shell : string) (s : State) :
  titleOf other (onSessionMeta tabId shell s) = titleOf other s.
Proof.
  unfold titleOf, onSessionMeta, runtimeOf. simpl.
  destruct (decide (other = tabId)) as [-> | Hne].
  - rewrite lookup_insert_eq. simpl.
    destruct (runtimeSessions s !! tabId); reflexivity.
  - rewrite lookup_insert_ne by congruence. reflexivity.
Qed.

Lemma shellOf_onSessionMeta (tabId other shell : string) (s : State) :
  shellOf other (onSessionMeta tabId shell s)
  = if decide (other = tabId) then Some (normalizeShell shell)
    else shellOf other s.
Proof.
  unfold shellOf, onSessionMeta. simpl.
  destruct (decide (other = tabId)) as [-> | Hne].
  - rewrite lookup_insert_eq. reflexivity.
  - rewrite lookup_insert_ne by congruence. reflexivity.
Qed.

(** [tabLabel] in terms of what the terminal reported. *)
Lemma tabLabel_reported (tab : TerminalTab) (s : State) :
  tabLabel tab s
  = match titleOf (tab_id tab) s with
    | Some title =>
        if Js.truthy (Some (Js.trim title)) then Js.trim title
        else match shellOf (tab_id tab) s with
             | Some shell =>
                 if Js.truthy (Some shell) then shell +:+ " session"
                 else tab_title tab
             | None => tab_title tab
             end
    | None =>
        match shellOf (tab_id tab) s with
        | Some shell =>
            if Js.truthy (Some shell) then shell +:+ " session"
            else tab_title tab
        | None => tab_title tab
        end
    end.
Proof.
  unfold tabLabel, titleOf, shellOf.
  destruct (runtimeSessions s !! tab_id tab ≫= session_title) as [title |];
    simpl; [| reflexivity].
  destruct (negb (String.eqb (Js.trim title) "")); reflexivity.
Qed.

(** X10. What a tab is called. A title reported by the terminal that is
    not blank is the label of its tab, trimmed, whether the shell was
    reported before, after or never; without such a title the label is the
    base name of the shell followed by [session]; with neither it is the
    stored title of the tab. Reports for one tab leave the labels of all
    other tabs alone, and a title report and a shell report commute. *)
Theorem tab_label_follows_reports (s : State) (tab : TerminalTab)
    (title shell : string) :
  let id := tab_id tab in
  (Js.trim title <> "" ->
   tabLabel tab (onSessionTitle id title s) = Js.trim title
   /\ tabLabel tab (onSessionMeta id shell (onSessionTitle id title s))
      = Js.trim title)
  /\ (Js.trim title = "" -> shell <> "" ->
      tabLabel tab (onSessionTitle id title (onSessionMeta id shell s))
      = normalizeShell shell +:+ " session")
  /\ (runtimeSessions s !! id = None -> tabLabel tab s = tab_title tab)
  /\ (forall other,
        tab_id other <> id ->
        tabLabel other (onSessionTitle id title s) = tabLabel other s
        /\ tabLabel other (onSessionMeta id shell s) = tabLabel other s)
  /\ (forall tabId,
        onSessionMeta tabId shell (onSessionTitle id title s)
        = onSessionTitle id title (onSessionMeta tabId shell s)).
Proof.
  intros id.
  split.
  { intros Hsome. rewrite !tabLabel_reported.
    rewrite titleOf_onSessionMeta, titleOf_onSessionTitle.
    fold id. destruct (decide (id = id)); [| contradiction].
    rewrite (truthy_some _ Hsome). auto. }
  split.
  { intros Hblank Hshell. rewrite tabLabel_reported.
    rewrite titleOf_onSessionTitle, shellOf_onSessionTitle,
      shellOf_onSessionMeta.
    fold id. destruct (decide (id = id)); [| contradiction].
    rewrite Hblank, (truthy_some _ (normalizeShell_some shell Hshell)).
    reflexivity. }
  split.
  { intros Hnone. rewrite tabLabel_reported. unfold titleOf, shellOf.
    fold id. rewrite Hnone. reflexivity. }
  split.
  { intros other Hother. rewrite !tabLabel_reported.
    rewrite titleOf_onSessionTitle, shellOf_onSessionTitle,
      titleOf_onSessionMeta, shellOf_onSessionMeta.
    destruct (decide (tab_id other = id)); [contradiction |]. auto. }
  intros tabId.
  unfold onSessionMeta, onSessionTitle, runtimeOf, set_runtimeSessions. simpl.
  f_equal.
  destruct (decide (tabId = id)) as [-> | Hne].
  - rewrite !lookup_insert_eq, !insert_insert_eq. reflexivity.
  - rewrite !lookup_insert_ne by congruence.
    apply insert_insert_ne. congruence.
Qed.

Lemma tab_label_follows_reports_witness :
  let tab := mkTerminalTab "tab-t" "project-p" "session-1" in
  let s := defaultState "p" "t" in
  tabLabel tab s = "session-1"
  /\ tabLabel tab (onSessionTitle "tab-t" " vim " (onSessionMeta "tab-t" "/bin/zsh" s))
     = "vim"
  /\ tabLabel tab (onSessionTitle "tab-t" "  " (onSessionMeta "tab-t" "/bin/zsh" s))
     = "zsh session".
Proof.
  intros tab s.
  destruct (tab_label_follows_reports s tab " vim " "/bin/zsh")
    as (Htitle & _ & Hnone & _ & Hcommute).
  destruct (tab_label_follows_reports s tab "  " "/bin/zsh")
    as (_ & Hshell & _).
  split; [apply Hnone; reflexivity |].
  split.
  - simpl in Hcommute. rewrite <- Hcommute. apply Htitle. discriminate.
  - apply Hshell; [reflexivity | discriminate].
Defined.

Lemma lookup_deleted (removed : list string)
    (runtime : gmap string RuntimeSession) (tabId : string) :
  fold_left (fun runtime tabId => delete tabId runtime) removed runtime !! tabId
  = if known tabId removed then None else runtime !! tabId.
Proof.
  revert runtime. induction removed as [| first removed IH]; intros runtime;
    [reflexivity |].
  simpl. rewrite IH.
  destruct (known tabId removed) eqn:Hlater; [rewrite orb_true_r; reflexivity |].
  rewrite orb_false_r.
  destruct (String.eqb_spec tabId first) as [-> | Hne].
  - apply lookup_delete_eq.
  - apply lookup_delete_ne. congruence.
Qed.

(** X11. Deleting a project. The last project cannot be deleted. Otherwise
    exactly the projects with the given id go, with all their tabs and the
    runtime sessions of those tabs; the tabs of every other project and all
    other runtime sessions stay as they are. *)
Theorem deleteProject_takes_its_tabs (projectId : string) (s : State) :
  let s' := deleteProject projectId s in
  (length (projects s) <= 1 -> s' = s)
  /\ (1 < length (projects s) ->
      (forall project,
         In project (projects s')
         <-> In project (projects s) /\ project_id project <> projectId)
      /\ tabsOf projectId (tabs s') = []
      /\ (forall other,
            other <> projectId ->
            tabsOf other (tabs s') = tabsOf other (tabs s))
      /\ (forall tabId,
            runtimeSessions s' !! tabId
            = if known tabId (tabIdsOf projectId s) then None
              else runtimeSessions s !! tabId)).
Proof.
  intros s'. unfold s', deleteProject.
  destruct (Nat.leb_spec (length (projects s)) 1) as [Hfew | Hmany].
  - split; [reflexivity | lia].
  - split; [lia |]. intros _. simpl.
    split.
    { intros project. rewrite filter_In.
      destruct (String.eqb_spec (project_id project) projectId); simpl;
        intuition congruence. }
    split.
    { destruct (tabsOf projectId (List.filter _ (tabs s))) as [| tab rest]
        eqn:Hleft; [reflexivity |].
      assert (Hin : In tab (tabsOf projectId
                              (List.filter
                                 (fun tab => negb (String.eqb (tab_projectId tab)
                                                     projectId))
                                 (tabs s)))).
      { rewrite Hleft. left. reflexivity. }
      apply filter_In in Hin as (Hin & Hsame).
      apply filter_In in Hin as (_ & Hother).
      rewrite Hsame in Hother. discriminate. }
    split; [intros other Hother; apply filter_other_project, Hother |].
    intros tabId. apply lookup_deleted.
Qed.

Lemma deleteProject_takes_its_tabs_witness :
  let s := run (defaultState "p" "t")
             [SessionTitle "tab-t" "vim"; NewProjectNameInput "work";
              CommitCreateProject "q" "u"; SessionTitle "tab-u" "top"] in
  let s' := deleteProject "project-p" s in
  1 < length (projects s)
  /\ tabsOf "project-p" (tabs s') = []
  /\ runtimeSessions s' !! "tab-t" = None
  /\ titleOf "tab-u" s' = Some "top".
Proof.
  intros s s'.
  assert (Hmany : 1 < length (projects s)) by (vm_compute; lia).
  destruct (deleteProject_takes_its_tabs "project-p" s) as (_ & Hdeleted).
  destruct (Hdeleted Hmany) as (_ & Hnone & _ & Hruntime).
  split; [exact Hmany |]. split; [exact Hnone |].
  unfold titleOf, s'. rewrite (Hruntime "tab-t"), (Hruntime "tab-u").
  split; vm_compute; reflexivity.
Defined.

(** X12. Start-up. [loadState] always yields a workspace with at least one
    project and an active project id; without a usable stored item it is the
    default state. What the watcher stored for a workspace with a project,
    an active project and an active tab, in particular for a well-formed
    one, is loaded back unchanged. *)
Theorem loadState_restores_the_workspace (random1 random2 : string) :
  (forall stored,
     projects (loadState stored random1 random2) <> []
     /\ activeProjectId (loadState stored random1 random2) <> None)
  /\ (forall stored,
        (forall parsed, stored = JsonObject parsed ->
                        parsed_projects parsed = None
                        \/ parsed_projects parsed = Some []) ->
        loadState stored random1 random2 = defaultState random1 random2)
  /\ (forall s,
        projects s <> [] -> activeProjectId s <> None ->
        activeTabId s <> None ->
        loadState (persisted s) random1 random2
        = initial (projects s) (tabs s) (activeProjectId s) (activeTabId s))
  /\ (forall s,
        WellFormed s ->
        loadState (persisted s) random1 random2
        = initial (projects s) (tabs s) (activeProjectId s) (activeTabId s)).
Proof.
  assert (Hback : forall s,
            projects s <> [] -> activeProjectId s <> None ->
            activeTabId s <> None ->
            loadState (persisted s) random1 random2
            = initial (projects s) (tabs s) (activeProjectId s)
                (activeTabId s)).
  { intros s Hprojects Hproject Htab. unfold loadState, persisted. simpl.
    destruct (projects s) as [| first rest]; [contradiction |].
    destruct (activeProjectId s); [| contradiction].
    destruct (activeTabId s); [| contradiction]. reflexivity. }
  split.
  { intros [| | | parsed]; simpl; try (split; discriminate).
    destruct (parsed_projects parsed) as [[| first rest] |]; simpl;
      try (split; discriminate).
    split; [discriminate |].
    destruct (parsed_activeProjectId parsed); discriminate. }
  split.
  { intros [| | | parsed] Hunusable; try reflexivity. simpl.
    destruct (Hunusable parsed eq_refl) as [-> | ->]; reflexivity. }
  split; [exact Hback |].
  intros s (_ & _ & _ & Howned & tab & Hin & Htab & Hproject).
  apply Hback; try congruence.
  intros Hnone. apply Howned in Hin. unfold projectIds in Hin.
  rewrite Hnone in Hin. contradiction.
Qed.

Lemma loadState_restores_the_workspace_witness :
  let s := run (defaultState "p" "t") [CreateTab "a"; CloseTab "tab-t" "b"] in
  WellFormed s
  /\ loadState NotJson "q" "u" = defaultState "q" "u"
  /\ tabs (loadState (persisted s) "q" "u") = tabs s
  /\ activeTabId (loadState (persisted s) "q" "u") = Some "tab-a".
Proof.
  intros s.
  assert (Hwell : WellFormed s).
  { apply run_well; [vm_compute; reflexivity | apply defaultState_well]. }
  destruct (loadState_restores_the_workspace "q" "u")
    as (_ & Hdefault & _ & Hback).
  split; [exact Hwell |].
  split; [apply Hdefault; intros parsed Hparsed; discriminate |].
  rewrite (Hback s Hwell). split; reflexivity.
Defined.

Lemma retitle_ids (tabId next : string) (all : list TerminalTab) :
  List.map tab_id (retitle tabId next all) = List.map tab_id all
  /\ List.map tab_projectId (retitle tabId next all)
     = List.map tab_projectId all.
Proof.
  induction all as [| tab all (IHid & IHproject)]; simpl; [auto |].
  destruct (String.eqb (tab_id tab) tabId); simpl; [auto |].
  rewrite IHid, IHproject. auto.
Qed.

Lemma retitle_title (tabId next : string) (all : list TerminalTab)
    (tab : TerminalTab) :
  List.find (fun item => String.eqb (tab_id item) tabId) all = Some tab ->
  List.find (fun item => String.eqb (tab_id item) tabId)
    (retitle tabId next all)
  = Some (mkTerminalTab (tab_id tab) (tab_projectId tab) next).
Proof.
  induction all as [| first all IH]; simpl; [discriminate |].
  destruct (String.eqb (tab_id first) tabId) eqn:Hfirst; simpl.
  - intros [= <-]. rewrite Hfirst. reflexivity.
  - rewrite Hfirst. exact IH.
Qed.

Lemma retitle_others (tabId next : string) (all : list TerminalTab)
    (other : TerminalTab) :
  tab_id other <> tabId -> In other all -> In other (retitle tabId next all).
Proof.
  intros Hother. induction all as [| first all IH]; simpl; [auto |].
  destruct (String.eqb_spec (tab_id first) tabId) as [Hfirst | Hfirst]; simpl.
  - intros [<- | Hin]; [contradiction | auto].
  - intros [<- | Hin]; auto.
Qed.

(** X13. Renaming a tab. Committing a name that is not blank stores it,
    trimmed, as the title of the tab being edited and of no other tab; ids,
    projects and order of the tabs stay as they are. A blank name changes no
    tab. Either way the form is reset. The label shown is the new name only
    while the terminal of the tab has reported neither a title that is not
    blank nor a shell; once it has, renaming does not change the label. *)
Theorem rename_changes_one_title (s : State) (tab : TerminalTab)
    (name : string) :
  let tabId := tab_id tab in
  let editing := mkTabEditing (Some tabId) name in
  let s' := snd (commitRenameTab editing s) in
  let renamed := mkTerminalTab tabId (tab_projectId tab) (Js.trim name) in
  tabId <> "" ->
  List.find (fun item => String.eqb (tab_id item) tabId) (tabs s) = Some tab ->
  startRenameTab tabId cancelRenameTab s
  = mkTabEditing (Some tabId) (tab_title tab)
  /\ fst (commitRenameTab editing s) = cancelRenameTab
  /\ tabIds s' = tabIds s
  /\ List.map tab_projectId (tabs s') = List.map tab_projectId (tabs s)
  /\ (Js.trim name = "" -> s' = s)
  /\ (Js.trim name <> "" ->
      List.find (fun item => String.eqb (tab_id item) tabId) (tabs s')
      = Some renamed
      /\ (forall other, tab_id other <> tabId -> In other (tabs s) ->
                        In other (tabs s'))
      /\ (Js.truthy (Js.trim <$> titleOf tabId s) = false ->
          Js.truthy (shellOf tabId s) = false ->
          tabLabel renamed s' = Js.trim name)
      /\ (Js.truthy (Js.trim <$> titleOf tabId s) = true
          \/ Js.truthy (shellOf tabId s) = true ->
          tabLabel renamed s' = tabLabel tab s)).
Proof.
  intros tabId editing s' renamed Hid Hfound.
  assert (Htruthy : Js.truthy (Some tabId) = true) by (apply truthy_some, Hid).
  unfold s', commitRenameTab, editing, startRenameTab. simpl editingTabId.
  rewrite Htruthy, Hfound. simpl.
  split; [reflexivity |]. split; [reflexivity |].
  destruct (String.eqb_spec (Js.trim name) "") as [Hblank | Hsome]; simpl.
  - split; [reflexivity |]. split; [reflexivity |].
    split; [reflexivity |]. intros Hsome. contradiction.
  - unfold tabIds. simpl.
    destruct (retitle_ids tabId (Js.trim name) (tabs s)) as (Hids & Hprojects).
    split; [exact Hids |]. split; [exact Hprojects |].
    split; [contradiction |]. intros _.
    split; [apply retitle_title, Hfound |].
    split; [intros other Hother Hin; apply retitle_others; assumption |].
    rewrite !tabLabel_reported. unfold titleOf, shellOf, renamed. simpl.
    fold tabId.
    destruct (runtimeSessions s !! tabId ≫= session_title) as [title |];
      destruct (runtimeSessions s !! tabId ≫= session_shell) as [shell |];
      simpl;
      repeat match goal with
             | |- context [String.eqb ?a ""] => destruct (String.eqb a "")
             end; simpl; split; auto; try discriminate;
      intros [? | ?]; discriminate.
Qed.

Lemma rename_changes_one_title_witness :
  let tab := mkTerminalTab "tab-t" "project-p" "session-1" in
  let fresh := defaultState "p" "t" in
  let opened := onSessionMeta "tab-t" "/bin/zsh" fresh in
  let editing := mkTabEditing (Some "tab-t") " build " in
  tabs (snd (commitRenameTab editing fresh))
  = [mkTerminalTab "tab-t" "project-p" "build"]
  /\ tabLabel (mkTerminalTab "tab-t" "project-p" "build")
       (snd (commitRenameTab editing fresh)) = "build"
  /\ tabLabel (mkTerminalTab "tab-t" "project-p" "build")
       (snd (commitRenameTab editing opened)) = "zsh session".
Proof.
  intros tab fresh opened editing.
  assert (Hid : tab_id tab <> "") by discriminate.
  destruct (rename_changes_one_title fresh tab " build " Hid eq_refl)
    as (_ & _ & _ & _ & _ & Hfresh).
  destruct (rename_changes_one_title opened tab " build " Hid eq_refl)
    as (_ & _ & _ & _ & _ & Hopened).
  assert (Hname : Js.trim " build " <> "") by (vm_compute; discriminate).
  destruct (Hfresh Hname) as (_ & _ & Hnew & _).
  destruct (Hopened Hname) as (_ & _ & _ & Hkept).
  split; [reflexivity |]. split.
  - apply Hnew; reflexivity.
  - transitivity (tabLabel tab opened);
      [exact (Hkept (or_intror eq_refl)) | reflexivity].
Defined.

End AppInvariants.

(** * Invariants of the git panel *)

Module GitPanelInvariants.
Import GitPanel GitPanelFacts.

Section Flight.
Variable lib : DiffLibrary.

Ltac unfold_events :=
  unfold onMounted, onUnmounted, openChanged, repoPathChanged, pickFile,
    stageFile, unstageFile, fileAction, stageAllUnstaged, commitChanges,
    runRemoteAction, switchBranch.

Lemma fresh_insert (n : nat) (k : Continuation) (m : gmap nat Continuation) :
  FreshFrom n m -> FreshFrom (S n) (<[n := k]> m).
Proof.
  intros Hfresh id k' Hlookup.
  apply lookup_insert_Some in Hlookup as [[<- _] | [_ Hlookup]]; [lia |].
  apply Hfresh in Hlookup. lia.
Qed.

Lemma fresh_delete (n id : nat) (m : gmap nat Continuation) :
  FreshFrom n m -> FreshFrom n (delete id m).
Proof.
  intros Hfresh id' k Hlookup.
  apply lookup_delete_Some in Hlookup as [_ Hlookup]. eapply Hfresh, Hlookup.
Qed.

Lemma fresh_unused (n : nat) (m : gmap nat Continuation) :
  FreshFrom n m -> m !! n = None.
Proof.
  intros Hfresh. destruct (m !! n) as [k |] eqn:Hlookup; [| reflexivity].
  apply Hfresh in Hlookup. lia.
Qed.

Lemma none_insert (n : nat) (k : Continuation) (m : gmap nat Continuation) :
  NoRefresh m -> inRefresh k = false -> NoRefresh (<[n := k]> m).
Proof.
  intros Hnone Hk id k' Hlookup.
  apply lookup_insert_Some in Hlookup as [[_ <-] | [_ Hlookup]]; [exact Hk |].
  eapply Hnone, Hlookup.
Qed.

Lemma none_delete (id : nat) (m : gmap nat Continuation) :
  NoRefresh m -> NoRefresh (delete id m).
Proof.
  intros Hnone id' k Hlookup.
  apply lookup_delete_Some in Hlookup as [_ Hlookup]. eapply Hnone, Hlookup.
Qed.

Lemma none_delete_one (id : nat) (k : Continuation)
    (m : gmap nat Continuation) :
  OneRefresh m -> m !! id = Some k -> inRefresh k = true ->
  NoRefresh (delete id m).
Proof.
  intros (only & k0 & _ & _ & Hunique) Hlookup Hk id' k' Hlookup'.
  apply lookup_delete_Some in Hlookup' as [Hne Hlookup'].
  destruct (inRefresh k') eqn:Hk'; [| reflexivity].
  exfalso. apply Hne.
  rewrite (Hunique _ _ Hlookup Hk), (Hunique _ _ Hlookup' Hk'). reflexivity.
Qed.

Lemma one_insert_new (n : nat) (k : Continuation)
    (m : gmap nat Continuation) :
  NoRefresh m -> inRefresh k = true -> OneRefresh (<[n := k]> m).
Proof.
  intros Hnone Hk. exists n, k.
  split; [apply lookup_insert_eq |]. split; [exact Hk |].
  intros id' k' Hlookup Hk'.
  apply lookup_insert_Some in Hlookup as [[<- _] | [_ Hlookup]];
    [reflexivity |].
  apply Hnone in Hlookup. congruence.
Qed.

Lemma one_insert_other (n : nat) (k : Continuation)
    (m : gmap nat Continuation) :
  OneRefresh m -> m !! n = None -> inRefresh k = false ->
  OneRefresh (<[n := k]> m).
Proof.
  intros (only & k0 & Hlookup & Hk0 & Hunique) Hunused Hk.
  exists only, k0. split.
  { rewrite lookup_insert_ne by congruence. exact Hlookup. }
  split; [exact Hk0 |].
  intros id' k' Hlookup' Hk'.
  apply lookup_insert_Some in Hlookup' as [[_ <-] | [_ Hlookup']];
    [congruence |].
  eapply Hunique; eassumption.
Qed.

Lemma one_delete_other (id : nat) (k : Continuation)
    (m : gmap nat Continuation) :
  OneRefresh m -> m !! id = Some k -> inRefresh k = false ->
  OneRefresh (delete id m).
Proof.
  intros (only & k0 & Hlookup & Hk0 & Hunique) Hdeleted Hk.
  exists only, k0. split.
  { rewrite lookup_delete_ne by congruence. exact Hlookup. }
  split; [exact Hk0 |].
  intros id' k' Hlookup' Hk'.
  apply lookup_delete_Some in Hlookup' as [_ Hlookup'].
  eapply Hunique; eassumption.
Qed.

Lemma none_not_one (id : nat) (k : Continuation)
    (m : gmap nat Continuation) :
  NoRefresh m -> m !! id = Some k -> inRefresh k = true -> False.
Proof. intros Hnone Hlookup Hk. apply Hnone in Hlookup. congruence. Qed.

Lemma fresh_unused_delete (n id : nat) (m : gmap nat Continuation) :
  FreshFrom n m -> delete id m !! n = None.
Proof. intros Hfresh. apply fresh_unused, fresh_delete, Hfresh. Qed.

Ltac fresh_ids Hfresh :=
  simpl; repeat first [ apply fresh_insert | apply fresh_delete ];
  exact Hfresh.

Ltac parked Hfresh :=
  simpl;
  lazymatch goal with
  | |- NoRefresh (<[_ := _]> _) =>
      apply none_insert; [parked Hfresh | reflexivity]
  | |- NoRefresh (delete _ _) =>
      first [ eapply none_delete_one; [eassumption | eassumption | reflexivity]
            | apply none_delete; parked Hfresh ]
  | |- NoRefresh _ => assumption
  | |- OneRefresh (<[_ := _]> _) =>
      first [ apply one_insert_new; [parked Hfresh | reflexivity]
            | apply one_insert_other;
              [ parked Hfresh
              | first [ apply fresh_unused, Hfresh
                      | apply fresh_unused_delete, Hfresh ]
              | reflexivity ] ]
  | |- OneRefresh (delete _ _) =>
      eapply one_delete_other; [parked Hfresh | eassumption | reflexivity]
  | |- OneRefresh _ => assumption
  end.

Ltac kept_witness Hfresh Hw Hb :=
  let Hlt := fresh "Hlt" in
  pose proof (Hfresh _ _ Hw) as Hlt;
  repeat first
    [ rewrite lookup_insert_ne by (intros <-; lia)
    | rewrite lookup_delete_ne
        by (let Hsame := fresh in
            intros Hsame; subst;
            match goal with
            | Hk : pending _ !! _ = Some _ |- _ =>
                rewrite Hk in Hw; injection Hw as <-
            end;
            simpl in Hb; first [ discriminate | congruence
                               | destruct (Z.eqb _ _); discriminate ]) ];
  exact Hw.

Ltac backed Hfresh Hbacked :=
  let i := fresh "i" in
  let Hon := fresh "Hon" in
  let Hold := fresh "Hold" in
  intros i Hon; pose proof (Hbacked i) as Hold;
  destruct i; simpl in Hon, Hold |- *;
  first
    [ discriminate Hon
    | congruence
    | do 2 eexists; split;
      [ apply lookup_insert_eq
      | simpl; first [ reflexivity | apply Z.eqb_refl ] ]
    | let w := fresh "w" in
      let kw := fresh "kw" in
      let Hw := fresh "Hw" in
      let Hb := fresh "Hb" in
      destruct (Hold ltac:(first [ exact Hon | reflexivity | congruence ]))
        as (w & kw & Hw & Hb);
      exists w, kw; split; [kept_witness Hfresh Hw Hb | exact Hb] ].

Ltac flight_goal s Hinv :=
  let Hload := fresh "Hload" in
  let Hqueue := fresh "Hqueue" in
  let Hfresh := fresh "Hfresh" in
  let Hparked := fresh "Hparked" in
  let Hbacked := fresh "Hbacked" in
  let flight := fresh "flight" in
  let Hflight := fresh "Hflight" in
  destruct Hinv as (Hload & Hqueue & Hfresh & Hparked & Hbacked);
  remember (refreshInFlight s) as flight eqn:Hflight in *;
  destruct flight; try discriminate;
  try (exfalso; eapply none_not_one; [exact Hparked | eassumption | reflexivity]);
  unfold FlightInv; simpl; rewrite <- ?Hflight;
  (split; [first [reflexivity | assumption | congruence] |]);
  (split; [first [ intros _; reflexivity | exact Hqueue | congruence
                 | intros ?; congruence ] |]);
  (split; [fresh_ids Hfresh |]);
  (split; [parked Hfresh | backed Hfresh Hbacked]).

Lemma step_flight (s : State) (e : Event) :
  FlightInv s -> FlightInv (step lib s e).
Proof.
  intros Hinv.
  destruct e; simpl.
  16: { unfold settle.
        destruct (pending s !! id) as [k |] eqn:Hk; [| exact Hinv].
        destruct k as [caller | nextStatus caller | token [| caller] | | | |];
          destruct result as [[] | e]; simpl; try exact Hinv;
          try destruct caller;
          unfold_handlers; cases.
        all: flight_goal s Hinv. }
  all: unfold_events; unfold_handlers; cases.
  all: flight_goal s Hinv.
Qed.

Lemma run_flight (events : list Event) (s : State) :
  FlightInv s -> FlightInv (run lib s events).
Proof.
  revert s. induction events as [| e events IH]; intros s Hinv;
    [exact Hinv |].
  simpl. apply IH, step_flight, Hinv.
Qed.

Lemma initial_flight (open : bool) (repoPath : option string) :
  FlightInv (initial open repoPath).
Proof.
  unfold FlightInv, initial. simpl.
  split; [reflexivity |]. split; [discriminate |].
  split; [intros id k Hlookup; rewrite lookup_empty in Hlookup; discriminate |].
  split; [intros id k Hlookup; rewrite lookup_empty in Hlookup; discriminate |].
  intros [] Hon; discriminate.
Qed.

(** X14. At most one refresh cycle is ever in flight. Whatever happens to
    the panel, the loading indicator is on exactly while a refresh is in
    flight, a refresh is queued only behind one in flight, and a refresh in
    flight waits on exactly one outstanding backend call (its status, its
    branches or its diff call), while none is outstanding when no refresh is
    in flight. *)
Theorem one_refresh_in_flight (open : bool) (repoPath : option string)
    (events : list Event) :
  let s := run lib (initial open repoPath) events in
  loading s = refreshInFlight s
  /\ (refreshQueued s = true -> refreshInFlight s = true)
  /\ (refreshInFlight s = true ->
      exists id k,
        pending s !! id = Some k /\ inRefresh k = true
        /\ forall id' k', pending s !! id' = Some k' -> inRefresh k' = true ->
                          id' = id)
  /\ (refreshInFlight s = false ->
      forall id k, pending s !! id = Some k -> inRefresh k = false).
Proof.
  intros s.
  destruct (run_flight events _ (initial_flight open repoPath))
    as (Hload & Hqueue & _ & Hparked & _).
  fold s in Hload, Hqueue, Hparked.
  split; [exact Hload |]. split; [exact Hqueue |].
  destruct (refreshInFlight s); split; intros Hflight; try discriminate;
    exact Hparked.
Qed.

(** X15. No busy indicator is left on for nothing. Whatever happens to
    the panel, while the indicator of a file action, of a commit, of a
    remote action or of a checkout is on, a backend call is outstanding
    after which the handler's [finally] block turns it off: the handler's
    own call, or a call of the refresh it awaits. While the diff indicator
    is on, the [git_diff] call of the latest request is outstanding, and
    while the branches indicator is on, a [git_branches] call is. *)
Theorem busy_indicators_are_backed (open : bool) (repoPath : option string)
    (events : list Event) (i : Indicator) :
  let s := run lib (initial open repoPath) events in
  isOn i s = true ->
  exists id k,
    pending s !! id = Some k /\ backs i (diffToken s) k = true.
Proof.
  intros s Hon.
  destruct (run_flight events _ (initial_flight open repoPath))
    as (_ & _ & _ & _ & Hbacked).
  exact (Hbacked i Hon).
Qed.

Ltac sound_call :=
  simpl in *;
  repeat match goal with
         | H : context [String.length ?text] |- _ =>
             revert H; destruct text; simpl; intros H
         end;
  repeat match goal with
         | H : context [String.eqb _ _] |- _ => revert H
         end;
  repeat match goal with
         | |- context [String.eqb ?a ?b] => destruct (String.eqb a b)
         end;
  simpl; intros; try discriminate; try reflexivity; try congruence.

Ltac sound_log Hinv :=
  simpl; rewrite ?Forall_app; repeat split; try exact Hinv;
  repeat constructor; sound_call.

Lemma step_sound (s : State) (e : Event) :
  Forall (fun command => sound command = true) (log s) ->
  Forall (fun command => sound command = true) (log (step lib s e)).
Proof.
  intros Hinv.
  destruct e; simpl.
  16: { unfold settle.
        destruct (pending s !! id) as [k |] eqn:Hk; [| exact Hinv].
        destruct k as [caller | nextStatus caller | token [| caller] | | | |];
          destruct result as [[] | e]; simpl; try exact Hinv;
          try destruct caller;
          unfold_handlers; cases.
        all: sound_log Hinv. }
  11: { unfold commitChanges, canCommit, commitDisabledReason.
        destruct (commitLoading s); [exact Hinv |].
        destruct (Nat.eqb (stagedCount s) 0); [exact Hinv |].
        destruct (Js.trim (commitMessage s)) as [| c rest]; [exact Hinv |].
        simpl. destruct (activeRepoPath s) as [r |]; [| exact Hinv].
        simpl. destruct (String.eqb r "") eqn:Hr; simpl; [exact Hinv |].
        apply Forall_app. split; [exact Hinv |]. repeat constructor.
        simpl. rewrite Hr. reflexivity. }
  all: unfold_events; unfold_handlers; cases.
  all: sound_log Hinv.
Qed.

Lemma run_sound (events : list Event) (s : State) :
  Forall (fun command => sound command = true) (log s) ->
  Forall (fun command => sound command = true) (log (run lib s events)).
Proof.
  revert s. induction events as [| e events IH]; intros s Hinv;
    [exact Hinv |].
  simpl. apply IH, step_sound, Hinv.
Qed.

(** X16. The panel never sends the backend a call it should have refused.
    Whatever happens, every [git_stage], [git_unstage], [git_stage_all],
    [git_commit], remote and [git_checkout] call ever made names a
    repository path that is not empty, every commit carries a message that
    is not empty, every checkout a branch name that is not empty, and every
    [git_diff] call names a repository and asks for the unstaged diff. *)
Theorem backend_calls_are_sound (open : bool) (repoPath : option string)
    (events : list Event) :
  Forall (fun command => sound command = true)
    (log (run lib (initial open repoPath) events)).
Proof. apply run_sound. constructor. Qed.

Lemma commitChanges_issues (s : State) (amend : bool) (repo : string) :
  canCommit s = true -> activeRepoPath s = Some repo -> repo <> "" ->
  commitChanges amend s
  = invoke (git_commit repo (Js.trim (commitMessage s)) amend)
      CommitAwaitsInvoke (set_error None (set_commitLoading true s)).
Proof.
  intros Hcan Hrepo Hsome. unfold commitChanges. rewrite Hcan, Hrepo. simpl.
  destruct (String.eqb_spec repo ""); [contradiction | reflexivity].
Qed.

(** X17. A commit from start to end. When the panel can commit, one
    [git_commit] call is made with the trimmed message and the commit
    indicator goes on; a further attempt while it is outstanding does
    nothing. If the call fails, its message is recorded as the error, the
    indicator goes off, the typed message is kept and no refresh follows.
    If it succeeds, the message box is emptied and a refresh follows: a
    new cycle if none is in flight (the indicator staying on until it
    ends), a queued one otherwise (the indicator going off at once). *)
Theorem commit_runs_once_and_reports (s : State) (amend : bool)
    (repo : string) :
  canCommit s = true -> activeRepoPath s = Some repo -> repo <> "" ->
  let s1 := step lib s (CommitChanges amend) in
  (log s1 = (log s ++ [git_commit repo (Js.trim (commitMessage s)) amend])%list
   /\ commitLoading s1 = true /\ error s1 = None
   /\ commitMessage s1 = commitMessage s)
  /\ (forall again, step lib s1 (CommitChanges again) = s1)
  /\ (forall e,
        let s2 := step lib s1 (Settle (nextId s) (Js.Rejected e)) in
        error s2 = Some (Js.messageOr "Failed to commit" e)
        /\ commitLoading s2 = false /\ commitMessage s2 = commitMessage s
        /\ log s2 = log s1 /\ refreshQueued s2 = refreshQueued s)
  /\ (let s2 := step lib s1 (Settle (nextId s) (Js.Resolved NoValue)) in
      commitMessage s2 = ""
      /\ (refreshInFlight s = false ->
          log s2
          = (log s1 ++ [git_status (Js.orElse (propRepoPath s) (lastRepoPath s))])%list
          /\ commitLoading s2 = true /\ refreshInFlight s2 = true)
      /\ (refreshInFlight s = true ->
          log s2 = log s1 /\ refreshQueued s2 = true
          /\ commitLoading s2 = false)).
Proof.
  intros Hcan Hrepo Hsome s1.
  assert (Hs1 : s1 = invoke (git_commit repo (Js.trim (commitMessage s)) amend)
                       CommitAwaitsInvoke
                       (set_error None (set_commitLoading true s))).
  { apply commitChanges_issues; assumption. }
  assert (Hparked : pending s1 !! nextId s = Some CommitAwaitsInvoke).
  { rewrite Hs1. simpl. apply lookup_insert_eq. }
  split; [rewrite Hs1; simpl; auto |].
  split.
  { intros again. simpl. unfold commitChanges, canCommit, commitDisabledReason.
    rewrite Hs1. reflexivity. }
  split.
  { intros e. simpl. unfold settle. rewrite Hparked. simpl.
    rewrite Hs1. simpl. auto. }
  simpl. unfold settle. rewrite Hparked. simpl. unfold refresh.
  rewrite Hs1. simpl.
  destruct (refreshInFlight s); simpl.
  - split; [reflexivity |]. split; [discriminate | auto].
  - split; [reflexivity |]. split; [auto | discriminate].
Qed.

Ltac token_lookup H :=
  repeat first
    [ apply lookup_insert_Some in H as [[<- <-] | [? H]]
    | apply lookup_delete_Some in H as [? H] ].

Ltac token_goal s Hinv :=
  let Hrange := fresh "Hrange" in
  let Hbelow := fresh "Hbelow" in
  let Hunique := fresh "Hunique" in
  destruct Hinv as (Hrange & Hbelow & Hunique);
  unfold TokenInv, Js.increment, Js.maxExactInteger in *; simpl;
  repeat match goal with
         | |- context [Z.ltb ?a ?b] => destruct (Z.ltb_spec a b)
         end;
  (split; [lia |]);
  (split;
  [ intros id0 k0 token0 Hlookup Htoken; token_lookup Hlookup;
    simpl in Htoken; try discriminate;
    try (injection Htoken as <-; lia);
    try (pose proof (Hbelow _ _ _ Hlookup Htoken); lia)
  | intros id0 id1 k0 k1 token0 Hlookup Hlookup' Htoken Htoken';
    token_lookup Hlookup; token_lookup Hlookup';
    simpl in Htoken, Htoken'; try discriminate;
    try (left; reflexivity);
    try (injection Htoken as <-); try (injection Htoken' as <-);
    try (pose proof (Hbelow _ _ _ Hlookup Htoken));
    try (pose proof (Hbelow _ _ _ Hlookup' Htoken'));
    try (right; lia);
    try (exfalso; lia);
    try (eapply Hunique; eassumption) ]).

Lemma step_tokens (s : State) (e : Event) :
  TokenInv s -> TokenInv (step lib s e).
Proof.
  intros Hinv.
  destruct e; simpl.
  16: { unfold settle.
        destruct (pending s !! id) as [k |] eqn:Hk; [| exact Hinv].
        destruct k as [caller | nextStatus caller | token [| caller] | | | |];
          destruct result as [[] | e]; simpl; try exact Hinv;
          try destruct caller;
          unfold_handlers; cases.
        all: token_goal s Hinv. }
  all: unfold_events; unfold_handlers; cases.
  all: token_goal s Hinv.
Qed.

Lemma run_tokens (events : list Event) (s : State) :
  TokenInv s -> TokenInv (run lib s events).
Proof.
  revert s. induction events as [| e events IH]; intros s Hinv;
    [exact Hinv |].
  simpl. apply IH, step_tokens, Hinv.
Qed.

Lemma initial_tokens (open : bool) (repoPath : option string) :
  TokenInv (initial open repoPath).
Proof.
  unfold TokenInv, initial, Js.maxExactInteger. simpl.
  split; [lia |].
  split; intros *; rewrite lookup_empty; discriminate.
Qed.

(** X18. Diff requests are numbered in order. Whatever happens to the
    panel, every outstanding [git_diff] request carries a token between 1
    and the current one, and as long as the token counter is below 2^53 no
    two outstanding requests carry the same token: at most one of them is
    the current request, the only one whose answer is rendered. *)
Theorem diff_tokens_are_distinct (open : bool) (repoPath : option string)
    (events : list Event) :
  let s := run lib (initial open repoPath) events in
  (forall id k token,
     pending s !! id = Some k -> tokenOf k = Some token ->
     (1 <= token <= diffToken s)%Z)
  /\ ((diffToken s < Js.maxExactInteger)%Z ->
      forall id id' k k' token,
        pending s !! id = Some k -> pending s !! id' = Some k' ->
        tokenOf k = Some token -> tokenOf k' = Some token ->
        id = id').
Proof.
  intros s.
  destruct (run_tokens events _ (initial_tokens open repoPath))
    as (_ & Hbelow & Hunique).
  fold s in Hbelow, Hunique.
  split; [exact Hbelow |].
  intros Hexact id id' k k' token Hlookup Hlookup' Htoken Htoken'.
  destruct (Hunique _ _ _ _ _ Hlookup Hlookup' Htoken Htoken')
    as [Hsame | Hlast]; [exact Hsame |].
  pose proof (Hbelow _ _ _ Hlookup Htoken). lia.
Qed.

(** An unmounted panel has no diff container to write to. *)
Lemma step_unmounted (s : State) (e : Event) :
  isMounted e = false -> diffContainer s = None ->
  diffContainer (step lib s e) = None.
Proof.
  intros Hlater Hnone.
  destruct e; try discriminate; simpl.
  15: { unfold settle.
        destruct (pending s !! id) as [k |] eqn:Hk; [| exact Hnone].
        destruct k as [caller | nextStatus caller | token [| caller] | | | |];
          destruct result as [[] | e]; simpl; try exact Hnone;
          try destruct caller;
          unfold_handlers; simpl; rewrite ?Hnone; cases;
          first [exact Hnone | congruence]. }
  all: unfold_events; unfold_handlers; simpl; rewrite ?Hnone; cases;
    first [reflexivity | exact Hnone | congruence].
Qed.

(** X19. After the panel is unmounted nothing is rendered any more:
    whatever happens next, short of mounting again, calls that were
    outstanding still settle and refreshes still run, but the diff
    container stays unbound. *)
Theorem unmounted_panel_renders_nothing (s : State) (later : list Event) :
  Forall (fun e => isMounted e = false) later ->
  diffContainer (run lib (step lib s Unmounted) later) = None.
Proof.
  intros Hlater.
  assert (Hnone : diffContainer (step lib s Unmounted) = None) by reflexivity.
  revert Hnone. generalize (step lib s Unmounted). clear s.
  induction Hlater as [| e later He _ IH]; intros s Hnone; [exact Hnone |].
  simpl. apply IH, step_unmounted; assumption.
Qed.

Lemma step_remembers (s : State) (e : Event) :
  lastRepoPath s <> None -> lastRepoPath (step lib s e) <> None.
Proof.
  intros Hknown.
  destruct e; simpl.
  16: { unfold settle.
        destruct (pending s !! id) as [k |] eqn:Hk; [| exact Hknown].
        destruct k as [caller | nextStatus caller | token [| caller] | | | |];
          destruct result as [[] | e]; simpl; try exact Hknown;
          try destruct caller;
          unfold_handlers; cases; first [exact Hknown | discriminate]. }
  all: unfold_events; unfold_handlers; cases;
    try first [exact Hknown | discriminate | congruence].
  all: destruct nextPath; discriminate.
Qed.

(** X20. The panel remembers the last repository. Once a repository path
    is remembered it is never forgotten, whatever happens. When the path
    given to an open, idle panel becomes null while a path is remembered,
    one [git_status] call is made, for the remembered path; when no path
    is remembered either, no call is made. A closed panel makes no call
    when its path changes, but remembers a path that is not empty. *)
Theorem last_repository_is_remembered (s : State) :
  (forall e, lastRepoPath s <> None -> lastRepoPath (step lib s e) <> None)
  /\ (forall remembered,
        propOpen s = true -> refreshInFlight s = false ->
        propRepoPath s <> None ->
        lastRepoPath s = Some remembered -> remembered <> "" ->
        let s' := step lib s (RepoPathChanged None) in
        log s' = (log s ++ [git_status (Some remembered)])%list
        /\ lastRepoPath s' = Some remembered)
  /\ (propOpen s = true -> propRepoPath s <> None ->
      Js.truthy (lastRepoPath s) = false ->
      log (step lib s (RepoPathChanged None)) = log s)
  /\ (forall nextPath,
        propOpen s = false ->
        let s' := step lib s (RepoPathChanged nextPath) in
        log s' = log s
        /\ (Js.truthy nextPath = true -> nextPath <> propRepoPath s ->
            lastRepoPath s' = nextPath)).
Proof.
  split; [intros e; apply step_remembers |].
  split.
  { intros remembered Hopen Hidle Hprop Hlast Hsome. simpl.
    unfold repoPathChanged, refresh.
    destruct (propRepoPath s) as [current |]; [| contradiction]. simpl.
    rewrite Hopen, Hlast, Hidle. simpl.
    destruct (String.eqb_spec remembered ""); [contradiction |]. simpl.
    rewrite Hlast. auto. }
  split.
  { intros Hopen Hprop Hnone. simpl. unfold repoPathChanged.
    destruct (propRepoPath s) as [current |]; [| contradiction]. simpl.
    rewrite Hopen, Hnone. reflexivity. }
  intros nextPath Hclosed. simpl. unfold repoPathChanged.
  destruct (Js.sameString nextPath (propRepoPath s)) eqn:Hsame.
  - split; [reflexivity |]. intros _ Hchanged. exfalso. apply Hchanged.
    destruct nextPath as [a |], (propRepoPath s) as [b |]; simpl in Hsame;
      try discriminate; [| reflexivity].
    apply String.eqb_eq in Hsame. congruence.
  - destruct (Js.truthy nextPath) eqn:Htruthy; simpl; rewrite Hclosed; simpl;
      split; try reflexivity; intros; try discriminate; reflexivity.
Qed.

End Flight.

Lemma one_refresh_in_flight_witness :
  let s := run plainLibrary (initial true (Some "/repo"))
             [Mounted; Refresh; StageFile "a.txt";
              Settle 0 (Js.Resolved (StatusValue oneModified))] in
  refreshInFlight s = true /\ refreshQueued s = true /\ loading s = true
  /\ pending s !! 1 = Some (RefreshAwaitsBranches oneModified Detached)
  /\ exists id k,
       pending s !! id = Some k /\ inRefresh k = true
       /\ forall id' k', pending s !! id' = Some k' -> inRefresh k' = true ->
                         id' = id.
Proof.
  intros s.
  assert (Hflight : refreshInFlight s = true) by (vm_compute; reflexivity).
  split; [exact Hflight |]. split; [vm_compute; reflexivity |].
  split; [vm_compute; reflexivity |]. split; [vm_compute; reflexivity |].
  destruct (one_refresh_in_flight plainLibrary true (Some "/repo")
              [Mounted; Refresh; StageFile "a.txt";
               Settle 0 (Js.Resolved (StatusValue oneModified))])
    as (_ & _ & Hone & _).
  exact (Hone Hflight).
Defined.

Lemma busy_indicators_are_backed_witness :
  let s := run plainLibrary (initial true (Some "/repo"))
             [Mounted;
              Settle 0 (Js.Resolved (StatusValue oneStaged));
              Settle 1 (Js.Resolved (BranchesValue branchesMain));
              Settle 2 (Js.Resolved (PatchValue "patch of a.txt"));
              CommitMessageInput "fix"; CommitChanges false;
              Settle 3 (Js.Resolved NoValue)] in
  isOn CommitBusy s = true
  /\ pending s !! 4 = Some (RefreshAwaitsStatus CommitCaller)
  /\ exists id k, pending s !! id = Some k
                  /\ backs CommitBusy (diffToken s) k = true.
Proof.
  intros s.
  assert (Hon : isOn CommitBusy s = true) by (vm_compute; reflexivity).
  split; [exact Hon |]. split; [vm_compute; reflexivity |].
  exact (busy_indicators_are_backed plainLibrary true (Some "/repo")
           [Mounted;
            Settle 0 (Js.Resolved (StatusValue oneStaged));
            Settle 1 (Js.Resolved (BranchesValue branchesMain));
            Settle 2 (Js.Resolved (PatchValue "patch of a.txt"));
            CommitMessageInput "fix"; CommitChanges false;
            Settle 3 (Js.Resolved NoValue)] CommitBusy Hon).
Defined.

Lemma commit_runs_once_and_reports_witness :
  let s := showing oneStaged " fix: typo " in
  let s1 := step plainLibrary s (CommitChanges false) in
  canCommit s = true /\ activeRepoPath s = Some "/repo"
  /\ log s1 = [git_commit "/repo" "fix: typo" false]
  /\ commitMessage
       (step plainLibrary s1 (Settle 0 (Js.Rejected (Js.ErrorInstance "hook failed"))))
     = " fix: typo "
  /\ error
       (step plainLibrary s1 (Settle 0 (Js.Rejected (Js.ErrorInstance "hook failed"))))
     = Some "hook failed".
Proof.
  intros s s1.
  assert (Hsome : "/repo" <> "") by discriminate.
  destruct (commit_runs_once_and_reports plainLibrary s false "/repo"
              eq_refl eq_refl Hsome)
    as ((Hlog & _) & _ & Hfailed & _).
  destruct (Hfailed (Js.ErrorInstance "hook failed"))
    as (Herror & _ & Hmessage & _).
  split; [reflexivity |]. split; [reflexivity |].
  split; [exact Hlog |]. split; [exact Hmessage | exact Herror].
Defined.

Lemma diff_tokens_are_distinct_witness :
  let s := run plainLibrary (initial true (Some "/repo"))
             [Mounted;
              Settle 0 (Js.Resolved (StatusValue twoModified));
              Settle 1 (Js.Resolved (BranchesValue branchesMain));
              PickFile "b.txt"; PickFile "a.txt"] in
  pending s !! 2 = Some (LoadDiffAwaitsDiff 1 (DiffInRefresh Detached))
  /\ pending s !! 3 = Some (LoadDiffAwaitsDiff 2 DiffDetached)
  /\ pending s !! 4 = Some (LoadDiffAwaitsDiff 3 DiffDetached)
  /\ (diffToken s < Js.maxExactInteger)%Z
  /\ (1 <= 3 <= diffToken s)%Z.
Proof.
  intros s.
  assert (Hlast : pending s !! 4 = Some (LoadDiffAwaitsDiff 3 DiffDetached))
    by (vm_compute; reflexivity).
  split; [vm_compute; reflexivity |]. split; [vm_compute; reflexivity |].
  split; [exact Hlast |]. split; [vm_compute; reflexivity |].
  exact (proj1 (diff_tokens_are_distinct plainLibrary true (Some "/repo")
                  [Mounted;
                   Settle 0 (Js.Resolved (StatusValue twoModified));
                   Settle 1 (Js.Resolved (BranchesValue branchesMain));
                   PickFile "b.txt"; PickFile "a.txt"])
           4 _ 3%Z Hlast eq_refl).
Defined.

Lemma unmounted_panel_renders_nothing_witness :
  let s := run plainLibrary (initial true (Some "/repo"))
             [Mounted; Settle 0 (Js.Resolved (StatusValue oneModified))] in
  let later := [Settle 1 (Js.Resolved (BranchesValue branchesMain));
                Settle 2 (Js.Resolved (PatchValue "patch of a.txt"))] in
  diffContainer s = Some (TextContent "")
  /\ Forall (fun e => isMounted e = false) later
  /\ diffContainer (run plainLibrary (step plainLibrary s Unmounted) later)
     = None
  /\ refreshInFlight (run plainLibrary (step plainLibrary s Unmounted) later)
     = false.
Proof.
  intros s later.
  assert (Hlater : Forall (fun e => isMounted e = false) later)
    by (repeat constructor).
  split; [vm_compute; reflexivity |]. split; [exact Hlater |].
  split; [| vm_compute; reflexivity].
  exact (unmounted_panel_renders_nothing plainLibrary s later Hlater).
Defined.

Lemma last_repository_is_remembered_witness :
  let s := showing oneModified "" in
  propOpen s = true /\ refreshInFlight s = false
  /\ propRepoPath s <> None /\ lastRepoPath s = Some "/repo"
  /\ log (step plainLibrary s (RepoPathChanged None))
     = [git_status (Some "/repo")].
Proof.
  intros s.
  assert (Hprop : propRepoPath s <> None) by discriminate.
  assert (Hsome : "/repo" <> "") by discriminate.
  destruct (last_repository_is_remembered plainLibrary s)
    as (_ & Hnull & _).
  destruct (Hnull "/repo" eq_refl eq_refl Hprop eq_refl Hsome) as (Hlog & _).
  split; [reflexivity |]. split; [reflexivity |].
  split; [exact Hprop |]. split; [reflexivity | exact Hlog].
Defined.

End GitPanelInvariants.
